(** * Migration client and full-text stage tracking: a shallow embedding

    This development embeds, function by function,

    - [server/tool/src/upgrade.ts]: [MigrateClientImpl] with its
      [translateQuery], [traverse] (and the iterator's [next]), [update],
      [bulk] and [move] methods;
    - the indexer utilities [loadIndexStageStage] and
      [traverseFullTextContexts] with [collectPropagate];

    and proves the properties the specification states about them.  It then
    embeds the rest of these files and of the account service, the other
    methods of the client ([find], [create], [delete], [deleteMany]),
    [getContent] and [createStateDoc], the request handler and the start of
    [serveAccount], and the conversions from collaborative documents to
    ProseMirror nodes, with further properties of the code.

    Conventions.  A JavaScript value is a [value]; an object is the list of
    its own enumerable properties in enumeration order, which is the order
    [Object.keys], [for ... in] and the spread operator observe, and a valid
    object has pairwise distinct keys.  Objects are plain: their prototype
    is [Object.prototype], so that an assignment under the key [__proto__]
    reaches the setter they inherit and creates no property, and a read of
    a key they do not own finds the members they inherit.  Numbers are the
    integers (counts, versions and timestamps are all the code computes
    with); a sum is rounded to the nearest double, and numbers print as
    JavaScript prints them.  The size asked of the iterator's [next], which
    the code only compares, is any number: a ratio of integers, an infinity
    or [NaN].  Strings are byte strings; the only characters the code
    inspects are ASCII.  An exception is an explicit [Throw] outcome.

    The document store, the clock and the logger are an interface ([Db]);
    a method is a computation in the monad [M] that threads the state of
    that interface and records every call with its answer, so that
    statements can speak about which calls were made and in which order.
    Loops whose length the store decides take fuel.  Two stores implement
    the interface: an in-memory one ([MemStore]) and one whose cursor
    answers are scripted, faults included ([ScriptedStore]).

    The file has two parts: the embedding with the vocabulary of the
    statements, then the properties. *)

From Stdlib Require Import List String Ascii ZArith Lia Bool Arith.
From Stdlib Require Import DecimalString.
Import ListNotations.

Local Open Scope string_scope.
Local Open Scope list_scope.

(** ** JavaScript values *)

#[warnings="-register-all"]
Inductive value : Type :=
| VUndefined
| VNull
| VBool (b : bool)
| VNum (n : Z)
| VStr (s : string)
| VArr (items : list value)
| VObj (props : list (string * value)).

(** An object literal seen as its property list. *)
Definition obj : Type := list (string * value).

(** Exceptions the embedded code can raise or receive. *)
Inductive Err : Type :=
| TypeError (msg : string)
| StoreIOError (msg : string).

(** Result of a call that either completes or raises. *)
Inductive Result (A : Type) : Type :=
| Ok (a : A)
| Throw (e : Err).
Arguments Ok {A} a.
Arguments Throw {A} e.

Module Js.

(** [typeof v === 'object'] *)
Definition typeof_object (v : value) : bool :=
  match v with
  | VNull | VArr _ | VObj _ => true
  | _ => false
  end.

(** [v !== null] *)
Definition not_null (v : value) : bool :=
  match v with VNull => false | _ => true end.

(** [v !== undefined] *)
Definition not_undefined (v : value) : bool :=
  match v with VUndefined => false | _ => true end.

(** Decimal form of an array index. *)
Definition index_key (i : nat) : string :=
  NilZero.string_of_uint (Nat.to_uint i).

(** *** Numbers

    A number of JavaScript is a double.  The integers of magnitude up to
    [2^53] are doubles; beyond, an integer is a double when it is a multiple
    of the spacing of doubles at its magnitude, and [VNum n] stands for a
    number only for such [n].  [round_double z] is the double nearest to
    the integer [z], a tie going to the even mantissa, as an arithmetic
    operation rounds its exact result (magnitudes beyond the largest
    double, about [1.8e308], do not arise from adding 1 to a double). *)
Definition round_double (z : Z) : Z :=
  let a := Z.abs z in
  let e := Z.max 0 (Z.log2 a - 52) in
  let s := (2 ^ e)%Z in
  let q := (a / s)%Z in
  let r := (a mod s)%Z in
  let up := if (2 * r <? s)%Z then 0%Z
            else if (s <? 2 * r)%Z then 1%Z
            else (q mod 2)%Z in
  (Z.sgn z * ((q + up) * s))%Z.

(** The decimal digits of a natural number. *)
Definition digits (a : Z) : string := NilZero.string_of_int (Z.to_int a).

Fixpoint zeros (n : nat) : string :=
  match n with
  | O => EmptyString
  | S n' => String "0" (zeros n')
  end.

(** The shortest decimal that reads back as the double [x], an integer of
    [D] digits: the least number [k] of leading digits such that the
    [k]-digit number below [x] or the one above it, followed by zeros,
    rounds to [x]; of the two the closer, and the even one when they are
    equally close.  The result is the digits as a number and the number of
    digits before the decimal point. *)
Fixpoint shortest (fuel : nat) (k : Z) (x D : Z) : Z * Z :=
  match fuel with
  | O => (x, D)
  | S fuel' =>
      let p := (10 ^ (D - k))%Z in
      let lo := (x / p)%Z in
      let hi := (lo + 1)%Z in
      let ok_lo := (round_double (lo * p) =? x)%Z in
      let ok_hi := (round_double (hi * p) =? x)%Z in
      if ok_lo || ok_hi then
        let d_lo := (x - lo * p)%Z in
        let d_hi := (hi * p - x)%Z in
        let pick_hi :=
          if ok_lo && ok_hi
          then (d_hi <? d_lo)%Z || ((d_hi =? d_lo)%Z && Z.even hi)
          else ok_hi in
        let s := if pick_hi then hi else lo in
        if (s =? 10 ^ k)%Z then (1%Z, (D + 1)%Z) else (s, D)
      else shortest fuel' (k + 1)%Z x D
  end.

(** A double of magnitude [2^53] or more, printed: the shortest digits,
    filled with zeros up to the decimal point for a number below [10^21] and
    in exponent form from there on. *)
Definition large_to_string (x : Z) : string :=
  let D := Z.of_nat (String.length (digits x)) in
  let '(s, n) := shortest (Z.to_nat D) 1 x D in
  let sd := digits s in
  if (n <=? 21)%Z then sd ++ zeros (Z.to_nat n - String.length sd)
  else
    match sd with
    | String d EmptyString => String d ("e+" ++ digits (n - 1))
    | String d rest => String d ("." ++ rest ++ "e+" ++ digits (n - 1))
    | EmptyString => EmptyString
    end.

(** Number to string, as a template literal prints an integer. *)
Definition num_to_string (n : Z) : string :=
  if (Z.abs n <? 9007199254740992)%Z then NilZero.string_of_int (Z.to_int n)
  else if (n <? 0)%Z then String "-" (large_to_string (Z.abs n))
  else large_to_string n.

Fixpoint indexed_from {A : Type} (i : nat) (l : list A) : list (string * A) :=
  match l with
  | [] => []
  | x :: l' => (index_key i, x) :: indexed_from (S i) l'
  end.

(** The characters of a string, each as a one-character string. *)
Fixpoint characters (s : string) : list value :=
  match s with
  | EmptyString => []
  | String c rest => VStr (String c EmptyString) :: characters rest
  end.

(** Own enumerable properties of a value, in enumeration order: the
    properties of an object, the elements of an array and the characters of
    a string under their indices; the other primitives have none. *)
Definition own_enumerable (v : value) : obj :=
  match v with
  | VObj o => o
  | VArr l => indexed_from 0 l
  | VStr s => indexed_from 0 (characters s)
  | _ => []
  end.

(** [Object.keys(v)] *)
Definition keys (v : value) : list string := map fst (own_enumerable v).

(** Property lookup in a property list; [None] when the key is absent. *)
Fixpoint lookup (k : string) (o : obj) : option value :=
  match o with
  | [] => None
  | (k', v) :: o' => if String.eqb k k' then Some v else lookup k o'
  end.

(** [o[k]] on a property list: absent keys read as [undefined]. *)
Definition get (o : obj) (k : string) : value :=
  match lookup k o with Some v => v | None => VUndefined end.

(** [v[k]] for a key that is neither an index nor a built-in member. *)
Definition member (v : value) (k : string) : value :=
  match v with
  | VObj o => get o k
  | _ => VUndefined
  end.

(** [o[k] = v]: an existing property keeps its place, a new one is
    enumerated last (every key the code writes this way is either copied
    from an enumeration, in order, or is not an array index). *)
Fixpoint set (o : obj) (k : string) (v : value) : obj :=
  match o with
  | [] => [(k, v)]
  | (k', v') :: o' =>
      if String.eqb k k' then (k', v) :: o' else (k', v') :: set o' k v
  end.

(** [{ ...a, ...b }] on property lists: each property of [b] is assigned
    onto a copy of [a], in order. *)
Definition assign (a b : obj) : obj :=
  fold_left (fun acc kv => set acc (fst kv) (snd kv)) b a.

(** [{ ...v }] *)
Definition spread (v : value) : obj := assign [] (own_enumerable v).

(** [delete o[k]] *)
Fixpoint delete (o : obj) (k : string) : obj :=
  match o with
  | [] => []
  | (k', v') :: o' =>
      if String.eqb k k' then delete o' k else (k', v') :: delete o' k
  end.

(** [k in o] for an own property. *)
Definition has (o : obj) (k : string) : bool :=
  match lookup k o with Some _ => true | None => false end.

(** [s.split(sep)] for a one-character separator. *)
Fixpoint split (sep : ascii) (s : string) : list string :=
  match s with
  | EmptyString => [EmptyString]
  | String c rest =>
      if Ascii.eqb c sep then EmptyString :: split sep rest
      else match split sep rest with
           | [] => [String c EmptyString]
           | h :: t => String c h :: t
           end
  end.

(** [l.join(sep)] *)
Fixpoint join (sep : string) (l : list string) : string :=
  match l with
  | [] => EmptyString
  | [x] => x
  | x :: l' => x ++ sep ++ join sep l'
  end.

(** [String(v)], the conversion a template literal applies.  An array
    prints its elements separated by commas, with [null] and [undefined]
    elements printed empty. *)
Fixpoint to_string (v : value) : string :=
  match v with
  | VUndefined => "undefined"
  | VNull => "null"
  | VBool true => "true"
  | VBool false => "false"
  | VNum n => num_to_string n
  | VStr s => s
  | VArr items =>
      join ","
        (map (fun x => match x with
                       | VUndefined | VNull => EmptyString
                       | _ => to_string x
                       end) items)
  | VObj _ => "[object Object]"
  end.

(** [(v ?? 0) + 1]: [null] and [undefined] are replaced by 0 first; the
    addition is numeric on numbers and booleans, where the sum is rounded
    to a double, and is string concatenation once an operand converts to a
    string. *)
Definition nullish_zero_plus_one (v : value) : value :=
  match v with
  | VUndefined | VNull => VNum 1
  | VNum n => VNum (round_double (n + 1))
  | VBool true => VNum 2
  | VBool false => VNum 1
  | VStr s => VStr (s ++ "1")
  | VArr _ | VObj _ => VStr (to_string v ++ "1")
  end.

(** [k in v]: raises on a primitive right operand. *)
Definition in_op (k : string) (v : value) : Result bool :=
  match v with
  | VObj o => Ok (has o k)
  | VArr l => Ok (has (indexed_from 0 l) k)
  | _ => Throw (TypeError "Cannot use 'in' operator to search for a key in a primitive")
  end.

(** [target[k] = v] evaluated for its effect on [target] (strict mode):
    an object receives or replaces the property; [null] and [undefined]
    raise, and so does a primitive, on which no property can be created.
    An array that receives a named property is represented by its own
    enumerable properties, indices first. *)
Definition set_member (target : value) (k : string) (v : value) : Result value :=
  match target with
  | VObj o => Ok (VObj (set o k v))
  | VArr l => Ok (VObj (set (indexed_from 0 l) k v))
  | VUndefined | VNull => Throw (TypeError "Cannot set properties of null or undefined")
  | _ => Throw (TypeError "Cannot create property on a primitive")
  end.

End Js.

(** ** Deep structural equality ([deepEqual] of the fast-equals package)

    Scalars compare by strict equality; arrays by length and element-wise in
    order; objects by number of keys and, for every key of the left operand,
    presence of that key on the right with deeply equal values.  An array is
    never equal to a plain object. *)
Fixpoint deepEqual (a b : value) {struct a} : bool :=
  match a, b with
  | VUndefined, VUndefined => true
  | VNull, VNull => true
  | VBool x, VBool y => Bool.eqb x y
  | VNum x, VNum y => Z.eqb x y
  | VStr x, VStr y => String.eqb x y
  | VArr xs, VArr ys =>
      (fix arrays (xs ys : list value) {struct xs} : bool :=
         match xs, ys with
         | [], [] => true
         | x :: xs', y :: ys' => deepEqual x y && arrays xs' ys'
         | _, _ => false
         end) xs ys
  | VObj xo, VObj yo =>
      Nat.eqb (List.length xo) (List.length yo) &&
      (fix props (xo : list (string * value)) {struct xo} : bool :=
         match xo with
         | [] => true
         | (k, x) :: xo' =>
             match Js.lookup k yo with
             | Some y => deepEqual x y && props xo'
             | None => false
             end
         end) xo
  | _, _ => false
  end.

(** ** The query translator ([translateQuery], upgrade.ts lines 28-46) *)

(** The template literal [`^${pattern.split('%').join('.*')}$`]. *)
Definition like_regex (pattern : string) : string :=
  "^" ++ Js.join ".*" (Js.split "%" pattern) ++ "$".

(** [pattern.split] when [pattern] is not a string: reading a member of
    [undefined] or [null] raises, and on any other value the member is not a
    function. *)
Definition split_type_error (pattern : value) : Err :=
  match pattern with
  | VUndefined => TypeError "Cannot read properties of undefined (reading 'split')"
  | VNull => TypeError "Cannot read properties of null (reading 'split')"
  | _ => TypeError "pattern.split is not a function"
  end.

(** [translated[key] = v] on the object the translator builds, given by
    its own properties.  [translated] starts as [{}], so the name
    [__proto__] resolves to the accessor it inherits from
    [Object.prototype] for as long as that prototype is within reach
    ([chain]): the assignment then creates no property.  It makes an object
    or array the prototype of [translated], makes [null] the prototype, which
    puts the accessor out of reach, and is ignored for any other value.
    Every other assignment creates or replaces an own property. *)
Definition store_field (translated : obj) (chain : bool) (key : string)
    (v : value) : obj * bool :=
  if String.eqb key "__proto__" && chain then
    match v with
    | VNull => (translated, false)
    | _ => (translated, true)
    end
  else (Js.set translated key v, chain).

(** The body of the [for (const key in query)] loop, with [translated] as
    accumulator; the [continue] of the source is the first recursive call.
    The result is [translated] by its own properties, which are what the
    store is sent; the prototype a field named [__proto__] leaves on it is
    not part of them. *)
Fixpoint translate_loop (entries : obj) (translated : obj) (chain : bool)
    : Result obj :=
  match entries with
  | [] => Ok translated
  | (key, value) :: rest =>
      if Js.not_null value && Js.typeof_object value then
        let keys := Js.keys value in
        match nth_error keys 0 with
        | Some k0 =>
            if String.eqb k0 "$like" then
              match Js.member value "$like" with
              | VStr pattern =>
                  let '(translated, chain) :=
                    store_field translated chain key
                      (VObj [("$regex", VStr (like_regex pattern));
                             ("$options", VStr "i")]) in
                  translate_loop rest translated chain
              | pattern => Throw (split_type_error pattern)
              end
            else
              let '(translated, chain) := store_field translated chain key value in
              translate_loop rest translated chain
        | None =>
            let '(translated, chain) := store_field translated chain key value in
            translate_loop rest translated chain
        end
      else
        let '(translated, chain) := store_field translated chain key value in
        translate_loop rest translated chain
  end.

Definition translateQuery (query : value) : Result value :=
  match translate_loop (Js.own_enumerable query) [] true with
  | Ok translated => Ok (VObj translated)
  | Throw e => Throw e
  end.

(** The first key [Object.keys] lists, [None] standing for [undefined]. *)
Definition first_key (v : value) : option string := nth_error (Js.keys v) 0.

(** What one turn of the loop stores under the key, or the exception it
    raises: [translate_loop] is this step repeated (lemma
    [translate_loop_step]). *)
Definition translate_value (v : value) : Result value :=
  if Js.not_null v && Js.typeof_object v then
    match first_key v with
    | Some k0 =>
        if String.eqb k0 "$like" then
          match Js.member v "$like" with
          | VStr pattern =>
              Ok (VObj [("$regex", VStr (like_regex pattern));
                        ("$options", VStr "i")])
          | pattern => Throw (split_type_error pattern)
          end
        else Ok v
    | None => Ok v
    end
  else Ok v.

(** The translation of a well-typed field value. *)
Definition translated_value (v : value) : value :=
  match translate_value v with
  | Ok v' => v'
  | Throw _ => v
  end.

(** The fields of a query that reach the filter as properties: all but a
    field named [__proto__]. *)
Definition carried (entries : obj) : obj :=
  List.filter (fun kv => negb (String.eqb (fst kv) "__proto__")) entries.

(** A field value is well typed for the translator when its [$like]
    operator, if that is its first key, carries a string. *)
Definition like_is_string (v : value) : bool :=
  match first_key v with
  | Some k0 =>
      if String.eqb k0 "$like" then
        match Js.member v "$like" with
        | VStr _ => true
        | _ => false
        end
      else true
  | None => true
  end.

Definition query_well_typed (query : value) : bool :=
  forallb (fun kv => like_is_string (snd kv)) (Js.own_enumerable query).

(** The wording of the specification for the pattern: every [%] becomes
    [.*], every other character stands as it is. *)
Fixpoint percent_to_any (pattern : string) : string :=
  match pattern with
  | EmptyString => EmptyString
  | String c rest =>
      if Ascii.eqb c "%" then String "." (String "*" (percent_to_any rest))
      else String c (percent_to_any rest)
  end.

(** ** The store's regular expressions, on the fragment the translator emits

    The document store evaluates [$regex] filters with a Perl-compatible
    engine.  The fragment modelled here has literal characters, [.] (any
    character but a line feed), a postfix [*], an initial [^] and a final [$]
    (end of subject, or just before a final line feed), and the option [i].
    Patterns using any other metacharacter are outside the fragment and
    [parse] answers [None] for them. *)
Module Regex.

Inductive atom : Type :=
| Any
| Lit (c : ascii).

Record item : Type := mkItem { it_atom : atom; it_star : bool }.

Record regex : Type :=
  mkRegex { anchor_start : bool; body : list item; anchor_end : bool }.

Definition line_feed : ascii := ascii_of_nat 10.

(** Metacharacters that have no reading in the fragment. *)
Definition unsupported (c : ascii) : bool :=
  existsb (Ascii.eqb c)
    ["\"; "["; "]"; "("; ")"; "{"; "}"; "+"; "?"; "|"; "^"]%char.

Fixpoint parse_body (s : string) : option (list item * bool) :=
  match s with
  | EmptyString => Some ([], false)
  | String c rest =>
      if Ascii.eqb c "$" then
        match rest with
        | EmptyString => Some ([], true)
        | _ => None
        end
      else if Ascii.eqb c "*" || unsupported c then None
      else
        let a := if Ascii.eqb c "." then Any else Lit c in
        match rest with
        | String "*" rest' =>
            match parse_body rest' with
            | Some (items, e) => Some (mkItem a true :: items, e)
            | None => None
            end
        | _ =>
            match parse_body rest with
            | Some (items, e) => Some (mkItem a false :: items, e)
            | None => None
            end
        end
  end.

Definition parse (s : string) : option regex :=
  match s with
  | String "^" rest =>
      match parse_body rest with
      | Some (items, e) => Some (mkRegex true items e)
      | None => None
      end
  | _ =>
      match parse_body s with
      | Some (items, e) => Some (mkRegex false items e)
      | None => None
      end
  end.

(** ASCII lower-casing, for the [i] option. *)
Definition lower (c : ascii) : ascii :=
  let n := nat_of_ascii c in
  if (65 <=? n)%nat && (n <=? 90)%nat then ascii_of_nat (n + 32) else c.

Definition char_eq (ci : bool) (c d : ascii) : bool :=
  if ci then Ascii.eqb (lower c) (lower d) else Ascii.eqb c d.

Definition atom_matches (ci : bool) (a : atom) (d : ascii) : bool :=
  match a with
  | Any => negb (Ascii.eqb d line_feed)
  | Lit c => char_eq ci c d
  end.

Definition at_end (anchored : bool) (s : string) : bool :=
  if anchored then
    match s with
    | EmptyString => true
    | String c EmptyString => Ascii.eqb c line_feed
    | _ => false
    end
  else true.

(** Backtracking match of the items against a prefix of [s]. *)
Fixpoint match_here (ci : bool) (items : list item) (e : bool) (s : string)
  {struct items} : bool :=
  match items with
  | [] => at_end e s
  | mkItem a false :: rest =>
      match s with
      | String d s' => atom_matches ci a d && match_here ci rest e s'
      | EmptyString => false
      end
  | mkItem a true :: rest =>
      (fix star (s : string) : bool :=
         match_here ci rest e s ||
         match s with
         | String d s' => atom_matches ci a d && star s'
         | EmptyString => false
         end) s
  end.

Fixpoint search (ci : bool) (items : list item) (e : bool) (s : string) : bool :=
  match_here ci items e s ||
  match s with
  | String _ s' => search ci items e s'
  | EmptyString => false
  end.

Definition matches (r : regex) (ci : bool) (s : string) : bool :=
  if anchor_start r then match_here ci (body r) (anchor_end r) s
  else search ci (body r) (anchor_end r) s.

(** [{ $regex: pattern, $options: options }] applied to a string; [None]
    when the pattern or the options leave the fragment. *)
Definition test (pattern options : string) (s : string) : option bool :=
  match parse pattern with
  | Some r =>
      if String.eqb options "i" then Some (matches r true s)
      else if String.eqb options "" then Some (matches r false s)
      else None
  | None => None
  end.

End Regex.

(** The [$like] pattern read literally, as the query language defines it:
    [%] stands for any sequence of characters, every other character for
    itself, case-insensitively, against the whole string. *)
Fixpoint like_matches (pattern : string) (s : string) {struct pattern} : bool :=
  match pattern with
  | EmptyString =>
      match s with EmptyString => true | _ => false end
  | String c pattern' =>
      if Ascii.eqb c "%" then
        (fix any (s : string) : bool :=
           like_matches pattern' s ||
           match s with
           | String _ s' => any s'
           | EmptyString => false
           end) s
      else
        match s with
        | String d s' => Regex.char_eq true c d && like_matches pattern' s'
        | EmptyString => false
        end
  end.

(** A [$like] pattern is plain when, [%] apart, none of its characters is
    a metacharacter of regular expressions. *)
Definition plain_char (c : ascii) : bool :=
  negb (Ascii.eqb c "." || Ascii.eqb c "*" || Ascii.eqb c "$" || Regex.unsupported c).

Fixpoint like_plain (pattern : string) : bool :=
  match pattern with
  | EmptyString => true
  | String c rest => (Ascii.eqb c "%" || plain_char c) && like_plain rest
  end.

Fixpoint no_line_feed (s : string) : bool :=
  match s with
  | EmptyString => true
  | String c rest => negb (Ascii.eqb c Regex.line_feed) && no_line_feed rest
  end.

(** The items of the regular expression a plain pattern translates to. *)
Fixpoint like_items (pattern : string) : list Regex.item :=
  match pattern with
  | EmptyString => []
  | String c rest =>
      if Ascii.eqb c "%" then Regex.mkItem Regex.Any true :: like_items rest
      else Regex.mkItem (Regex.Lit c) false :: like_items rest
  end.

(** A native filter applied to a document, for the two shapes the translator
    produces from scalar and [$like] fields: a [$regex] condition tests the
    string under the field, any other condition is an equality. *)
Definition condition_holds (cond field : value) : bool :=
  match cond with
  | VObj props =>
      match Js.lookup "$regex" props with
      | Some (VStr re) =>
          match field with
          | VStr s =>
              let options :=
                match Js.lookup "$options" props with
                | Some (VStr o) => o
                | _ => EmptyString
                end in
              match Regex.test re options s with
              | Some b => b
              | None => false
              end
          | _ => false
          end
      | _ => deepEqual cond field
      end
  | _ => deepEqual cond field
  end.

Definition filter_matches (filter doc : value) : bool :=
  forallb (fun kv => condition_holds (snd kv) (Js.member doc (fst kv)))
    (Js.own_enumerable filter).

(** ** The document store as seen by the migration client *)

(** Counts the store reports for [updateMany] and [bulkWrite]. *)
Record UpdateResult : Type :=
  mkUpdateResult { matchedCount : Z; modifiedCount : Z }.

Record MigrationResult : Type :=
  mkMigrationResult { matched : Z; updated : Z }.

Inductive SortingOrder : Type := Ascending | Descending.

Record FindOptions : Type :=
  mkFindOptions { limit : option Z; sort : option (list (string * SortingOrder)) }.

Definition CursorId : Type := nat.

(** The operations of the store, the clock and the logger the client calls.
    Every store call answers with a result or a fault and moves the world
    [W] on. *)
Class Db (W : Type) : Type := {
  db_find : string -> value -> W -> CursorId * W;
  db_limit : CursorId -> Z -> W -> CursorId * W;
  db_sort : CursorId -> list (string * Z) -> W -> CursorId * W;
  db_hasNext : CursorId -> W -> Result bool * W;
  db_next : CursorId -> W -> Result value * W;
  db_close : CursorId -> W -> Result unit * W;
  db_updateMany : string -> value -> value -> W -> Result UpdateResult * W;
  db_bulkWrite : string -> list value -> W -> Result UpdateResult * W;
  db_insertOne : string -> value -> W -> Result unit * W;
  db_deleteMany : string -> value -> W -> Result unit * W;
  date_now : W -> Z * W
}.

(** What a run of the client does to the outside, in order, with what the
    outside answered. *)
Inductive Event : Type :=
| EvFind (domain : string) (filter : value) (cursor : CursorId)
| EvLimit (cursor : CursorId) (n : Z) (cursor' : CursorId)
| EvSort (cursor : CursorId) (spec : list (string * Z)) (cursor' : CursorId)
| EvHasNext (cursor : CursorId) (r : Result bool)
| EvNext (cursor : CursorId) (r : Result value)
| EvClose (cursor : CursorId) (r : Result unit)
| EvUpdateMany (domain : string) (filter update : value) (r : Result UpdateResult)
| EvBulkWrite (domain : string) (operations : list value) (r : Result UpdateResult)
| EvInsertOne (domain : string) (doc : value) (r : Result unit)
| EvDeleteMany (domain : string) (filter : value) (r : Result unit)
| EvNow (t : Z)
| EvLog (msg : string) (payload : value)
| EvConsoleError (e : Err).

(** ** A monad for asynchronous methods

    A computation runs against a world, and either runs out of loop fuel
    ([None]) or ends with a value or an exception, a new world and the
    events it produced. *)
Definition M (W A : Type) : Type := W -> option (Result A * W * list Event).

Definition ret {W A : Type} (a : A) : M W A :=
  fun w => Some (Ok a, w, []).

Definition raise {W A : Type} (e : Err) : M W A :=
  fun w => Some (Throw e, w, []).

Definition bind {W A B : Type} (m : M W A) (k : A -> M W B) : M W B :=
  fun w =>
    match m w with
    | None => None
    | Some (Throw e, w', tr) => Some (Throw e, w', tr)
    | Some (Ok a, w', tr) =>
        match k a w' with
        | None => None
        | Some (r, w'', tr') => Some (r, w'', tr ++ tr')
        end
    end.

(** A pure step that may raise. *)
Definition lift {W A : Type} (r : Result A) : M W A :=
  fun w => Some (r, w, []).

Definition out_of_fuel {W A : Type} : M W A := fun _ => None.

(** [try { body } catch (err) { handler }] *)
Definition try_catch {W A : Type} (body : M W A) (handler : Err -> M W A) : M W A :=
  fun w =>
    match body w with
    | None => None
    | Some (Ok a, w', tr) => Some (Ok a, w', tr)
    | Some (Throw e, w', tr) =>
        match handler e w' with
        | None => None
        | Some (r, w'', tr') => Some (r, w'', tr ++ tr')
        end
    end.

(** [try { body } finally { final }]: the outcome of [body] stands unless
    [final] raises. *)
Definition try_finally {W A : Type} (body : M W A) (final : M W unit) : M W A :=
  fun w =>
    match body w with
    | None => None
    | Some (r, w', tr) =>
        match final w' with
        | None => None
        | Some (Ok _, w'', tr') => Some (r, w'', tr ++ tr')
        | Some (Throw e, w'', tr') => Some (Throw e, w'', tr ++ tr')
        end
    end.

(** A store call: performed on the world, recorded with its answer. *)
Definition call {W A : Type} (f : W -> Result A * W) (ev : Result A -> Event) : M W A :=
  fun w => let (r, w') := f w in Some (r, w', [ev r]).

(** A call that cannot fail. *)
Definition call_total {W A : Type} (f : W -> A * W) (ev : A -> Event) : M W A :=
  fun w => let (a, w') := f w in Some (Ok a, w', [ev a]).

(** Output with no answer. *)
Definition emit {W : Type} (ev : Event) : M W unit :=
  fun w => Some (Ok tt, w, [ev]).

Declare Scope client_scope.
Delimit Scope client_scope with client.
Notation "x <- m ;; k" := (bind m (fun x => k))
  (at level 61, m at next level, right associativity) : client_scope.
Notation "m ;;; k" := (bind m (fun _ => k))
  (at level 61, right associativity) : client_scope.

(** ** [MigrateClientImpl] (upgrade.ts) *)

(** The freshness marker, the reserved property ['%hash%']. *)
Definition HASH : string := "%hash%".

(** The [size] argument of [next]: a number.  A finite double is a ratio
    of integers; the other numbers are the two infinities and [NaN]. *)
Inductive Size : Type :=
| Ratio (num : Z) (den : positive)
| PlusInfinity
| MinusInfinity
| NotANumber.

(** [length < size] for the length of an array. *)
Definition below (length : nat) (size : Size) : bool :=
  match size with
  | Ratio num den => (Z.of_nat length * Z.pos den <? num)%Z
  | PlusInfinity => true
  | MinusInfinity | NotANumber => false
  end.

(** What one turn of the [while] loop of [next] decides. *)
Inductive PullStep : Type :=
| Push (d : value)
| Break
| ReturnNull.

Module MigrateClientImpl.
Section Client.

Context {W : Type} {db : Db W}.

(** [isOperator] of the core package, which decides whether an update is
    an operator document; it is imported by upgrade.ts and taken here as
    given. *)
Variable isOperator : value -> bool.

Local Open Scope client_scope.

Definition find_cursor (domain : string) (filter : value) : M W CursorId :=
  call_total (db_find domain filter) (EvFind domain filter).
Definition cursor_limit (c : CursorId) (n : Z) : M W CursorId :=
  call_total (db_limit c n) (EvLimit c n).
Definition cursor_sort (c : CursorId) (spec : list (string * Z)) : M W CursorId :=
  call_total (db_sort c spec) (EvSort c spec).
Definition cursor_hasNext (c : CursorId) : M W bool :=
  call (db_hasNext c) (EvHasNext c).
Definition cursor_next (c : CursorId) : M W value :=
  call (db_next c) (EvNext c).
Definition cursor_close (c : CursorId) : M W unit :=
  call (db_close c) (EvClose c).
Definition updateMany (domain : string) (filter upd : value) : M W UpdateResult :=
  call (db_updateMany domain filter upd) (EvUpdateMany domain filter upd).
Definition bulkWrite (domain : string) (ops : list value) : M W UpdateResult :=
  call (db_bulkWrite domain ops) (EvBulkWrite domain ops).
Definition insertOne (domain : string) (doc : value) : M W unit :=
  call (db_insertOne domain doc) (EvInsertOne domain doc).
Definition deleteMany (domain : string) (filter : value) : M W unit :=
  call (db_deleteMany domain filter) (EvDeleteMany domain filter).
Definition now : M W Z := call_total date_now EvNow.
Definition logger_log (msg : string) (payload : value) : M W unit :=
  emit (EvLog msg payload).
Definition console_error (e : Err) : M W unit :=
  emit (EvConsoleError e).

(** The [sort] object built from [options.sort]: 1 for ascending, -1
    otherwise. *)
Definition sort_spec (s : list (string * SortingOrder)) : list (string * Z) :=
  map (fun kv => (fst kv,
                  match snd kv with Ascending => 1%Z | Descending => (-1)%Z end)) s.

(** [traverse], lines 70-88: the cursor the returned iterator closes
    over. *)
Definition traverse (domain : string) (query : value)
    (options : option FindOptions) : M W CursorId :=
  q <- lift (translateQuery query) ;;
  cursor <- find_cursor domain q ;;
  cursor <- match options with
            | Some o => match limit o with
                        | Some n => cursor_limit cursor n
                        | None => ret cursor
                        end
            | None => ret cursor
            end ;;
  cursor <- match options with
            | Some o => match sort o with
                        | Some s => cursor_sort cursor (sort_spec s)
                        | None => ret cursor
                        end
            | None => ret cursor
            end ;;
  ret cursor.

(** The [while] loop of the iterator's [next], lines 92-104.  [docs] is
    the array built so far; the result is [Some docs] for the array and
    [None] for [null].  Only the [cursor.next()] call and what follows it
    in the loop body stand inside the [try]; [cursor.hasNext()] belongs to
    the loop condition. *)
Fixpoint next_loop (fuel : nat) (cursor : CursorId) (size : Size)
    (docs : list value) : M W (option (list value)) :=
  if below (List.length docs) size then
    match fuel with
    | O => out_of_fuel
    | S fuel' =>
        more <- cursor_hasNext cursor ;;
        if more then
          step <- try_catch
                    (d <- cursor_next cursor ;;
                     if Js.not_null d then ret (Push d) else ret Break)
                    (fun err => console_error err ;;; ret ReturnNull) ;;
          match step with
          | Push d => next_loop fuel' cursor size (docs ++ [d])
          | Break => ret (Some docs)
          | ReturnNull => ret None
          end
        else ret (Some docs)
    end
  else ret (Some docs).

(** [next(size)] of the iterator, for any number [size]; the loop takes
    as many turns as the cursor and [size] allow, and [fuel] bounds
    them. *)
Definition next_sized (fuel : nat) (cursor : CursorId) (size : Size)
    : M W (option (list value)) :=
  next_loop fuel cursor size [].

(** [next(size)] for an integer [size].  Each turn of the loop that does
    not leave it lengthens [docs], so [size] turns are all it can take. *)
Definition next (cursor : CursorId) (size : Z) : M W (option (list value)) :=
  next_sized (Z.to_nat size) cursor (Ratio size 1).

(** [close()] of the iterator. *)
Definition close (cursor : CursorId) : M W unit := cursor_close cursor.

(** The [finally] block of [update], lines 138-140. *)
Definition update_timing (t : Z) (domain : string) (query : value) : M W unit :=
  t1 <- now ;;
  if (t1 - t >? 1000)%Z then
    t2 <- now ;;
    t3 <- now ;;
    logger_log ("update" ++ (if (t2 - t >? 5000)%Z then "slow" else ""))
      (VObj [("domain", VStr domain); ("query", query); ("time", VNum (t3 - t))])
  else ret tt.

(** Lines 121-125 of [update]: the marker clear put into the operator
    document.  The assignment [operations.$set['%hash%'] = null] changes
    the [$set] object the caller passed, and [operations] read afterwards
    shows the change; without a [$set], [operations] is rebound to a copy
    that has one. *)
Definition clear_marker_in_set (operations : value) : Result value :=
  if Js.not_undefined (Js.member operations "$set") then
    match Js.set_member (Js.member operations "$set") HASH VNull with
    | Ok s => Ok (VObj (Js.set (Js.own_enumerable operations) "$set" s))
    | Throw e => Throw e
    end
  else
    Ok (VObj (Js.set (Js.spread operations) "$set" (VObj [(HASH, VNull)]))).

(** [update], lines 113-142. *)
Definition update (domain : string) (query : value) (operations : value)
    : M W MigrationResult :=
  t <- now ;;
  try_finally
    (if isOperator operations then
       operations <- lift (clear_marker_in_set operations) ;;
       q <- lift (translateQuery query) ;;
       result <- updateMany domain q (VObj (Js.spread operations)) ;;
       ret (mkMigrationResult (matchedCount result) (modifiedCount result))
     else
       q <- lift (translateQuery query) ;;
       result <- updateMany domain q
                   (VObj [("$set", VObj (Js.set (Js.spread operations) HASH VNull))]) ;;
       ret (mkMigrationResult (matchedCount result) (modifiedCount result)))
    (update_timing t domain query).

(** One element of the [operations] array of [bulk]. *)
Record BulkItem : Type := mkBulkItem { filter : value; update_of : value }.

(** The callback of [operations.map], lines 149-154. *)
Definition bulk_op (it : BulkItem) : Result value :=
  match translateQuery (filter it) with
  | Ok q =>
      Ok (VObj [("updateOne",
                 VObj [("filter", q);
                       ("update",
                        VObj [("$set",
                               VObj (Js.set (Js.spread (update_of it)) HASH VNull))])])])
  | Throw e => Throw e
  end.

(** [Array.prototype.map] with a callback that may raise. *)
Fixpoint map_result {A B : Type} (f : A -> Result B) (l : list A) : Result (list B) :=
  match l with
  | [] => Ok []
  | x :: l' =>
      match f x with
      | Ok y =>
          match map_result f l' with
          | Ok ys => Ok (y :: ys)
          | Throw e => Throw e
          end
      | Throw e => Throw e
      end
  end.

(** [bulk], lines 144-158. *)
Definition bulk (domain : string) (operations : list BulkItem)
    : M W MigrationResult :=
  ops <- lift (map_result bulk_op operations) ;;
  result <- bulkWrite domain ops ;;
  ret (mkMigrationResult (matchedCount result) (modifiedCount result)).

(** [doc != null] *)
Definition loosely_not_null (v : value) : bool :=
  match v with VNull | VUndefined => false | _ => true end.

(** The [while] loop of [move], lines 174-181. *)
Fixpoint move_loop (fuel : nat) (cursor : CursorId) (targetDomain : string)
    (result : MigrationResult) : M W MigrationResult :=
  match fuel with
  | O => out_of_fuel
  | S fuel' =>
      doc <- cursor_next cursor ;;
      if loosely_not_null doc then
        marked <- lift (Js.in_op HASH doc) ;;
        let doc := if marked
                   then VObj (Js.delete (Js.own_enumerable doc) HASH)
                   else doc in
        insertOne targetDomain doc ;;;
        move_loop fuel' cursor targetDomain
          (mkMigrationResult (matched result + 1) (updated result + 1))
      else ret result
  end.

(** [move], lines 160-184. *)
Definition move (fuel : nat) (sourceDomain : string) (query : value)
    (targetDomain : string) : M W MigrationResult :=
  logger_log "move" (VObj [("sourceDomain", VStr sourceDomain); ("query", query)]) ;;;
  q <- lift (translateQuery query) ;;
  cursor <- find_cursor sourceDomain q ;;
  result <- move_loop fuel cursor targetDomain (mkMigrationResult 0 0) ;;
  deleteMany sourceDomain q ;;;
  ret result.

End Client.
End MigrateClientImpl.

(** ** An in-memory document store

    Collections are lists of documents; a cursor is the list of documents
    it has still to deliver, fixed when the cursor is opened.  Which
    documents a filter selects and how a sort specification orders them are
    the store's business and are parameters here. *)
Module MemStore.

Record Mem : Type := mkMem {
  collections : list (string * list value);
  cursors : list (list value);
  clock : Z;
  tick : Z
}.

Fixpoint collection (domain : string) (cs : list (string * list value)) : list value :=
  match cs with
  | [] => []
  | (d, docs) :: cs' => if String.eqb domain d then docs else collection domain cs'
  end.

Fixpoint set_collection (domain : string) (docs : list value)
    (cs : list (string * list value)) : list (string * list value) :=
  match cs with
  | [] => [(domain, docs)]
  | (d, old) :: cs' =>
      if String.eqb domain d then (d, docs) :: cs'
      else (d, old) :: set_collection domain docs cs'
  end.

Fixpoint set_nth {A : Type} (i : nat) (x : A) (l : list A) : list A :=
  match l, i with
  | [], _ => []
  | _ :: l', O => x :: l'
  | y :: l', S i' => y :: set_nth i' x l'
  end.

Definition with_collections (w : Mem) (cs : list (string * list value)) : Mem :=
  mkMem cs (cursors w) (clock w) (tick w).

Definition with_cursors (w : Mem) (cu : list (list value)) : Mem :=
  mkMem (collections w) cu (clock w) (tick w).

(** The [$set] and [$unset] operators; any other operator is refused. *)
Fixpoint apply_update (ops : obj) (doc : obj) : option obj :=
  match ops with
  | [] => Some doc
  | (op, arg) :: ops' =>
      if String.eqb op "$set" then
        apply_update ops' (Js.assign doc (Js.own_enumerable arg))
      else if String.eqb op "$unset" then
        apply_update ops'
          (fold_left (fun d kv => Js.delete d (fst kv)) (Js.own_enumerable arg) doc)
      else None
  end.

Definition apply_update_value (upd doc : value) : option value :=
  match apply_update (Js.own_enumerable upd) (Js.own_enumerable doc) with
  | Some d => Some (VObj d)
  | None => None
  end.

Section Semantics.

Variable matches : value -> value -> bool.
Variable order : list (string * Z) -> list value -> list value.

Definition mem_find (domain : string) (filter : value) (w : Mem) : CursorId * Mem :=
  (List.length (cursors w),
   with_cursors w
     (cursors w ++ [List.filter (matches filter) (collection domain (collections w))])).

Definition mem_limit (c : CursorId) (n : Z) (w : Mem) : CursorId * Mem :=
  match nth_error (cursors w) c with
  | Some docs =>
      (c, if (n =? 0)%Z then w
          else with_cursors w (set_nth c (firstn (Z.abs_nat n) docs) (cursors w)))
  | None => (c, w)
  end.

Definition mem_sort (c : CursorId) (spec : list (string * Z)) (w : Mem) : CursorId * Mem :=
  match nth_error (cursors w) c with
  | Some docs => (c, with_cursors w (set_nth c (order spec docs) (cursors w)))
  | None => (c, w)
  end.

Definition mem_hasNext (c : CursorId) (w : Mem) : Result bool * Mem :=
  match nth_error (cursors w) c with
  | Some [] => (Ok false, w)
  | Some (_ :: _) => (Ok true, w)
  | None => (Throw (StoreIOError "no such cursor"), w)
  end.

Definition mem_next (c : CursorId) (w : Mem) : Result value * Mem :=
  match nth_error (cursors w) c with
  | Some [] => (Ok VNull, w)
  | Some (d :: rest) => (Ok d, with_cursors w (set_nth c rest (cursors w)))
  | None => (Throw (StoreIOError "no such cursor"), w)
  end.

Definition mem_close (c : CursorId) (w : Mem) : Result unit * Mem :=
  (Ok tt, with_cursors w (set_nth c [] (cursors w))).

(** Every matching document is rewritten; a document counts as modified
    when the rewrite changed it. *)
Fixpoint update_all (filter upd : value) (docs : list value)
    : option (list value * Z * Z) :=
  match docs with
  | [] => Some ([], 0%Z, 0%Z)
  | d :: docs' =>
      match update_all filter upd docs' with
      | Some (out, m, n) =>
          if matches filter d then
            match apply_update_value upd d with
            | Some d' =>
                Some (d' :: out, (m + 1)%Z,
                      if deepEqual d d' then n else (n + 1)%Z)
            | None => None
            end
          else Some (d :: out, m, n)
      | None => None
      end
  end.

Definition mem_updateMany (domain : string) (filter upd : value) (w : Mem)
    : Result UpdateResult * Mem :=
  match update_all filter upd (collection domain (collections w)) with
  | Some (docs, m, n) =>
      (Ok (mkUpdateResult m n),
       with_collections w (set_collection domain docs (collections w)))
  | None => (Throw (StoreIOError "unsupported update operator"), w)
  end.

(** The first matching document is rewritten. *)
Fixpoint update_first (filter upd : value) (docs : list value)
    : option (list value * Z * Z) :=
  match docs with
  | [] => Some ([], 0%Z, 0%Z)
  | d :: docs' =>
      if matches filter d then
        match apply_update_value upd d with
        | Some d' => Some (d' :: docs', 1%Z, if deepEqual d d' then 0%Z else 1%Z)
        | None => None
        end
      else
        match update_first filter upd docs' with
        | Some (out, m, n) => Some (d :: out, m, n)
        | None => None
        end
  end.

Fixpoint bulk_all (ops : list value) (docs : list value)
    : option (list value * Z * Z) :=
  match ops with
  | [] => Some (docs, 0%Z, 0%Z)
  | op :: ops' =>
      let one := Js.member op "updateOne" in
      match update_first (Js.member one "filter") (Js.member one "update") docs with
      | Some (docs', m, n) =>
          match bulk_all ops' docs' with
          | Some (out, m', n') => Some (out, (m + m')%Z, (n + n')%Z)
          | None => None
          end
      | None => None
      end
  end.

Definition mem_bulkWrite (domain : string) (ops : list value) (w : Mem)
    : Result UpdateResult * Mem :=
  match bulk_all ops (collection domain (collections w)) with
  | Some (docs, m, n) =>
      (Ok (mkUpdateResult m n),
       with_collections w (set_collection domain docs (collections w)))
  | None => (Throw (StoreIOError "unsupported update operator"), w)
  end.

Definition mem_insertOne (domain : string) (doc : value) (w : Mem)
    : Result unit * Mem :=
  (Ok tt,
   with_collections w
     (set_collection domain (collection domain (collections w) ++ [doc])
        (collections w))).

Definition mem_deleteMany (domain : string) (filter : value) (w : Mem)
    : Result unit * Mem :=
  (Ok tt,
   with_collections w
     (set_collection domain
        (List.filter (fun d => negb (matches filter d))
           (collection domain (collections w)))
        (collections w))).

Definition mem_now (w : Mem) : Z * Mem :=
  (clock w, mkMem (collections w) (cursors w) (clock w + tick w)%Z (tick w)).

Definition mem_db : Db Mem := {|
  db_find := mem_find;
  db_limit := mem_limit;
  db_sort := mem_sort;
  db_hasNext := mem_hasNext;
  db_next := mem_next;
  db_close := mem_close;
  db_updateMany := mem_updateMany;
  db_bulkWrite := mem_bulkWrite;
  db_insertOne := mem_insertOne;
  db_deleteMany := mem_deleteMany;
  date_now := mem_now
|}.

End Semantics.

End MemStore.

(** A store whose cursor answers are scripted: each [hasNext] and each
    [next] call consumes the next scripted answer of its kind, and an
    exhausted script answers as an exhausted cursor does. *)
Module ScriptedStore.

Record Script : Type := mkScript {
  hasNext_answers : list (Result bool);
  next_answers : list (Result value)
}.

Definition fault : Err := StoreIOError "connection closed".

Definition scripted_hasNext (w : Script) : Result bool * Script :=
  match hasNext_answers w with
  | [] => (Ok false, w)
  | r :: rest => (r, mkScript rest (next_answers w))
  end.

Definition scripted_next (w : Script) : Result value * Script :=
  match next_answers w with
  | [] => (Ok VNull, w)
  | r :: rest => (r, mkScript (hasNext_answers w) rest)
  end.

Definition scripted_db : Db Script := {|
  db_find := fun _ _ w => (0%nat, w);
  db_limit := fun c _ w => (c, w);
  db_sort := fun c _ w => (c, w);
  db_hasNext := fun _ w => scripted_hasNext w;
  db_next := fun _ w => scripted_next w;
  db_close := fun _ w => (Ok tt, w);
  db_updateMany := fun _ _ _ w => (Ok (mkUpdateResult 0 0), w);
  db_bulkWrite := fun _ _ w => (Ok (mkUpdateResult 0 0), w);
  db_insertOne := fun _ _ w => (Ok tt, w);
  db_deleteMany := fun _ _ w => (Ok tt, w);
  date_now := fun w => (0%Z, w)
|}.

End ScriptedStore.

(** ** Stage state of the full-text indexer *)

(** The [data] object of [loadIndexStageStage]: what a stage record
    persists. *)
Record StageData : Type := mkStageData {
  data_stageId : string;
  data_attributes : obj
}.

(** An [IndexStageState] document. *)
Record IndexStageState : Type := mkIndexStageState {
  st_id : string;
  st_class : string;
  st_space : string;
  st_modifiedBy : string;
  st_modifiedOn : Z;
  stageId : string;
  attributes : obj
}.

(** The transactions [TxFactory] builds for [loadIndexStageStage]. *)
Inductive Tx : Type :=
| TxCreateDoc (account : string) (objectClass space : string)
    (data : StageData) (objectId : string)
| TxUpdateDoc (account : string) (objectClass space : string)
    (objectId : string) (operations : StageData).

(** The part of [DbAdapter] that [loadIndexStageStage] uses, with the
    identifier generator and the clock it reads: [findAll] for the query
    [{ stageId }] reads the storage, [tx] changes it. *)
Class StageStorage (S : Type) : Type := {
  findAll : string -> S -> list IndexStageState;
  tx : Tx -> S -> S;
  generateId : S -> string * S;
  stage_now : S -> Z * S
}.

Section Indexer.

(** Identifiers declared by the core and server plugins. *)
Variable core_class_IndexStageState : string.
Variable plugin_space_DocIndexState : string.
Variable core_account_System : string.

Context {S : Type} {storage : StageStorage S}.

(** [loadIndexStageStage], lines 87-135.  The result is the pair the
    source returns, with the storage after the call. *)
Definition loadIndexStageStage (st : S) (state : option IndexStageState)
    (stageId_ field : string) (newValue : value)
    : (value * option IndexStageState) * S :=
  let state :=
    match state with
    | None => hd_error (findAll stageId_ st)
    | Some s => Some s
    end in
  let attributes_ : obj :=
    match state with
    | Some s => attributes s
    | None => []
    end in
  let result : value :=
    if Js.not_undefined (Js.get attributes_ "index")
    then VStr (Js.to_string (Js.get attributes_ "index"))
    else VBool true in
  if negb (deepEqual (Js.get attributes_ field) newValue) then
    let newIndex := Js.nullish_zero_plus_one (Js.get attributes_ "index") in
    let result := VStr (Js.to_string newIndex) in
    let data := mkStageData stageId_
                  (Js.set [(field, newValue)] "index" newIndex) in
    match state with
    | None =>
        let '(id, st) := generateId st in
        let st := tx (TxCreateDoc core_account_System core_class_IndexStageState
                        plugin_space_DocIndexState data id) st in
        let '(t, st) := stage_now st in
        (result,
         Some (mkIndexStageState id core_class_IndexStageState
                 plugin_space_DocIndexState core_account_System t
                 (data_stageId data) (data_attributes data)),
         st)
    | Some s =>
        let st := tx (TxUpdateDoc core_account_System core_class_IndexStageState
                        plugin_space_DocIndexState (st_id s) data) st in
        let '(t, st) := stage_now st in
        (result,
         Some (mkIndexStageState (st_id s) (st_class s) (st_space s)
                 (st_modifiedBy s) t
                 (data_stageId data) (data_attributes data)),
         st)
    end
  else (result, state, st).

End Indexer.

(** ** A store of stage records

    The collection of [IndexStageState] documents behind the adapter:
    [findAll] selects by [stageId], a create transaction appends a document,
    an update transaction overwrites the named fields of the documents with
    the given identifier.  Identifiers come from a supply. *)
Module StageStore.

Record Store : Type := mkStore {
  records : list IndexStageState;
  id_supply : list string;
  time : Z
}.

Definition by_stage (sid : string) (r : IndexStageState) : bool :=
  String.eqb (stageId r) sid.

Definition store_findAll (sid : string) (st : Store) : list IndexStageState :=
  List.filter (by_stage sid) (records st).

Definition apply_operations (account : string) (t : Z) (id : string)
    (ops : StageData) (r : IndexStageState) : IndexStageState :=
  if String.eqb (st_id r) id then
    mkIndexStageState (st_id r) (st_class r) (st_space r) account t
      (data_stageId ops) (data_attributes ops)
  else r.

Definition store_tx (t : Tx) (st : Store) : Store :=
  match t with
  | TxCreateDoc account cl sp data id =>
      mkStore
        (records st ++
           [mkIndexStageState id cl sp account (time st)
              (data_stageId data) (data_attributes data)])
        (id_supply st) (time st)
  | TxUpdateDoc account cl sp id ops =>
      mkStore (map (apply_operations account (time st) id ops) (records st))
        (id_supply st) (time st)
  end.

Definition store_generateId (st : Store) : string * Store :=
  match id_supply st with
  | [] => (EmptyString, st)
  | id :: rest => (id, mkStore (records st) rest (time st))
  end.

Definition store_now (st : Store) : Z * Store :=
  (time st, mkStore (records st) (id_supply st) (time st + 1)%Z).

Definition stage_store : StageStorage Store := {|
  findAll := store_findAll;
  tx := store_tx;
  generateId := store_generateId;
  stage_now := store_now
|}.

(** The record a lookup by [stageId] answers with. *)
Definition stored (sid : string) (st : Store) : option IndexStageState :=
  hd_error (List.filter (by_stage sid) (records st)).

(** The version a record carries; a record without one counts as 0. *)
Definition index_of (attrs : obj) : Z :=
  match Js.get attrs "index" with
  | VNum n => n
  | _ => 0%Z
  end.

Definition stored_index (sid : string) (st : Store) : Z :=
  match stored sid st with
  | Some r => index_of (attributes r)
  | None => 0%Z
  end.

End StageStore.

(** ** A single writer calling [loadIndexStageStage]

    The writer keeps, per stage, the state the last call on that stage
    returned, and on each call passes either that state or [undefined]. *)
Record StageCall : Type := mkStageCall {
  use_cached : bool;
  call_stage : string;
  call_field : string;
  call_value : value
}.

Definition Cache : Type := list (string * IndexStageState).

Fixpoint cached (sid : string) (cache : Cache) : option IndexStageState :=
  match cache with
  | [] => None
  | (s, state) :: cache' => if String.eqb sid s then Some state else cached sid cache'
  end.

Section Writer.

Variable core_class_IndexStageState : string.
Variable plugin_space_DocIndexState : string.
Variable core_account_System : string.

Definition writer_step (ws : Cache * StageStore.Store) (c : StageCall)
    : Cache * StageStore.Store :=
  let '(cache, st) := ws in
  let state := if use_cached c then cached (call_stage c) cache else None in
  let '(_, state', st') :=
    loadIndexStageStage (storage := StageStore.stage_store)
      core_class_IndexStageState plugin_space_DocIndexState core_account_System
      st state (call_stage c) (call_field c) (call_value c) in
  (match state' with
   | Some s => (call_stage c, s) :: cache
   | None => cache
   end, st').

Definition writer_run (calls : list StageCall) (ws : Cache * StageStore.Store)
    : Cache * StageStore.Store :=
  fold_left writer_step calls ws.

End Writer.

(** ** Full-text contexts over the class hierarchy *)

(** The fields of a [FullTextSearchContext] the utilities read. *)
Record FullTextSearchContext : Type := mkFullTextSearchContext {
  propagate : option (list string);
  propagateClasses : option (list string)
}.

(** A JavaScript [Set] of class references: distinct elements in insertion
    order. *)
Module RefSet.

Definition add (x : string) (s : list string) : list string :=
  if existsb (String.eqb x) s then s else s ++ [x].

Definition of_list (l : list string) : list string :=
  fold_left (fun s x => add x s) l [].

End RefSet.

Section FullText.

(** The hierarchy of the pipeline, and [getFullTextContext] applied to
    it. *)
Variable getDescendants : string -> list string.
Variable getAncestors : string -> list string.
Variable isMixin : string -> bool.
Variable getFullTextContext : string -> option FullTextSearchContext.

Section Visitor.

(** The visitor [op] acts on a state [A]. *)
Variable A : Type.
Variable op : FullTextSearchContext -> A -> A.

(** [if (ctx !== undefined) { op(ctx) }] *)
Definition visit (ctx : option FullTextSearchContext) (acc : A) : A :=
  match ctx with
  | Some c => op c acc
  | None => acc
  end.

(** The body of the loop over the ancestors, lines 154-165. *)
Definition ancestor_step (st : list string * A) (a : string) : list string * A :=
  let '(desc, acc) := st in
  let acc := visit (getFullTextContext a) acc in
  let desc :=
    fold_left (fun desc dd => if isMixin dd then RefSet.add dd desc else desc)
      (getDescendants a) desc in
  (desc, acc).

(** The body of the loop over [desc], lines 167-174. *)
Definition mixin_step (acc : A) (d : string) : A :=
  if isMixin d then visit (getFullTextContext d) acc else acc.

(** [traverseFullTextContexts], lines 140-176: the array returned and
    the visitor's state after the last call. *)
Definition traverseFullTextContexts (objectClass : string) (acc : A)
    : list string * A :=
  let desc := RefSet.of_list (getDescendants objectClass) in
  let propagate_ : list string := [] in
  let acc := visit (getFullTextContext objectClass) acc in
  let '(desc, acc) :=
    fold_left ancestor_step (getAncestors objectClass) (desc, acc) in
  let acc := fold_left mixin_step desc acc in
  (propagate_, acc).

(** The visitor applied to a list of contexts, in order. *)
Definition apply_all (l : list FullTextSearchContext) (acc : A) : A :=
  fold_left (fun acc c => op c acc) l acc.

End Visitor.

(** The declared context of a class, as a list of at most one visit. *)
Definition declared (c : string) : list FullTextSearchContext :=
  match getFullTextContext c with
  | Some ctx => [ctx]
  | None => []
  end.

(** The set [desc] once the loop over the ancestors has added to it. *)
Definition collected (objectClass : string) : list string :=
  fold_left
    (fun desc a =>
       fold_left (fun desc dd => if isMixin dd then RefSet.add dd desc else desc)
         (getDescendants a) desc)
    (getAncestors objectClass)
    (RefSet.of_list (getDescendants objectClass)).

(** The contexts [op] is called with, in call order. *)
Definition visits (objectClass : string) : list FullTextSearchContext :=
  snd (traverseFullTextContexts (list FullTextSearchContext)
         (fun c acc => acc ++ [c]) objectClass []).

(** [fts?.propagate?.forEach((it) => propagate.add(it))] *)
Definition add_all (l : option (list string)) (s : list string) : list string :=
  match l with
  | Some items => fold_left (fun s x => RefSet.add x s) items s
  | None => s
  end.

(** [collectPropagate], lines 181-186. *)
Definition collectPropagate (objectClass : string) : list string :=
  snd (traverseFullTextContexts (list string)
         (fun fts s => add_all (propagate fts) s) objectClass []).

(** [collectPropagateClasses], lines 191-196. *)
Definition collectPropagateClasses (objectClass : string) : list string :=
  snd (traverseFullTextContexts (list string)
         (fun fts s => add_all (propagateClasses fts) s) objectClass []).

End FullText.

(** ** Vocabulary of the statements *)

(** The state a call works from: the one passed in, else the first record
    the lookup finds. *)
Definition prior_state {S : Type} {storage : StageStorage S} (st : S)
    (state : option IndexStageState) (sid : string) : option IndexStageState :=
  match state with
  | Some s => Some s
  | None => hd_error (findAll sid st)
  end.

Definition prior_attributes (prior : option IndexStageState) : obj :=
  match prior with
  | Some s => attributes s
  | None => []
  end.

(** The version is a number when there is one. *)
Definition index_is_number (attrs : obj) : bool :=
  match Js.get attrs "index" with
  | VUndefined | VNull | VNum _ => true
  | _ => false
  end.

(** The storage after the one write of a call that found a difference. *)
Definition persisted {S : Type} {storage : StageStorage S}
    (account cl space : string) (st : S) (prior : option IndexStageState)
    (data : StageData) : string * S :=
  match prior with
  | None =>
      let '(id, st1) := generateId st in
      (id, snd (stage_now (tx (TxCreateDoc account cl space data id) st1)))
  | Some s =>
      (st_id s, snd (stage_now (tx (TxUpdateDoc account cl space (st_id s) data) st)))
  end.

(** Identifiers in the store and in the supply are pairwise distinct. *)
Definition store_ok (st : StageStore.Store) : Prop :=
  NoDup (map st_id (StageStore.records st) ++ StageStore.id_supply st).

(** What the writer remembers of a stage is what the store holds for it. *)
Definition coherent (cache : Cache) (st : StageStore.Store) : Prop :=
  forall sid s, cached sid cache = Some s ->
    exists r, StageStore.stored sid st = Some r /\
              st_id r = st_id s /\ attributes r = attributes s.

(** The attributes a lookup by [stageId] finds; none without a record. *)
Definition stored_attributes (sid : string) (st : StageStore.Store) : obj :=
  match StageStore.stored sid st with
  | Some r => attributes r
  | None => []
  end.




(** Events that reach the document store (clock readings and log output do
    not). *)
Definition is_store_event (e : Event) : bool :=
  match e with
  | EvNow _ | EvLog _ _ | EvConsoleError _ => false
  | _ => true
  end.

(** The [MigrationResult] built from the store's counts, or the store's
    fault passed on. *)
Definition counts_of (r : Result UpdateResult) : Result MigrationResult :=
  match r with
  | Ok c => Ok (mkMigrationResult (matchedCount c) (modifiedCount c))
  | Throw e => Throw e
  end.


(** A document is an object. *)
Definition is_document (d : value) : bool :=
  match d with VObj _ => true | _ => false end.

(** A document as [move] inserts it: without its freshness marker. *)
Definition without_marker (doc : value) : value :=
  match Js.in_op HASH doc with
  | Ok true => VObj (Js.delete (Js.own_enumerable doc) HASH)
  | _ => doc
  end.

(** An operator-document test of the kind the core package provides: a
    non-empty object all of whose keys begin with [$]. *)
Definition all_keys_dollar (v : value) : bool :=
  match v with
  | VObj (p :: o) => forallb (fun kv => String.prefix "$" (fst kv)) (p :: o)
  | _ => false
  end.

(** The write [bulk] prepares for one item: the item's whole update, with
    whatever keys it has, under a single [$set] next to the marker clear. *)
Definition bulk_write_for (it : MigrateClientImpl.BulkItem) (op : value) : Prop :=
  exists q set,
    translateQuery (MigrateClientImpl.filter it) = Ok q /\
    op = VObj [("updateOne",
                VObj [("filter", q); ("update", VObj [("$set", VObj set)])])] /\
    Js.lookup HASH set = Some VNull /\
    (forall k, k <> HASH ->
               Js.lookup k set =
               Js.lookup k (Js.own_enumerable (MigrateClientImpl.update_of it))).

Definition bulk_item_ok (it : MigrateClientImpl.BulkItem) : Prop :=
  NoDup (Js.keys (MigrateClientImpl.update_of it)) /\
  exists q, translateQuery (MigrateClientImpl.filter it) = Ok q.

(** What the store sees while the loop of [move] runs over [docs]. *)
Definition move_events (cursor : CursorId) (target : string) (docs : list value)
    : list Event :=
  flat_map (fun d => [EvNext cursor (Ok d);
                      EvInsertOne target (without_marker d) (Ok tt)]) docs.

(** The last answer of a pull says the cursor is exhausted. *)
Definition ends_exhausted (cursor : CursorId) (tr : list Event) : Prop :=
  exists tr0, tr = tr0 ++ [EvHasNext cursor (Ok false)] \/
              tr = tr0 ++ [EvNext cursor (Ok VNull)].

(** The documents a trace shows the cursor delivering, in order. *)
Fixpoint delivered (cursor : CursorId) (tr : list Event) : list value :=
  match tr with
  | [] => []
  | EvNext c (Ok d) :: tr' =>
      if Nat.eqb c cursor && Js.not_null d then d :: delivered cursor tr'
      else delivered cursor tr'
  | _ :: tr' => delivered cursor tr'
  end.

(** A cursor call that the store answered with a fault. *)
Definition is_fault (e : Event) : bool :=
  match e with
  | EvHasNext _ (Throw _) | EvNext _ (Throw _) => true
  | _ => false
  end.

(** What a pull that came back says about itself: an array holds the
    documents the cursor delivered, no call having faulted, the last of them
    pushed while the array was shorter than [size], and is shorter than
    [size] only when the cursor's last answer said it is exhausted; [null]
    comes after a fault of [cursor.next()], which is logged; an exception is
    the fault of a [cursor.hasNext()]. *)
Definition pull_outcome (cursor : CursorId) (size : Size)
    (r : Result (option (list value))) (tr : list Event) : Prop :=
  match r with
  | Ok (Some docs) =>
      docs = delivered cursor tr /\
      existsb is_fault tr = false /\
      (docs <> [] -> below (Nat.pred (List.length docs)) size = true) /\
      (below (List.length docs) size = true -> ends_exhausted cursor tr)
  | Ok None =>
      exists tr0 e,
        tr = tr0 ++ [EvNext cursor (Throw e); EvConsoleError e] /\
        existsb is_fault tr0 = false
  | Throw e =>
      exists tr0,
        tr = tr0 ++ [EvHasNext cursor (Throw e)] /\
        existsb is_fault tr0 = false
  end.

(** ** Sample data *)

Module Sample.

Definition query_like_and_equality : value :=
  VObj [("name", VObj [("$like", VStr "ab%c")]); ("status", VStr "open")].


Definition task (id status : string) : value :=
  VObj [("_id", VStr id); ("status", VStr status); (HASH, VStr "0f3a")].

(** A store with four tasks, three of them open, and an empty archive. *)
Definition store : MemStore.Mem :=
  MemStore.mkMem
    [("tasks", [task "t1" "open"; task "t2" "open"; task "t3" "done";
                task "t4" "open"]);
     ("archive", [])]
    [] 1000 1.

Definition mem : Db MemStore.Mem :=
  MemStore.mem_db filter_matches (fun _ docs => docs).

(** The same store with a cursor open on the three open tasks. *)
Definition store_with_cursor : MemStore.Mem :=
  MemStore.mkMem (MemStore.collections store)
    [[task "t1" "open"; task "t2" "open"; task "t4" "open"]] 1000 1.

Definition open_tasks : value := VObj [("status", VStr "open")].

Definition close_task : obj := [("status", VStr "closed")].

Definition unset_a : value := VObj [("$unset", VObj [("a", VNum 1)])].

Definition bulk_items : list MigrateClientImpl.BulkItem :=
  [MigrateClientImpl.mkBulkItem (VObj [("_id", VStr "t1")]) (VObj close_task);
   MigrateClientImpl.mkBulkItem (VObj [("_id", VStr "t2")]) unset_a].

(** A cursor that delivers three documents. *)
Definition three_documents : ScriptedStore.Script :=
  ScriptedStore.mkScript
    [Ok true; Ok true; Ok true; Ok false]
    [Ok (task "t1" "open"); Ok (task "t2" "open"); Ok (task "t4" "open")].

(** A cursor whose first [hasNext] faults. *)
Definition broken_at_hasNext : ScriptedStore.Script :=
  ScriptedStore.mkScript [Throw ScriptedStore.fault] [].

(** A cursor that delivers one document and whose [hasNext] then faults. *)
Definition broken_after_one : ScriptedStore.Script :=
  ScriptedStore.mkScript [Ok true; Throw ScriptedStore.fault]
    [Ok (task "t1" "open")].

(** A cursor whose first [next] faults. *)
Definition broken_at_next : ScriptedStore.Script :=
  ScriptedStore.mkScript [Ok true] [Throw ScriptedStore.fault].

(** A cursor that delivers one document and whose second [next] faults. *)
Definition broken_at_second_next : ScriptedStore.Script :=
  ScriptedStore.mkScript [Ok true; Ok true; Ok true]
    [Ok (task "t1" "open"); Throw ScriptedStore.fault; Ok (task "t2" "open")].

(** An empty stage store with three identifiers to hand out. *)
Definition stages : StageStore.Store :=
  StageStore.mkStore [] ["id-1"; "id-2"; "id-3"] 0.

(** The three calls of the specification's example. *)
Definition version_calls : list StageCall :=
  [mkStageCall false "stage-1" "version" (VNum 5);
   mkStageCall true "stage-1" "version" (VNum 5);
   mkStageCall true "stage-1" "version" (VNum 7)].

(** A hierarchy: [Issue] extends [Doc]; [Bug] extends [Issue]; the mixin
    [Tagged] is attached under [Doc]. *)
Definition descendants (c : string) : list string :=
  if String.eqb c "Doc" then ["Doc"; "Issue"; "Bug"; "Tagged"]
  else if String.eqb c "Issue" then ["Issue"; "Bug"]
  else [c].

Definition ancestors (c : string) : list string :=
  if String.eqb c "Bug" then ["Bug"; "Issue"; "Doc"]
  else if String.eqb c "Issue" then ["Issue"; "Doc"]
  else [c].

Definition mixin (c : string) : bool := String.eqb c "Tagged".

Definition context_of_tagged : FullTextSearchContext :=
  mkFullTextSearchContext (Some ["Tag"]) None.

Definition context_of_issue : FullTextSearchContext :=
  mkFullTextSearchContext (Some ["Project"]) (Some ["Comment"]).

Definition context (c : string) : option FullTextSearchContext :=
  if String.eqb c "Tagged" then Some context_of_tagged
  else if String.eqb c "Issue" then Some context_of_issue
  else None.

End Sample.

(** ** The other methods of [MigrateClientImpl]

    [find], [create], [delete] and [deleteMany] (upgrade.ts lines 48-68 and
    186-202) call three further operations of the store.  None of them
    loops, so a run always ends: with a value or an exception, a new world
    and the calls made. *)

Class DbCollection (W : Type) : Type := {
  db_toArray : CursorId -> W -> Result (list value) * W;
  db_insertMany : string -> list value -> W -> Result unit * W;
  db_deleteOne : string -> value -> W -> Result unit * W
}.

(** The calls of these methods: the ones [Event] names and the three
    further ones, each with its answer. *)
Inductive StoreCall : Type :=
| Recorded (e : Event)
| CallToArray (cursor : CursorId) (r : Result (list value))
| CallInsertMany (domain : string) (docs : list value) (r : Result unit)
| CallDeleteOne (domain : string) (filter : value) (r : Result unit).

Module Method.

Definition T (W A : Type) : Type := W -> Result A * W * list StoreCall.

Definition ret {W A : Type} (a : A) : T W A :=
  fun w => (Ok a, w, []).

Definition bind {W A B : Type} (m : T W A) (k : A -> T W B) : T W B :=
  fun w =>
    match m w with
    | (Throw e, w', tr) => (Throw e, w', tr)
    | (Ok a, w', tr) =>
        let '(r, w'', tr') := k a w' in (r, w'', tr ++ tr')
    end.

Definition lift {W A : Type} (r : Result A) : T W A :=
  fun w => (r, w, []).

Definition call {W A : Type} (f : W -> Result A * W)
    (ev : Result A -> StoreCall) : T W A :=
  fun w => let (r, w') := f w in (r, w', [ev r]).

Definition call_total {W A : Type} (f : W -> A * W) (ev : A -> StoreCall)
    : T W A :=
  fun w => let (a, w') := f w in (Ok a, w', [ev a]).

End Method.

Declare Scope method_scope.
Delimit Scope method_scope with method.
Notation "x <- m ;; k" := (Method.bind m (fun x => k))
  (at level 61, m at next level, right associativity) : method_scope.

Module MigrateClientMethods.
Section Client.

Context {W : Type} {db : Db W} {coll : DbCollection W}.

Local Open Scope method_scope.

Import Method.

(** [find], lines 48-68. *)
Definition find (domain : string) (query : value)
    (options : option FindOptions) : T W (list value) :=
  q <- lift (translateQuery query) ;;
  cursor <- call_total (db_find domain q)
              (fun c => Recorded (EvFind domain q c)) ;;
  cursor <- match options with
            | Some o =>
                match limit o with
                | Some n => call_total (db_limit cursor n)
                              (fun c => Recorded (EvLimit cursor n c))
                | None => ret cursor
                end
            | None => ret cursor
            end ;;
  cursor <- match options with
            | Some o =>
                match sort o with
                | Some s =>
                    let spec :=
                      map (fun kv =>
                             (fst kv,
                              match snd kv with
                              | Ascending => 1%Z
                              | Descending => (-1)%Z
                              end)) s in
                    call_total (db_sort cursor spec)
                      (fun c => Recorded (EvSort cursor spec c))
                | None => ret cursor
                end
            | None => ret cursor
            end ;;
  call (db_toArray cursor) (CallToArray cursor).

(** [create], lines 186-194. *)
Definition create (domain : string) (doc : value) : T W unit :=
  match doc with
  | VArr items =>
      if (0 <? Z.of_nat (List.length items))%Z
      then call (db_insertMany domain items) (CallInsertMany domain items)
      else ret tt
  | _ =>
      call (db_insertOne domain doc)
        (fun r => Recorded (EvInsertOne domain doc r))
  end.

(** [delete], lines 196-198. *)
Definition delete (domain : string) (_id : value) : T W unit :=
  call (db_deleteOne domain (VObj [("_id", _id)]))
    (CallDeleteOne domain (VObj [("_id", _id)])).

(** [deleteMany], lines 200-202. *)
Definition deleteMany (domain : string) (query : value) : T W unit :=
  call (db_deleteMany domain query)
    (fun r => Recorded (EvDeleteMany domain query r)).

End Client.
End MigrateClientMethods.

(** The in-memory store, for the three further operations: [toArray]
    delivers what the cursor has left, [insertMany] appends the documents in
    order, [deleteOne] removes the first document the filter selects. *)
Module MemCollection.

Import MemStore.

Fixpoint remove_first (p : value -> bool) (docs : list value) : list value :=
  match docs with
  | [] => []
  | d :: docs' => if p d then docs' else d :: remove_first p docs'
  end.

Section Semantics.

Variable matches : value -> value -> bool.

Definition mem_toArray (c : CursorId) (w : Mem) : Result (list value) * Mem :=
  match nth_error (cursors w) c with
  | Some docs => (Ok docs, with_cursors w (set_nth c [] (cursors w)))
  | None => (Throw (StoreIOError "no such cursor"), w)
  end.

Definition mem_insertMany (domain : string) (docs : list value) (w : Mem)
    : Result unit * Mem :=
  (Ok tt,
   with_collections w
     (set_collection domain (collection domain (collections w) ++ docs)
        (collections w))).

Definition mem_deleteOne (domain : string) (filter : value) (w : Mem)
    : Result unit * Mem :=
  (Ok tt,
   with_collections w
     (set_collection domain
        (remove_first (matches filter) (collection domain (collections w)))
        (collections w))).

Definition mem_collection : DbCollection Mem := {|
  db_toArray := mem_toArray;
  db_insertMany := mem_insertMany;
  db_deleteOne := mem_deleteOne
|}.

End Semantics.

End MemCollection.

(** [deleteMany] is the one call that removes documents. *)
Definition is_deleteMany (e : Event) : bool :=
  match e with
  | EvDeleteMany _ _ _ => true
  | _ => false
  end.

(** The documents [create] hands to the store. *)
Definition created (doc : value) : list value :=
  match doc with
  | VArr items => items
  | _ => [doc]
  end.

(** ** Member access through optional chains

    [v[k]], [v?.[k]], [v?.toString()] and [v ?? d] as the indexer utilities
    and the account service use them. *)
Module JsChain.

(** [v[k]] on a value that is neither [null] nor [undefined], for a key
    that names no member inherited from a prototype: an own property, an
    element, a character or [length]. *)
Definition read (v : value) (k : string) : value :=
  match v with
  | VObj o => Js.get o k
  | VArr l =>
      if String.eqb k "length" then VNum (Z.of_nat (List.length l))
      else Js.get (Js.indexed_from 0 l) k
  | VStr s =>
      if String.eqb k "length" then VNum (Z.of_nat (String.length s))
      else Js.get (Js.indexed_from 0 (Js.characters s)) k
  | _ => VUndefined
  end.

(** The members a plain object inherits from [Object.prototype]: functions,
    and the accessor [__proto__]. *)
Definition object_prototype_members : list string :=
  ["constructor"; "__defineGetter__"; "__defineSetter__"; "hasOwnProperty";
   "__lookupGetter__"; "__lookupSetter__"; "isPrototypeOf";
   "propertyIsEnumerable"; "toString"; "valueOf"; "__proto__";
   "toLocaleString"].

Definition inherited (k : string) : bool :=
  existsb (String.eqb k) object_prototype_members.

(** [o[k]] on a plain object, read through the prototype chain: the own
    property when there is one, and [undefined] for a key that names
    nothing.  A key that names an inherited member and no own property
    yields a function, or the prototype: these are no [value], and the read
    is [None]. *)
Definition member (o : obj) (k : string) : option value :=
  match Js.lookup k o with
  | Some v => Some v
  | None => if inherited k then None else Some VUndefined
  end.

(** [v?.[k]].  The read is followed on plain objects; an array, a string, a
    number or a boolean inherits the members of its own prototype, which
    this development does not list: [None]. *)
Definition optional_read (v : value) (k : string) : option value :=
  match v with
  | VUndefined | VNull => Some VUndefined
  | VObj o => member o k
  | _ => None
  end.

(** [v.toString] is the built-in of the prototype of [v]: no own property
    [toString] stands in its way, in [v] or, for an array, whose built-in
    converts the elements in turn, in an element. *)
Fixpoint builtin_toString (v : value) : bool :=
  match v with
  | VObj o => negb (Js.has o "toString")
  | VArr items => forallb builtin_toString items
  | _ => true
  end.

(** [v?.toString()].  Where an own property [toString] shadows the
    built-in, the call raises (the property holds no function); the text of
    that error depends on the engine and the compilation target, and the
    call is [None]. *)
Definition optional_toString (v : value) : option value :=
  match v with
  | VUndefined | VNull => Some VUndefined
  | _ => if builtin_toString v then Some (VStr (Js.to_string v)) else None
  end.

(** [v ?? d] *)
Definition nullish_or (v d : value) : value :=
  match v with
  | VUndefined | VNull => d
  | _ => v
  end.

End JsChain.

(** ** Indexed content of a document ([getContent], lines 44-63) *)

Module FullTextContent.

(** The fields of [AnyAttribute] that [getContent] reads. *)
Record AnyAttribute : Type := mkAnyAttribute {
  attributeOf : string;
  name : string
}.

(** [{ value, attr }] *)
Record Entry : Type := mkEntry {
  entry_value : value;
  entry_attr : AnyAttribute
}.

(** The record [attrs], keyed by string: its own properties in creation
    order. *)
Definition Entries : Type := list (string * Entry).

(** An own property created or overwritten. *)
Fixpoint put (attrs : Entries) (key : string) (entry : Entry) : Entries :=
  match attrs with
  | [] => [(key, entry)]
  | (k, e) :: attrs' =>
      if String.eqb key k then (k, entry) :: attrs'
      else (k, e) :: put attrs' key entry
  end.

(** [attrs[key] = entry] on the record, which was created as [{}].  Under
    the key [__proto__] the assignment reaches the setter of
    [Object.prototype], which makes the entry the prototype of the record:
    no property is created. *)
Definition assign_entry (attrs : Entries) (key : string) (entry : Entry)
    : Entries :=
  if String.eqb key "__proto__" then attrs else put attrs key entry.

(** The own property [attrs[key]], [None] without one. *)
Fixpoint entry (key : string) (attrs : Entries) : option Entry :=
  match attrs with
  | [] => None
  | (k, e) :: attrs' => if String.eqb key k then Some e else entry key attrs'
  end.

Section GetContent.

(** [hierarchy.isMixin] *)
Variable isMixin : string -> bool.

(** The body of the loop over the attributes; [None] where a read leaves
    the values this development holds (see [JsChain]). *)
Definition content_step (doc : obj) (attrs : Entries) (attr : AnyAttribute)
    : option Entries :=
  let isMixinAttr := isMixin (attributeOf attr) in
  if isMixinAttr then
    let key := (attributeOf attr ++ "." ++ name attr)%string in
    match JsChain.member doc (attributeOf attr) with
    | Some part =>
        match JsChain.optional_read part (name attr) with
        | Some field =>
            match JsChain.optional_toString field with
            | Some text =>
                let value := JsChain.nullish_or text (VStr EmptyString) in
                Some (assign_entry attrs key (mkEntry value attr))
            | None => None
            end
        | None => None
        end
    | None => None
    end
  else
    match JsChain.member doc (name attr) with
    | Some field =>
        match JsChain.optional_toString field with
        | Some text =>
            let value := JsChain.nullish_or text (VStr EmptyString) in
            Some (assign_entry attrs (name attr) (mkEntry value attr))
        | None => None
        end
    | None => None
    end.

Definition getContent (attributes : list AnyAttribute) (doc : obj)
    : option Entries :=
  fold_left
    (fun attrs attr =>
       match attrs with
       | Some attrs => content_step doc attrs attr
       | None => None
       end)
    attributes (Some []).

(** The key an attribute is filed under. *)
Definition content_key (attr : AnyAttribute) : string :=
  if isMixin (attributeOf attr)
  then (attributeOf attr ++ "." ++ name attr)%string
  else name attr.

(** The field of the document an attribute stands for: for an attribute of
    a mixin, the field of the mixin's part of the document. *)
Definition content_field (doc : obj) (attr : AnyAttribute) : option value :=
  if isMixin (attributeOf attr) then
    match JsChain.member doc (attributeOf attr) with
    | Some part => JsChain.optional_read part (name attr)
    | None => None
    end
  else JsChain.member doc (name attr).

End GetContent.

(** A field as text: nothing for a field that is absent or [null]. *)
Definition printed (v : value) : string :=
  match v with
  | VUndefined | VNull => EmptyString
  | _ => Js.to_string v
  end.

Section ContentText.

Variable isMixin : string -> bool.

(** The text of the field an attribute stands for, where the field can be
    read and printed. *)
Definition content_text (doc : obj) (attr : AnyAttribute) : option string :=
  match content_field isMixin doc attr with
  | Some field =>
      if JsChain.builtin_toString field then Some (printed field) else None
  | None => None
  end.

End ContentText.

End FullTextContent.

(** ** New index state documents ([createStateDoc], lines 68-82) *)

Section StateDoc.

Variable core_class_DocIndexState : string.
Variable plugin_space_DocIndexState : string.
Variable core_account_System : string.

(** [createStateDoc]; [now] is what [Date.now()] answers. *)
Definition createStateDoc (now : Z) (id objectClass : string) (data : obj)
    : obj :=
  Js.assign
    [("_class", VStr core_class_DocIndexState);
     ("_id", VStr id);
     ("space",
      JsChain.nullish_or (Js.get data "space") (VStr plugin_space_DocIndexState));
     ("objectClass", VStr objectClass);
     ("modifiedBy", VStr core_account_System);
     ("modifiedOn", VNum now)]
    data.

End StateDoc.

(** A value all of whose objects have pairwise distinct keys. *)
Fixpoint distinct (l : list string) : bool :=
  match l with
  | [] => true
  | k :: l' => negb (existsb (String.eqb k) l') && distinct l'
  end.

Fixpoint well_formed (v : value) : bool :=
  match v with
  | VArr items => forallb well_formed items
  | VObj props =>
      distinct (map fst props) &&
      forallb (fun kv => well_formed (snd kv)) props
  | _ => true
  end.

(** ** The account service ([serveAccount], pods/account/src/index.ts) *)

Module AccountService.

(** [s.slice(n)] for a natural [n]. *)
Fixpoint slice (n : nat) (s : string) : string :=
  match n, s with
  | O, _ => s
  | S n', String _ rest => slice n' rest
  | S _, EmptyString => EmptyString
  end.

(** [extractToken], lines 101-107, applied to the [authorization] header of
    the request: a string, or [None] when the request has none.  On a
    string [slice] does not raise, so the [catch] is not entered. *)
Definition extractToken (authorization : option string) : option string :=
  match authorization with
  | Some s => Some (slice 7 s)
  | None => None
  end.

Inductive Severity : Type := INFO | OK | WARNING | ERROR.

(** [new Status(severity, code, params)] *)
Record Status : Type := mkStatus {
  severity : Severity;
  code : string;
  params : obj
}.

(** What the handler assigns to [ctx.body]: the serialized error response
    [JSON.stringify({ id, error })], or the result of the method. *)
Inductive Body : Type :=
| Stringified (id : value) (error : Status)
| Returned (result : value).

Section Rpc.

(** The connected [MongoClient], the database handle [client.db(ACCOUNT_DB)]
    and the state the account methods work on. *)
Variable Client : Type.
Variable Database : Type.
Variable db_of : Client -> Database.
Variable W : Type.

(** [platform.status.UnknownMethod] *)
Variable platform_status_UnknownMethod : string.

(** An account method, for the measure context and the product the server
    was started with: [method(measureCtx, db, productId, request, token)]. *)
Definition AccountMethod : Type :=
  Database -> value -> option string -> W -> Result value * W.

(** The variable [client]: the promise [MongoClient.connect] returned, with
    the way it will settle, or the client it was replaced with. *)
Inductive ClientVar : Type :=
| Connecting (settles : Result Client)
| Connected (c : Client).

Record Server : Type := mkServer {
  ctx_body : option Body;
  client : ClientVar;
  world : W
}.

(** The handler of [POST /], lines 109-129.  [methods key] is
    [methods[key]], [None] standing for [undefined]. *)
Definition rpc (methods : string -> option AccountMethod)
    (authorization : option string) (request : value) (s : Server)
    : Result unit * Server :=
  let token := extractToken authorization in
  match request with
  | VUndefined | VNull =>
      (Throw (TypeError "Cannot read properties of undefined (reading 'method')"), s)
  | _ =>
      let method := methods (Js.to_string (JsChain.read request "method")) in
      let s :=
        match method with
        | None =>
            mkServer
              (Some (Stringified (JsChain.read request "id")
                       (mkStatus ERROR platform_status_UnknownMethod
                          [("method", JsChain.read request "method")])))
              (client s) (world s)
        | Some _ => s
        end in
      let connected :=
        match client s with
        | Connecting (Ok c) => Ok c
        | Connecting (Throw e) => Throw e
        | Connected c => Ok c
        end in
      match connected with
      | Throw e => (Throw e, s)
      | Ok c =>
          let s := mkServer (ctx_body s) (Connected c) (world s) in
          let db := db_of c in
          match method with
          | None => (Throw (TypeError "method is not a function"), s)
          | Some m =>
              match m db request token (world s) with
              | (Ok result, w) =>
                  (Ok tt, mkServer (Some (Returned result)) (client s) w)
              | (Throw e, w) =>
                  (Throw e, mkServer (ctx_body s) (client s) w)
              end
          end
      end
  end.

End Rpc.

Arguments Connecting {Client} settles.
Arguments Connected {Client} c.
Arguments mkServer {Client W} ctx_body client world.
Arguments ctx_body {Client W} s.
Arguments client {Client W} s.
Arguments world {Client W} s.
Arguments rpc {Client Database} db_of {W} platform_status_UnknownMethod
  methods authorization request s.

(** The metadata keys [serveAccount] sets. *)
Inductive Metadata : Type :=
| platform_metadata_locale
| account_metadata_ProductName
| account_metadata_SES_URL
| account_metadata_FrontURL
| serverToken_metadata_Secret
| toolPlugin_metadata_InitWorkspace
| toolPlugin_metadata_Endpoint
| toolPlugin_metadata_Transactor
| toolPlugin_metadata_UserAgent.

Definition Metadata_eqb (a b : Metadata) : bool :=
  match a, b with
  | platform_metadata_locale, platform_metadata_locale
  | account_metadata_ProductName, account_metadata_ProductName
  | account_metadata_SES_URL, account_metadata_SES_URL
  | account_metadata_FrontURL, account_metadata_FrontURL
  | serverToken_metadata_Secret, serverToken_metadata_Secret
  | toolPlugin_metadata_InitWorkspace, toolPlugin_metadata_InitWorkspace
  | toolPlugin_metadata_Endpoint, toolPlugin_metadata_Endpoint
  | toolPlugin_metadata_Transactor, toolPlugin_metadata_Transactor
  | toolPlugin_metadata_UserAgent, toolPlugin_metadata_UserAgent => true
  | _, _ => false
  end.

(** The metadata table of the platform: a value, possibly [undefined]
    ([None]), per key set. *)
Definition MetadataTable : Type := list (Metadata * option string).

(** [setMetadata(id, value)] *)
Fixpoint setMetadata (table : MetadataTable) (id : Metadata)
    (v : option string) : MetadataTable :=
  match table with
  | [] => [(id, v)]
  | (id', v') :: table' =>
      if Metadata_eqb id id' then (id', v) :: table'
      else (id', v') :: setMetadata table' id v
  end.

(** [getMetadata(id)]: the value set for the key, [None] when the key was
    not set or was set to [undefined]. *)
Fixpoint getMetadata (id : Metadata) (table : MetadataTable) : option string :=
  match table with
  | [] => None
  | (id', v) :: table' =>
      if Metadata_eqb id id' then v else getMetadata id table'
  end.

(** [process.env.NAME ?? fallback] *)
Definition env_or (v : option string) (fallback : string) : string :=
  match v with
  | Some s => s
  | None => fallback
  end.

Section Startup.

(** A port number, and [parseInt]. *)
Variable Port : Type.
Variable parseInt : string -> Port.

(** How the start of [serveAccount] ends: with [process.exit(code)] after a
    line on the console, or with the settings the server then runs with. *)
Inductive Startup : Type :=
| Exit (console : string) (code : Z)
| Serving (ACCOUNT_PORT : Port) (dbUri : string) (metadata : MetadataTable).

(** [serveAccount], lines 36-88: the environment is read and the metadata
    is set; [env] is [process.env]. *)
Definition serveAccount (env : string -> option string) : Startup :=
  let ACCOUNT_PORT := parseInt (env_or (env "ACCOUNT_PORT") "3000") in
  match env "MONGO_URL" with
  | None => Exit "Please provide mongodb url" 1
  | Some dbUri =>
      match env "TRANSACTOR_URL" with
      | None => Exit "Please provide transactor url" 1
      | Some transactorUri =>
          let endpointUri := env_or (env "ENDPOINT_URL") transactorUri in
          match env "SERVER_SECRET" with
          | None => Exit "Please provide server secret" 1
          | Some serverSecret =>
              let ses := env "SES_URL" in
              let frontURL := env "FRONT_URL" in
              let productName := env "PRODUCT_NAME" in
              let lang := env_or (env "LANGUAGE") "en" in
              let m := setMetadata [] platform_metadata_locale (Some lang) in
              let m := setMetadata m account_metadata_ProductName productName in
              let m := setMetadata m account_metadata_SES_URL ses in
              let m := setMetadata m account_metadata_FrontURL frontURL in
              let m := setMetadata m serverToken_metadata_Secret (Some serverSecret) in
              let initWS := env "INIT_WORKSPACE" in
              let m :=
                match initWS with
                | Some ws => setMetadata m toolPlugin_metadata_InitWorkspace (Some ws)
                | None => m
                end in
              let m := setMetadata m toolPlugin_metadata_Endpoint (Some endpointUri) in
              let m := setMetadata m toolPlugin_metadata_Transactor (Some transactorUri) in
              let m := setMetadata m toolPlugin_metadata_UserAgent (Some "AccountService") in
              Serving ACCOUNT_PORT dbUri m
          end
      end
  end.

End Startup.

Arguments Exit {Port} console code.
Arguments Serving {Port} ACCOUNT_PORT dbUri metadata.
Arguments serveAccount {Port} parseInt env.

End AccountService.

(** ** ProseMirror nodes from collaborative documents
    ([yDocContentToNode], [yDocToNode], [yDocContentToNodes]) *)

Module YDocNodes.
Section Conversion.

(** The types and operations of the libraries: a [Y.Doc], the JSON of a
    ProseMirror document, a node, a schema, a list of editor extensions and
    the binary content of a document. *)
Variable YDoc : Type.
Variable Json : Type.
Variable Node : Type.
Variable Schema : Type.
Variable Extensions : Type.
Variable Content : Type.

(** [new Doc()] followed by [applyUpdate(ydoc, new Uint8Array(content))] *)
Variable applyUpdate : Content -> Result YDoc.
(** [ydoc.share.keys()] *)
Variable share_keys : YDoc -> list string.
Variable yDocToProsemirrorJSON : YDoc -> option string -> Result Json.
Variable getSchema : Extensions -> Result Schema.
Variable defaultExtensions : Extensions.
(** [schema.nodeFromJSON(body)] *)
Variable nodeFromJSON : Schema -> Json -> Result Node.
(** [schema.node(schema.topNodeType)] *)
Variable top_node : Schema -> Result Node.

(** The outcome of a call with the errors it wrote with [console.error]. *)
Definition Logged (A : Type) : Type := Result A * list Err.

(** [schema ??= getSchema(extensions ?? defaultExtensions)] *)
Definition resolve (schema : option Schema) (extensions : option Extensions)
    : Result Schema :=
  match schema with
  | Some s => Ok s
  | None =>
      getSchema (match extensions with
                 | Some e => e
                 | None => defaultExtensions
                 end)
  end.

(** The two statements of the [try] blocks: the JSON of a field, then the
    node of that JSON. *)
Definition convert (schema : Schema) (ydoc : YDoc) (field : option string)
    : Result Node :=
  match yDocToProsemirrorJSON ydoc field with
  | Ok body => nodeFromJSON schema body
  | Throw e => Throw e
  end.

Definition yDocToNode (ydoc : YDoc) (field : option string)
    (schema : option Schema) (extensions : option Extensions) : Logged Node :=
  match resolve schema extensions with
  | Throw e => (Throw e, [])
  | Ok schema =>
      match convert schema ydoc field with
      | Ok node => (Ok node, [])
      | Throw err => (top_node schema, [err])
      end
  end.

Definition yDocContentToNode (content : Content) (field : option string)
    (schema : option Schema) (extensions : option Extensions) : Logged Node :=
  match applyUpdate content with
  | Throw e => (Throw e, [])
  | Ok ydoc => yDocToNode ydoc field schema extensions
  end.

(** The body of the loop over the shared types. *)
Definition push_node (schema : Schema) (ydoc : YDoc) (nodes : list Node)
    (field : string) : list Node :=
  match convert schema ydoc (Some field) with
  | Ok node => nodes ++ [node]
  | Throw _ => nodes
  end.

Definition yDocContentToNodes (content : Content) (schema : option Schema)
    (extensions : option Extensions) : Logged (list Node) :=
  match resolve schema extensions with
  | Throw e => (Throw e, [])
  | Ok schema =>
      match applyUpdate content with
      | Ok ydoc =>
          (Ok (fold_left (push_node schema ydoc) (share_keys ydoc) []), [])
      | Throw err => (Ok [], [err])
      end
  end.

End Conversion.
End YDocNodes.

(** ** Further sample data *)

Module Examples.

(** A query whose [$like] carries a number. *)
Definition query_like_number : value :=
  VObj [("name", VObj [("$like", VNum 5)])].

Definition mem_collection : DbCollection MemStore.Mem :=
  MemCollection.mem_collection filter_matches.

(** A cursor whose first [next] faults, for [move]. *)
Definition reading_fails : ScriptedStore.Script :=
  ScriptedStore.mkScript [] [Throw ScriptedStore.fault].

(** An account service with one method, [login], that counts its calls. *)
Definition methods (key : string)
    : option (AccountService.AccountMethod unit nat) :=
  if String.eqb key "login"
  then Some (fun _ request token calls =>
               (Ok (VObj [("token", match token with
                                    | Some t => VStr t
                                    | None => VNull
                                    end)]),
                Datatypes.S calls))
  else None.

Definition server : AccountService.Server unit nat :=
  AccountService.mkServer None (AccountService.Connecting (Ok tt)) 0%nat.

Definition environment (name : string) : option string :=
  if String.eqb name "MONGO_URL" then Some "mongodb://localhost:27017"
  else if String.eqb name "TRANSACTOR_URL" then Some "ws://localhost:3333"
  else if String.eqb name "SERVER_SECRET" then Some "secret"
  else if String.eqb name "ENDPOINT_URL" then Some EmptyString
  else None.

(** A stand-in for the document libraries: a document is the list of its
    fields with their text, the JSON of a field is its text, and a node can
    be built from any text but the empty one. *)
Definition decode (content : option (list (string * string)))
    : Result (list (string * string)) :=
  match content with
  | Some fields => Ok fields
  | None => Throw (TypeError "Unexpected end of array")
  end.

Definition field_names (ydoc : list (string * string)) : list string :=
  map fst ydoc.

Fixpoint text_of (field : string) (ydoc : list (string * string)) : string :=
  match ydoc with
  | [] => EmptyString
  | (f, t) :: ydoc' => if String.eqb field f then t else text_of field ydoc'
  end.

Definition json_of (ydoc : list (string * string)) (field : option string)
    : Result string :=
  Ok (text_of (match field with Some f => f | None => "prosemirror" end) ydoc).

Definition node_from (_ : unit) (body : string) : Result string :=
  match body with
  | EmptyString => Throw (TypeError "Invalid input for Fragment.fromJSON")
  | _ => Ok body
  end.

Definition schema_of (_ : unit) : Result unit := Ok tt.

Definition empty_doc (_ : unit) : Result string := Ok "doc".

Definition two_fields : option (list (string * string)) :=
  Some [("description", "Crash on start"); ("comment", EmptyString)].

End Examples.

(** The same call of the writer, made without the remembered state. *)
Definition without_state (c : StageCall) : StageCall :=
  mkStageCall false (call_stage c) (call_field c) (call_value c).

(** A document after [{ $set: { ...operations, '%hash%': null } }] has been
    applied to it. *)
Definition stamped (operations : obj) (doc : value) : value :=
  VObj (Js.assign (Js.own_enumerable doc) (Js.set operations HASH VNull)).

(** * Properties *)

(** ** Property lists *)

Lemma lookup_set_same (o : obj) (k : string) (v : value) :
  Js.lookup k (Js.set o k v) = Some v.
Proof.
  induction o as [|[k' v'] o IH]; simpl.
  - now rewrite String.eqb_refl.
  - destruct (String.eqb k k') eqn:E; simpl; rewrite E; auto.
Qed.

Lemma lookup_set_other (o : obj) (k k' : string) (v : value) :
  k' <> k -> Js.lookup k' (Js.set o k v) = Js.lookup k' o.
Proof.
  intros Hne. induction o as [|[k0 v0] o IH]; simpl.
  - apply String.eqb_neq in Hne. now rewrite Hne.
  - destruct (String.eqb k k0) eqn:E; simpl.
    + apply String.eqb_eq in E. subst k0.
      apply String.eqb_neq in Hne. now rewrite Hne.
    + now rewrite IH.
Qed.

Lemma set_fresh (o : obj) (k : string) (v : value) :
  ~ In k (map fst o) -> Js.set o k v = o ++ [(k, v)].
Proof.
  induction o as [|[k' v'] o IH]; simpl; intros Hn; auto.
  destruct (String.eqb k k') eqn:E.
  - apply String.eqb_eq in E. subst. tauto.
  - f_equal. apply IH. tauto.
Qed.

Lemma lookup_In (o : obj) (k : string) (v : value) :
  NoDup (map fst o) -> In (k, v) o -> Js.lookup k o = Some v.
Proof.
  induction o as [|[k' v'] o IH]; simpl; intros Hnd Hin; [tauto|].
  inversion Hnd as [|? ? Hnotin Hnd']; subst.
  destruct Hin as [Heq | Hin].
  - inversion Heq; subst. now rewrite String.eqb_refl.
  - destruct (String.eqb k k') eqn:E.
    + apply String.eqb_eq in E. subst.
      exfalso. apply Hnotin. now apply (in_map fst) in Hin.
    + auto.
Qed.

Lemma lookup_None_notin (o : obj) (k : string) :
  Js.lookup k o = None <-> ~ In k (map fst o).
Proof.
  induction o as [|[k' v'] o IH]; simpl; [tauto|].
  destruct (String.eqb k k') eqn:E.
  - apply String.eqb_eq in E. subst. split; [discriminate | tauto].
  - apply String.eqb_neq in E. rewrite IH. split; intros H.
    + intros [Heq | Hin]; [congruence | tauto].
    + tauto.
Qed.

(** ** The query translator *)

Lemma translate_loop_step (key : string) (v : value) (rest translated : obj)
    (chain : bool) :
  translate_loop ((key, v) :: rest) translated chain =
  match translate_value v with
  | Ok v' =>
      translate_loop rest (fst (store_field translated chain key v'))
        (snd (store_field translated chain key v'))
  | Throw e => Throw e
  end.
Proof.
  unfold translate_value, first_key. cbn [translate_loop].
  destruct (Js.not_null v && Js.typeof_object v);
    [|destruct (store_field translated chain key v); reflexivity].
  destruct (nth_error (Js.keys v) 0) as [k0|];
    [|destruct (store_field translated chain key v); reflexivity].
  destruct (String.eqb k0 "$like");
    [|destruct (store_field translated chain key v); reflexivity].
  destruct (Js.member v "$like"); try reflexivity.
  destruct (store_field translated chain key _); reflexivity.
Qed.

Lemma translate_value_well_typed (v : value) :
  like_is_string v = true -> translate_value v = Ok (translated_value v).
Proof.
  unfold translated_value, translate_value, like_is_string.
  destruct (Js.not_null v && Js.typeof_object v); [|reflexivity].
  destruct (first_key v) as [k0|]; [|reflexivity].
  destruct (String.eqb k0 "$like"); [|reflexivity].
  destruct (Js.member v "$like"); intros H; try discriminate; reflexivity.
Qed.

(** A field named [__proto__] leaves the properties as they are. *)
Lemma store_field_proto (translated : obj) (v : value) :
  fst (store_field translated true "__proto__" v) = translated.
Proof. unfold store_field. simpl. destruct v; reflexivity. Qed.

(** Any other field becomes a property. *)
Lemma store_field_other (translated : obj) (chain : bool) (key : string)
    (v : value) :
  key <> "__proto__" ->
  store_field translated chain key v = (Js.set translated key v, chain).
Proof.
  intros Hne. unfold store_field. apply String.eqb_neq in Hne. now rewrite Hne.
Qed.

Lemma translate_loop_well_typed (entries translated : obj) (chain : bool) :
  forallb (fun kv => like_is_string (snd kv)) entries = true ->
  NoDup (map fst translated ++ map fst entries) ->
  (chain = false -> ~ In "__proto__" (map fst entries)) ->
  translate_loop entries translated chain =
  Ok (translated ++
      map (fun kv => (fst kv, translated_value (snd kv))) (carried entries)).
Proof.
  revert translated chain.
  induction entries as [|[k v] entries IH]; intros translated chain Hwt Hnd Hch.
  - simpl. now rewrite app_nil_r.
  - simpl in Hwt. apply andb_true_iff in Hwt. destruct Hwt as [Hv Hwt].
    rewrite translate_loop_step, (translate_value_well_typed v Hv).
    simpl in Hnd.
    assert (Hrest : ~ In k (map fst entries)).
    { apply NoDup_remove_2 in Hnd. intros Hin. apply Hnd.
      apply in_or_app. now right. }
    assert (Hfresh : ~ In k (map fst translated)).
    { apply NoDup_remove_2 in Hnd. intros Hin. apply Hnd.
      apply in_or_app. now left. }
    assert (Hnd' : NoDup (map fst translated ++ map fst entries))
      by now apply NoDup_remove_1 in Hnd.
    destruct (string_dec k "__proto__") as [->|Hne].
    + destruct chain; [|exfalso; apply Hch; [reflexivity|now left]].
      rewrite store_field_proto. unfold carried. cbn [List.filter fst negb].
      cbn [String.eqb Ascii.eqb Bool.eqb negb]. fold (carried entries).
      apply IH; auto.
    + rewrite (store_field_other _ _ _ _ Hne). cbn [fst snd].
      rewrite (set_fresh translated k _ Hfresh).
      unfold carried. cbn [List.filter fst]. fold (carried entries).
      apply String.eqb_neq in Hne. rewrite Hne. cbn [negb map fst snd].
      rewrite IH; auto.
      * now rewrite <- app_assoc.
      * rewrite map_app, <- app_assoc. exact Hnd.
      * intros Hc Hin. apply (Hch Hc). now right.
Qed.


Lemma split_nonempty (sep : ascii) (s : string) :
  exists h t, Js.split sep s = h :: t.
Proof.
  destruct s as [|c s]; simpl; [eauto|].
  destruct (Ascii.eqb c sep); [eauto|].
  destruct (Js.split sep s); eauto.
Qed.

Lemma join_cons_char (sep : string) (c : ascii) (h : string) (t : list string) :
  Js.join sep (String c h :: t) = String c (Js.join sep (h :: t)).
Proof. destruct t; reflexivity. Qed.

(** [split] then [join] is the replacement the specification words. *)
Lemma join_split_percent (pattern : string) :
  Js.join ".*" (Js.split "%" pattern) = percent_to_any pattern.
Proof.
  induction pattern as [|c rest IH]; [reflexivity|].
  simpl. destruct (Ascii.eqb c "%") eqn:E.
  - destruct (split_nonempty "%" rest) as (h & t & Hs).
    rewrite Hs in *. cbn [Js.join]. simpl. now rewrite <- IH.
  - destruct (split_nonempty "%" rest) as (h & t & Hs).
    rewrite Hs in *. now rewrite join_cons_char, IH.
Qed.

Lemma like_regex_percent_to_any (pattern : string) :
  like_regex pattern = ("^" ++ percent_to_any pattern ++ "$")%string.
Proof. unfold like_regex. now rewrite join_split_percent. Qed.


Lemma translate_value_like (v : value) (pattern : string) :
  first_key v = Some "$like" -> Js.member v "$like" = VStr pattern ->
  translate_value v =
  Ok (VObj [("$regex", VStr ("^" ++ percent_to_any pattern ++ "$")%string);
            ("$options", VStr "i")]).
Proof.
  intros Hk Hm. unfold translate_value. rewrite Hk, Hm.
  rewrite like_regex_percent_to_any.
  destruct v; try discriminate Hm; reflexivity.
Qed.

Lemma translate_value_other (v : value) :
  first_key v <> Some "$like" -> translate_value v = Ok v.
Proof.
  intros Hk. unfold translate_value.
  destruct (Js.not_null v && Js.typeof_object v); [|reflexivity].
  destruct (first_key v) as [k0|]; [|reflexivity].
  destruct (String.eqb k0 "$like") eqn:E; [|reflexivity].
  apply String.eqb_eq in E. congruence.
Qed.


(** On a well-typed query the translator returns the query with every field
    value translated in place, less a field named [__proto__]. *)
Lemma translateQuery_well_typed (query : value) :
  NoDup (Js.keys query) -> query_well_typed query = true ->
  translateQuery query =
  Ok (VObj (map (fun kv => (fst kv, translated_value (snd kv)))
              (carried (Js.own_enumerable query)))).
Proof.
  intros Hnd Hwt. unfold translateQuery.
  rewrite translate_loop_well_typed; auto. discriminate.
Qed.

Lemma carried_keys (entries : obj) :
  NoDup (map fst entries) -> NoDup (map fst (carried entries)).
Proof.
  induction entries as [|[k v] entries IH]; intros Hnd; [constructor|].
  inversion Hnd as [|? ? Hnotin Hnd']; subst. unfold carried. cbn [List.filter fst].
  fold (carried entries). destruct (negb (String.eqb k "__proto__")); [|auto].
  cbn [map fst]. constructor; [|auto]. intros Hin. apply Hnotin.
  apply in_map_iff in Hin. destruct Hin as ([k' v'] & Hk & Hin). simpl in Hk.
  subst k'. apply filter_In in Hin. destruct Hin as [Hin _].
  apply (in_map fst) in Hin. exact Hin.
Qed.

Lemma lookup_translated (entries : obj) (key : string) (v : value) :
  NoDup (map fst entries) -> In (key, v) entries -> key <> "__proto__" ->
  Js.lookup key
    (map (fun kv => (fst kv, translated_value (snd kv))) (carried entries)) =
  Some (translated_value v).
Proof.
  intros Hnd Hin Hne. apply lookup_In.
  - rewrite map_map. simpl. now apply carried_keys.
  - apply (in_map (fun kv => (fst kv, translated_value (snd kv)))
             (carried entries) (key, v)).
    apply filter_In. split; [exact Hin|]. simpl.
    apply String.eqb_neq in Hne. now rewrite Hne.
Qed.

(** No property of the filter is named [__proto__]. *)
Lemma lookup_translated_proto (entries : obj) :
  Js.lookup "__proto__"
    (map (fun kv => (fst kv, translated_value (snd kv))) (carried entries)) =
  None.
Proof.
  apply lookup_None_notin. rewrite map_map. simpl. intros Hin.
  apply in_map_iff in Hin. destruct Hin as ([k v] & Hk & Hin). simpl in Hk.
  subst k. apply filter_In in Hin. destruct Hin as [_ Hin]. discriminate Hin.
Qed.

(** A first-key [$like] that does not carry a string makes the translator
    raise a [TypeError]. *)
Lemma translate_loop_ill_typed (entries translated : obj) (chain : bool) :
  forallb (fun kv => like_is_string (snd kv)) entries = false ->
  exists msg, translate_loop entries translated chain = Throw (TypeError msg).
Proof.
  revert translated chain.
  induction entries as [|[k v] entries IH]; intros translated chain Hwt;
    [discriminate|].
  rewrite translate_loop_step. simpl in Hwt.
  destruct (like_is_string v) eqn:Hv.
  - rewrite (translate_value_well_typed v Hv). apply IH. exact Hwt.
  - clear IH Hwt. unfold like_is_string in Hv. unfold translate_value.
    destruct (first_key v) as [k0|] eqn:Hk; [|discriminate].
    destruct (String.eqb k0 "$like") eqn:E; [|discriminate].
    assert (Hobj : Js.not_null v && Js.typeof_object v = true).
    { destruct v as [| | | |s| |]; try reflexivity; try discriminate Hk.
      destruct s; [discriminate Hk|]. inversion Hk; subst. discriminate E. }
    rewrite Hobj. destruct (Js.member v "$like"); try discriminate; simpl; eauto.
Qed.

Lemma translateQuery_ill_typed (query : value) :
  query_well_typed query = false ->
  exists msg, translateQuery query = Throw (TypeError msg).
Proof.
  intros Hwt. unfold translateQuery.
  destruct (translate_loop_ill_typed (Js.own_enumerable query) [] true Hwt)
    as [e He].
  rewrite He. eauto.
Qed.

Ltac distinct_keys :=
  repeat (apply NoDup_cons; [simpl; intuition discriminate|]); apply NoDup_nil.

(** C4, as amended.  On every query whose first-key [$like] operators carry
    strings the translator does not fail and returns a filter whose
    properties are the fields of the query, in the same order, less a field
    named [__proto__], which never becomes a property of the filter (the
    assignment reaches the prototype instead).  A field whose value has
    [$like] as its first key (the operator object [{$like: pattern}] in
    particular) is mapped to the regular expression [^...$] with option [i]
    in which each [%] of the pattern is replaced by [.*]; every other field
    value is passed through unmodified.  On a query that holds a first-key
    [$like] with a pattern that is not a string, the translator itself
    raises a [TypeError]. *)
Theorem translateQuery_like_spec (query : value) :
  NoDup (Js.keys query) ->
  (query_well_typed query = true ->
   exists translated,
     translateQuery query = Ok (VObj translated) /\
     map fst translated = map fst (carried (Js.own_enumerable query)) /\
     Js.lookup "__proto__" translated = None /\
     forall key v, In (key, v) (Js.own_enumerable query) ->
       key <> "__proto__" ->
       (forall pattern,
           first_key v = Some "$like" -> Js.member v "$like" = VStr pattern ->
           Js.lookup key translated =
           Some (VObj [("$regex", VStr ("^" ++ percent_to_any pattern ++ "$")%string);
                       ("$options", VStr "i")])) /\
       (first_key v <> Some "$like" -> Js.lookup key translated = Some v)) /\
  (query_well_typed query = false ->
   exists msg, translateQuery query = Throw (TypeError msg)).
Proof.
  intros Hnd. split; [|apply translateQuery_ill_typed].
  intros Hwt. eexists. split; [apply translateQuery_well_typed; auto|].
  split; [now rewrite map_map|]. split; [apply lookup_translated_proto|].
  intros key v Hin Hne. rewrite (lookup_translated _ key v Hnd Hin Hne).
  unfold translated_value. split.
  - intros pattern Hk Hm. now rewrite (translate_value_like v pattern Hk Hm).
  - intros Hk. now rewrite (translate_value_other v Hk).
Qed.

Lemma translateQuery_like_spec_witness :
  exists translated,
    translateQuery Sample.query_like_and_equality = Ok (VObj translated) /\
    map fst translated = ["name"; "status"] /\
    Js.lookup "__proto__" translated = None /\
    forall key v, In (key, v) (Js.own_enumerable Sample.query_like_and_equality) ->
      key <> "__proto__" ->
      (forall pattern,
          first_key v = Some "$like" -> Js.member v "$like" = VStr pattern ->
          Js.lookup key translated =
          Some (VObj [("$regex", VStr ("^" ++ percent_to_any pattern ++ "$")%string);
                      ("$options", VStr "i")])) /\
      (first_key v <> Some "$like" -> Js.lookup key translated = Some v).
Proof.
  apply (translateQuery_like_spec Sample.query_like_and_equality).
  - simpl. distinct_keys.
  - reflexivity.
Defined.

(** C4, as stated, fails: a [$like] operator that carries a number makes
    the translator itself raise a [TypeError]. *)
Lemma translateQuery_raises_on_non_string_like :
  translateQuery (VObj [("name", VObj [("$like", VNum 5)])]) =
  Throw (TypeError "pattern.split is not a function").
Proof. reflexivity. Qed.




(** ** The migration client *)

Section ClientProperties.

Context {W : Type} {db : Db W}.
Variable isOperator : value -> bool.

Import MigrateClientImpl.

Lemma update_timing_runs (t : Z) (domain : string) (query : value) (w : W) :
  exists w' tr,
    update_timing t domain query w = Some (Ok tt, w', tr) /\
    List.filter is_store_event tr = [].
Proof.
  unfold update_timing, bind, now, call_total, logger_log, emit, ret.
  destruct (date_now w) as [t1 w1].
  destruct (t1 - t >? 1000)%Z.
  - destruct (date_now w1) as [t2 w2]. destruct (date_now w2) as [t3 w3].
    eexists _, _. split; reflexivity.
  - eexists _, _. split; reflexivity.
Qed.

Lemma spread_distinct (o : obj) (acc : obj) :
  NoDup (map fst acc ++ map fst o) ->
  Js.assign acc o = acc ++ o.
Proof.
  revert acc. induction o as [|[k v] o IH]; intros acc Hnd; simpl.
  - now rewrite app_nil_r.
  - unfold Js.assign in *. simpl. rewrite set_fresh.
    + rewrite IH.
      * now rewrite <- app_assoc.
      * rewrite map_app, <- app_assoc. exact Hnd.
    + apply NoDup_remove_2 in Hnd. intros Hin. apply Hnd.
      apply in_or_app. now left.
Qed.

Lemma spread_object (o : obj) :
  NoDup (map fst o) -> Js.spread (VObj o) = o.
Proof. intros Hnd. unfold Js.spread. now rewrite spread_distinct. Qed.



Lemma finally_timing {A : Type} (body : M W A) (t : Z) (domain : string)
    (query : value) (w w1 : W) (r : Result A) (tr : list Event) :
  body w = Some (r, w1, tr) ->
  exists w' tr',
    try_finally body (update_timing t domain query) w = Some (r, w', tr ++ tr') /\
    List.filter is_store_event tr' = [].
Proof.
  intros Hb. unfold try_finally. rewrite Hb.
  destruct (update_timing_runs t domain query w1) as (w' & tr' & Ht & Hf).
  rewrite Ht. eauto.
Qed.



Lemma spread_distinct_value (v : value) :
  NoDup (Js.keys v) -> Js.spread v = Js.own_enumerable v.
Proof. intros Hnd. unfold Js.spread. now rewrite spread_distinct. Qed.

Lemma bulk_op_shape (it : BulkItem) :
  bulk_item_ok it -> exists op, bulk_op it = Ok op /\ bulk_write_for it op.
Proof.
  intros [Hnd [q Hq]]. unfold bulk_op. rewrite Hq. eexists. split; [reflexivity|].
  exists q. eexists. split; [exact Hq|]. split; [reflexivity|].
  rewrite (spread_distinct_value _ Hnd). split.
  - apply lookup_set_same.
  - intros k Hk. now apply lookup_set_other.
Qed.

Lemma bulk_ops_shape (items : list BulkItem) :
  Forall bulk_item_ok items ->
  exists ops, map_result bulk_op items = Ok ops /\ Forall2 bulk_write_for items ops.
Proof.
  induction 1 as [|it items Hit _ IH]; simpl.
  - exists []. split; [reflexivity | constructor].
  - destruct (bulk_op_shape it Hit) as (op & Hop & Hshape).
    destruct IH as (ops & Hops & Hall). rewrite Hop, Hops.
    exists (op :: ops). split; [reflexivity | now constructor].
Qed.

(** C6.  [bulk] sends the store exactly one [bulkWrite]; for every item,
    an operator document included, the write is the item's update spread
    into a single [$set] together with the marker clear, and the result is
    built from the counts the store answers with for the whole batch.  The
    shape of the write does not depend on whether the update is an operator
    document: [update] and [bulk] send different documents for
    [{$unset: {a: 1}}]. *)
Theorem bulk_spec :
  (forall (w : W) (domain : string) (items : list BulkItem),
      Forall bulk_item_ok items ->
      exists ops r w',
        bulk domain items w = Some (counts_of r, w', [EvBulkWrite domain ops r]) /\
        (r, w') = db_bulkWrite domain ops w /\
        Forall2 bulk_write_for items ops) /\
  (let operations := VObj [("$unset", VObj [("a", VNum 1)])] in
   all_keys_dollar operations = true /\
   clear_marker_in_set operations =
   Ok (VObj [("$unset", VObj [("a", VNum 1)]); ("$set", VObj [(HASH, VNull)])]) /\
   bulk_op (mkBulkItem (VObj []) operations) =
   Ok (VObj [("updateOne",
              VObj [("filter", VObj []);
                    ("update",
                     VObj [("$set",
                            VObj [("$unset", VObj [("a", VNum 1)]);
                                  (HASH, VNull)])])])])).
Proof.
  split; [|repeat split; reflexivity].
  intros w domain items Hok.
  destruct (bulk_ops_shape items Hok) as (ops & Hops & Hall).
  unfold bulk, bind, lift, bulkWrite, call, ret. rewrite Hops.
  destruct (db_bulkWrite domain ops w) as [r w'] eqn:E.
  exists ops, r, w'. split; [|split; [now rewrite E | exact Hall]].
  destruct r; reflexivity.
Qed.

Lemma ends_exhausted_app (cursor : CursorId) (pre tr : list Event) :
  ends_exhausted cursor tr -> ends_exhausted cursor (pre ++ tr).
Proof.
  intros [tr0 [H | H]]; exists (pre ++ tr0); rewrite H, app_assoc; auto.
Qed.

Lemma below_integer (n : nat) (size : Z) :
  below n (Ratio size 1) = (Z.of_nat n <? size)%Z.
Proof. unfold below. now rewrite Z.mul_1_r. Qed.

(** One turn of the loop of [next] whose condition holds. *)
Lemma next_loop_turn (fuel : nat) (cursor : CursorId) (size : Size)
    (docs : list value) (w : W) :
  below (List.length docs) size = true ->
  next_loop (S fuel) cursor size docs w =
  match db_hasNext cursor w with
  | (Throw e, w1) => Some (Throw e, w1, [EvHasNext cursor (Throw e)])
  | (Ok false, w1) => Some (Ok (Some docs), w1, [EvHasNext cursor (Ok false)])
  | (Ok true, w1) =>
      match db_next cursor w1 with
      | (Throw e, w2) =>
          Some (Ok None, w2,
                [EvHasNext cursor (Ok true); EvNext cursor (Throw e);
                 EvConsoleError e])
      | (Ok d, w2) =>
          if Js.not_null d then
            match next_loop fuel cursor size (docs ++ [d]) w2 with
            | Some (r, w3, tr) =>
                Some (r, w3, EvHasNext cursor (Ok true) :: EvNext cursor (Ok d) :: tr)
            | None => None
            end
          else
            Some (Ok (Some docs), w2,
                  [EvHasNext cursor (Ok true); EvNext cursor (Ok d)])
      end
  end.
Proof.
  intros Hlt. cbn [next_loop]. rewrite Hlt.
  unfold bind, try_catch, cursor_hasNext, cursor_next, call, ret,
    console_error, emit.
  destruct (db_hasNext cursor w) as [[[|]|e] w1]; try reflexivity.
  destruct (db_next cursor w1) as [[d|e] w2]; [|reflexivity].
  destruct (Js.not_null d); [|reflexivity].
  destruct (next_loop fuel cursor size (docs ++ [d]) w2) as [[[r w3] tr]|];
    reflexivity.
Qed.

(** The loop comes back when its fuel covers the turns [size] allows. *)
Lemma next_loop_returns (cursor : CursorId) (num : Z) (den : positive)
    (fuel : nat) :
  forall (docs : list value) (w : W),
    (num <= (Z.of_nat (List.length docs) + Z.of_nat fuel) * Z.pos den)%Z ->
    exists r w' tr, next_loop fuel cursor (Ratio num den) docs w = Some (r, w', tr).
Proof.
  induction fuel as [|fuel IH]; intros docs w Hfuel.
  - cbn [next_loop].
    destruct (below (List.length docs) (Ratio num den)) eqn:Hlt.
    + unfold below in Hlt. apply Z.ltb_lt in Hlt. lia.
    + eexists _, _, _. reflexivity.
  - destruct (below (List.length docs) (Ratio num den)) eqn:Hlt.
    + rewrite (next_loop_turn fuel cursor _ docs w Hlt).
      destruct (db_hasNext cursor w) as [[[|]|e] w1];
        try (eexists _, _, _; reflexivity).
      destruct (db_next cursor w1) as [[d|e] w2];
        [|eexists _, _, _; reflexivity].
      destruct (Js.not_null d); [|eexists _, _, _; reflexivity].
      destruct (IH (docs ++ [d]) w2) as (r & w3 & tr & Hrun).
      { rewrite length_app. simpl. lia. }
      rewrite Hrun. eexists _, _, _. reflexivity.
    + cbn [next_loop]. rewrite Hlt. eexists _, _, _. reflexivity.
Qed.

(** What the loop has done when it comes back, from any array [docs]. *)
Lemma next_loop_outcome (cursor : CursorId) (size : Size) (fuel : nat) :
  forall (docs : list value) (w w' : W) (r : Result (option (list value)))
         (tr : list Event),
    next_loop fuel cursor size docs w = Some (r, w', tr) ->
    match r with
    | Ok (Some out) =>
        out = docs ++ delivered cursor tr /\
        existsb is_fault tr = false /\
        (out <> docs -> below (Nat.pred (List.length out)) size = true) /\
        (below (List.length out) size = true -> ends_exhausted cursor tr)
    | Ok None =>
        exists tr0 e,
          tr = tr0 ++ [EvNext cursor (Throw e); EvConsoleError e] /\
          existsb is_fault tr0 = false
    | Throw e =>
        exists tr0,
          tr = tr0 ++ [EvHasNext cursor (Throw e)] /\
          existsb is_fault tr0 = false
    end.
Proof.
  assert (Hstop : forall docs w w' r tr,
             below (List.length docs) size = false ->
             (@ret W _ (Some docs)) w = Some (r, w', tr) ->
             match r with
             | Ok (Some out) =>
                 out = docs ++ delivered cursor tr /\
                 existsb is_fault tr = false /\
                 (out <> docs -> below (Nat.pred (List.length out)) size = true) /\
                 (below (List.length out) size = true -> ends_exhausted cursor tr)
             | Ok None =>
                 exists tr0 e,
                   tr = tr0 ++ [EvNext cursor (Throw e); EvConsoleError e] /\
                   existsb is_fault tr0 = false
             | Throw e =>
                 exists tr0,
                   tr = tr0 ++ [EvHasNext cursor (Throw e)] /\
                   existsb is_fault tr0 = false
             end).
  { intros docs w w' r tr Hlt Hrun. inversion Hrun; subst.
    rewrite app_nil_r. repeat split; auto; congruence. }
  induction fuel as [|fuel IH]; intros docs w w' r tr Hrun.
  - cbn [next_loop] in Hrun.
    destruct (below (List.length docs) size) eqn:Hlt; [discriminate Hrun|].
    eapply Hstop; eauto.
  - destruct (below (List.length docs) size) eqn:Hlt.
    + rewrite (next_loop_turn fuel cursor size docs w Hlt) in Hrun.
      destruct (db_hasNext cursor w) as [[[|]|e] w1].
      * destruct (db_next cursor w1) as [[d|e] w2].
        -- destruct (Js.not_null d) eqn:Hd.
           ++ destruct (next_loop fuel cursor size (docs ++ [d]) w2)
                as [[[r' w3] tr']|] eqn:Hloop; [|discriminate Hrun].
              inversion Hrun; subst. clear Hrun.
              specialize (IH _ _ _ _ _ Hloop).
              destruct r as [[out|]|e].
              ** destruct IH as (Hout & Hnf & Hlast & Hex).
                 cbn [delivered existsb is_fault orb].
                 rewrite Nat.eqb_refl, Hd. cbn [andb].
                 split; [now rewrite Hout, <- app_assoc|].
                 split; [exact Hnf|]. split.
                 --- intros _.
                     destruct (delivered cursor tr') as [|x rest] eqn:Hdel.
                     +++ rewrite Hout, app_nil_r, length_app. cbn [List.length].
                         rewrite Nat.add_1_r. exact Hlt.
                     +++ apply Hlast. rewrite Hout. intros Heq.
                         apply (f_equal (@List.length value)) in Heq.
                         rewrite !length_app in Heq. cbn [List.length] in Heq.
                         lia.
                 --- intros Hfew.
                     apply (ends_exhausted_app cursor
                              [EvHasNext cursor (Ok true); EvNext cursor (Ok d)]).
                     auto.
              ** destruct IH as (tr0 & e & -> & Hnf).
                 exists (EvHasNext cursor (Ok true) :: EvNext cursor (Ok d) :: tr0), e.
                 split; [reflexivity|exact Hnf].
              ** destruct IH as (tr0 & -> & Hnf).
                 exists (EvHasNext cursor (Ok true) :: EvNext cursor (Ok d) :: tr0).
                 split; [reflexivity|exact Hnf].
           ++ inversion Hrun; subst. clear Hrun.
              cbn [delivered]. rewrite Hd, andb_false_r. cbn [delivered].
              rewrite app_nil_r. split; [reflexivity|]. split; [reflexivity|].
              split; [congruence|].
              intros _. exists [EvHasNext cursor (Ok true)]. right.
              destruct d; try discriminate Hd. reflexivity.
        -- inversion Hrun; subst. exists [EvHasNext cursor (Ok true)], e.
           split; reflexivity.
      * inversion Hrun; subst. cbn [delivered]. rewrite app_nil_r.
        split; [reflexivity|]. split; [reflexivity|]. split; [congruence|].
        intros _. exists []. now left.
      * inversion Hrun; subst. exists []. split; reflexivity.
    + cbn [next_loop] in Hrun. rewrite Hlt in Hrun. eapply Hstop; eauto.
Qed.

Lemma next_sized_outcome (cursor : CursorId) (size : Size) (fuel : nat)
    (w w' : W) (r : Result (option (list value))) (tr : list Event) :
  next_sized fuel cursor size w = Some (r, w', tr) ->
  pull_outcome cursor size r tr.
Proof.
  intros Hrun. apply next_loop_outcome in Hrun. unfold pull_outcome.
  destruct r as [[docs|]|e]; exact Hrun.
Qed.

(** C7, as amended.  A call [next(n)] comes back whenever [n] is a finite
    number (with infinity it runs for as long as the cursor delivers).
    When it returns an array, the array holds the documents the cursor
    delivered, at most the least integer that is not below [n], and none
    when [n] is not positive or not a number: the last document was pushed
    while the array was shorter than [n].  So for an integer [n] there are
    at most [n], and for a fraction such as 2.5 there can be one more than
    [n].  The array is shorter than [n] only when the cursor's last answer
    said it is exhausted.  It is [null] instead of an array only after a
    fault of [cursor.next()], and the call raises only the fault of a
    [cursor.hasNext()]. *)
Theorem next_at_most_size (w : W) (cursor : CursorId) :
  (forall fuel size r w' tr,
      next_sized fuel cursor size w = Some (r, w', tr) ->
      pull_outcome cursor size r tr) /\
  (forall fuel num den,
      (num <= Z.of_nat fuel * Z.pos den)%Z ->
      exists r w' tr,
        next_sized fuel cursor (Ratio num den) w = Some (r, w', tr)) /\
  (forall fuel,
      next_sized fuel cursor MinusInfinity w = Some (Ok (Some []), w, []) /\
      next_sized fuel cursor NotANumber w = Some (Ok (Some []), w, [])) /\
  (forall n : Z,
      exists r w' tr,
        next cursor n w = Some (r, w', tr) /\
        pull_outcome cursor (Ratio n 1) r tr /\
        forall docs, r = Ok (Some docs) ->
                     (Z.of_nat (List.length docs) <= Z.max 0 n)%Z).
Proof.
  split; [|split; [|split]].
  - intros fuel size r w' tr. apply next_sized_outcome.
  - intros fuel num den Hfuel. unfold next_sized.
    apply next_loop_returns. simpl. lia.
  - intros fuel. unfold next_sized. destruct fuel; split; reflexivity.
  - intros n. unfold next.
    destruct (next_loop_returns cursor n 1 (Z.to_nat n) [] w)
      as (r & w' & tr & Hrun).
    { simpl. lia. }
    exists r, w', tr. split; [exact Hrun|].
    pose proof (next_sized_outcome _ _ _ _ _ _ _ Hrun) as Hout.
    split; [exact Hout|].
    intros docs ->. destruct Hout as (_ & _ & Hlast & _).
    destruct docs as [|d docs]; [simpl; lia|].
    specialize (Hlast ltac:(discriminate)).
    rewrite below_integer in Hlast. apply Z.ltb_lt in Hlast.
    cbn [List.length Nat.pred] in *. lia.
Qed.

(** A fault of [cursor.next()] is caught: the pull answers [null]. *)
Lemma next_fault_in_next (w w1 w2 : W) (cursor : CursorId) (size : Z) (e : Err) :
  (0 < size)%Z ->
  db_hasNext cursor w = (Ok true, w1) ->
  db_next cursor w1 = (Throw e, w2) ->
  next cursor size w =
  Some (Ok None, w2,
        [EvHasNext cursor (Ok true); EvNext cursor (Throw e); EvConsoleError e]).
Proof.
  intros Hsize Hh Hn. unfold next, next_sized.
  destruct (Z.to_nat size) as [|fuel] eqn:Hfuel; [lia|].
  rewrite next_loop_turn by (rewrite below_integer; apply Z.ltb_lt; simpl; lia).
  now rewrite Hh, Hn.
Qed.

(** A fault of [cursor.hasNext()] is not: the pull raises it. *)
Lemma next_fault_in_hasNext (w w1 : W) (cursor : CursorId) (size : Z) (e : Err) :
  (0 < size)%Z ->
  db_hasNext cursor w = (Throw e, w1) ->
  next cursor size w = Some (Throw e, w1, [EvHasNext cursor (Throw e)]).
Proof.
  intros Hsize Hh. unfold next, next_sized.
  destruct (Z.to_nat size) as [|fuel] eqn:Hfuel; [lia|].
  rewrite next_loop_turn by (rewrite below_integer; apply Z.ltb_lt; simpl; lia).
  now rewrite Hh.
Qed.

End ClientProperties.

(** ** [move] against the in-memory store *)

Section MoveProperties.

Import MemStore MigrateClientImpl.

Variable matches : value -> value -> bool.
Variable order : list (string * Z) -> list value -> list value.

Let mem : Db Mem := mem_db matches order.
Existing Instance mem.

Lemma collection_set_same (d : string) (docs : list value)
    (cs : list (string * list value)) :
  collection d (set_collection d docs cs) = docs.
Proof.
  induction cs as [|[d' old] cs IH]; simpl.
  - now rewrite String.eqb_refl.
  - destruct (String.eqb d d') eqn:E; simpl; now rewrite E.
Qed.

Lemma collection_set_other (d d' : string) (docs : list value)
    (cs : list (string * list value)) :
  d <> d' -> collection d (set_collection d' docs cs) = collection d cs.
Proof.
  intros Hne. induction cs as [|[d0 old] cs IH]; simpl.
  - apply String.eqb_neq in Hne. now rewrite Hne.
  - destruct (String.eqb d' d0) eqn:E; simpl.
    + apply String.eqb_eq in E. subst d0.
      apply String.eqb_neq in Hne. now rewrite Hne.
    + now rewrite IH.
Qed.

Lemma nth_error_set_nth {A : Type} (l : list A) (i : nat) (x y : A) :
  nth_error l i = Some y -> nth_error (set_nth i x l) i = Some x.
Proof.
  revert i. induction l as [|a l IH]; intros [|i]; simpl; try discriminate; auto.
Qed.

Lemma lookup_delete_same (o : obj) (k : string) :
  Js.lookup k (Js.delete o k) = None.
Proof.
  induction o as [|[k' v] o IH]; simpl; [reflexivity|].
  destruct (String.eqb k k') eqn:E; simpl; [exact IH | now rewrite E].
Qed.

Lemma without_marker_unmarked (d : value) :
  is_document d = true -> Js.in_op HASH (without_marker d) = Ok false.
Proof.
  destruct d as [| | | | | |o]; try discriminate. intros _.
  unfold without_marker. simpl. unfold Js.has.
  destruct (Js.lookup HASH o) eqn:E; simpl.
  - unfold Js.has. now rewrite lookup_delete_same.
  - unfold Js.has. now rewrite E.
Qed.

Lemma move_loop_mem (cursor : CursorId) (target : string) :
  forall (docs : list value) (fuel : nat) (w : Mem) (result : MigrationResult),
    nth_error (cursors w) cursor = Some docs ->
    forallb is_document docs = true ->
    (List.length docs < fuel)%nat ->
    exists w',
      move_loop fuel cursor target result w =
      Some (Ok (mkMigrationResult (matched result + Z.of_nat (List.length docs))
                  (updated result + Z.of_nat (List.length docs))),
            w',
            move_events cursor target docs ++ [EvNext cursor (Ok VNull)]) /\
      collection target (collections w') =
      collection target (collections w) ++ map without_marker docs /\
      (forall d, d <> target ->
                 collection d (collections w') = collection d (collections w)).
Proof.
  induction docs as [|d docs IH]; intros fuel w result Hcur Hdocs Hfuel;
    (destruct fuel as [|fuel]; [simpl in Hfuel; lia|]).
  - exists w. cbn [move_loop]. unfold bind, cursor_next, call. cbn [db_next mem mem_db].
    unfold mem_next. rewrite Hcur. simpl.
    rewrite !Z.add_0_r, app_nil_r. destruct result. auto.
  - simpl in Hdocs. apply andb_true_iff in Hdocs. destruct Hdocs as [Hd Hdocs].
    set (w1 := with_cursors w (set_nth cursor docs (cursors w))).
    set (w2 := with_collections w1
                 (set_collection target
                    (collection target (collections w1) ++ [without_marker d])
                    (collections w1))).
    destruct (IH fuel w2
                (mkMigrationResult (matched result + 1) (updated result + 1)))
      as (w' & Hrun & Htarget & Hother).
    { simpl. eapply nth_error_set_nth. exact Hcur. }
    { exact Hdocs. }
    { simpl in Hfuel. lia. }
    exists w'. split; [|split].
    + cbn [move_loop]. unfold bind at 1, cursor_next, call.
      cbn [db_next mem mem_db]. unfold mem_next. rewrite Hcur.
      fold w1. destruct d as [| | | | | |o]; try discriminate Hd.
      cbn [loosely_not_null]. unfold bind at 1, lift at 1.
      cbn [Js.in_op]. unfold bind at 1, insertOne, call.
      cbn [db_insertOne mem mem_db]. unfold mem_insertOne.
      assert (Hdoc : (if Js.has o HASH
                      then VObj (Js.delete (Js.own_enumerable (VObj o)) HASH)
                      else VObj o) = without_marker (VObj o)).
      { unfold without_marker. simpl. now destruct (Js.has o HASH). }
      rewrite Hdoc. fold w2. rewrite Hrun.
      cbn [matched updated move_events flat_map List.length app].
      replace (Z.of_nat (S (List.length docs)))
        with (1 + Z.of_nat (List.length docs))%Z by lia.
      rewrite !Z.add_assoc. reflexivity.
    + rewrite Htarget. unfold w2. simpl. rewrite collection_set_same.
      now rewrite <- app_assoc.
    + intros d0 Hne. rewrite (Hother d0 Hne). unfold w2. simpl.
      now apply collection_set_other.
Qed.

Lemma filter_none_left {A : Type} (f : A -> bool) (l : list A) :
  List.filter f (List.filter (fun x => negb (f x)) l) = [].
Proof.
  induction l as [|x l IH]; simpl; [reflexivity|].
  destruct (f x) eqn:E; simpl; [exact IH | now rewrite E].
Qed.

(** C5.  [move] logs, opens one cursor on the translated query, and then,
    for each document the cursor delivers, in order, inserts that document
    without its freshness marker into the target, counting it as matched
    and as updated; the one [deleteMany] on the same source query comes
    last, after the cursor has answered [null].  Afterwards no document of
    the source matches the query, and none of the inserted documents carries
    a marker. *)
Theorem move_spec (w : Mem) (source target : string) (query q : value)
    (fuel : nat) :
  let docs := List.filter (matches q) (collection source (collections w)) in
  let cursor := List.length (cursors w) in
  translateQuery query = Ok q ->
  forallb is_document docs = true ->
  (List.length docs < fuel)%nat ->
  exists w',
    move fuel source query target w =
    Some (Ok (mkMigrationResult (Z.of_nat (List.length docs))
                (Z.of_nat (List.length docs))),
          w',
          EvLog "move" (VObj [("sourceDomain", VStr source); ("query", query)])
            :: EvFind source q cursor
            :: move_events cursor target docs
            ++ [EvNext cursor (Ok VNull); EvDeleteMany source q (Ok tt)]) /\
    List.filter (matches q) (collection source (collections w')) = [] /\
    Forall (fun d => Js.in_op HASH (without_marker d) = Ok false) docs /\
    (source <> target ->
     collection target (collections w') =
     collection target (collections w) ++ map without_marker docs).
Proof.
  intros docs cursor Hq Hdocs Hfuel.
  set (w1 := with_cursors w (cursors w ++ [docs])).
  destruct (move_loop_mem cursor target docs fuel w1 (mkMigrationResult 0 0))
    as (w2 & Hrun & Htarget & Hother); auto.
  { unfold w1, cursor. simpl. rewrite nth_error_app2, Nat.sub_diag; auto. }
  eexists. split; [|split; [|split]].
  - unfold move, bind at 1, logger_log, emit. unfold bind at 1, lift at 1.
    rewrite Hq. unfold bind at 1, find_cursor, call_total.
    cbn [db_find mem mem_db]. unfold mem_find. fold docs. fold cursor. fold w1.
    unfold bind at 1. rewrite Hrun.
    unfold bind, deleteMany, call, ret. cbn [db_deleteMany mem mem_db].
    unfold mem_deleteMany. simpl. rewrite <- app_assoc. reflexivity.
  - simpl. rewrite collection_set_same. apply filter_none_left.
  - apply Forall_forall. intros d Hd. apply without_marker_unmarked.
    rewrite forallb_forall in Hdocs. auto.
  - intros Hne. simpl. rewrite collection_set_other by congruence.
    rewrite Htarget. reflexivity.
Qed.

End MoveProperties.

(** ** Stage state *)

Section IndexerProperties.

Variable core_class_IndexStageState : string.
Variable plugin_space_DocIndexState : string.
Variable core_account_System : string.

Context {S : Type} {storage : StageStorage S}.

Let load := loadIndexStageStage (storage := storage) core_class_IndexStageState
              plugin_space_DocIndexState core_account_System.

Lemma load_unchanged (st : S) (state : option IndexStageState)
    (sid field : string) (newValue : value) :
  let prior := prior_state st state sid in
  let attrs := prior_attributes prior in
  deepEqual (Js.get attrs field) newValue = true ->
  load st state sid field newValue =
  (if Js.not_undefined (Js.get attrs "index")
   then VStr (Js.to_string (Js.get attrs "index"))
   else VBool true,
   prior, st).
Proof.
  intros prior attrs Heq. unfold load, loadIndexStageStage.
  fold (prior_state st state sid). fold prior.
  fold (prior_attributes prior). fold attrs.
  rewrite Heq. reflexivity.
Qed.

(** The call that finds a difference, whatever the stored version and the
    field are. *)
Lemma load_changed_any (st : S) (state : option IndexStageState)
    (sid field : string) (newValue : value) :
  let prior := prior_state st state sid in
  let attrs := prior_attributes prior in
  deepEqual (Js.get attrs field) newValue = false ->
  let newIndex := Js.nullish_zero_plus_one (Js.get attrs "index") in
  let data := mkStageData sid (Js.set [(field, newValue)] "index" newIndex) in
  exists state',
    load st state sid field newValue =
    (VStr (Js.to_string newIndex), Some state',
     snd (persisted core_account_System core_class_IndexStageState
            plugin_space_DocIndexState st prior data)) /\
    st_id state' =
    fst (persisted core_account_System core_class_IndexStageState
           plugin_space_DocIndexState st prior data) /\
    stageId state' = sid /\
    attributes state' = data_attributes data.
Proof.
  intros prior attrs Hne newIndex data.
  unfold load, loadIndexStageStage.
  fold (prior_state st state sid). fold prior.
  fold (prior_attributes prior). fold attrs.
  rewrite Hne. cbn [negb]. fold newIndex. fold data. unfold persisted.
  destruct prior as [s|].
  - destruct (stage_now _) as [t st'] eqn:Et. eexists. simpl.
    repeat split; reflexivity.
  - destruct (generateId st) as [id st1]. destruct (stage_now _) as [t st'] eqn:Et.
    eexists. simpl. repeat split; reflexivity.
Qed.

End IndexerProperties.

(** ** Rounding to a double *)

Section DoubleProperties.

Local Open Scope Z_scope.












End DoubleProperties.

(** ** The stored version under a single writer *)

Section WriterProperties.

Import StageStore.

Variable core_class_IndexStageState : string.
Variable plugin_space_DocIndexState : string.
Variable core_account_System : string.

Let step := writer_step core_class_IndexStageState plugin_space_DocIndexState
              core_account_System.
Let run := writer_run core_class_IndexStageState plugin_space_DocIndexState
             core_account_System.

Lemma hd_filter_split {A : Type} (p : A -> bool) (l : list A) (r : A) :
  hd_error (List.filter p l) = Some r ->
  exists l1 l2, l = l1 ++ r :: l2 /\ List.filter p l1 = [] /\ p r = true.
Proof.
  induction l as [|x l IH]; simpl; [discriminate|].
  destruct (p x) eqn:E; simpl.
  - intros H. inversion H; subst. exists [], l. auto.
  - intros H. destruct (IH H) as (l1 & l2 & -> & Hl1 & Hr).
    exists (x :: l1), l2. simpl. rewrite E. auto.
Qed.

Lemma map_apply_elsewhere (account : string) (t : Z) (id : string)
    (ops : StageData) (l : list IndexStageState) :
  ~ In id (map st_id l) ->
  map (apply_operations account t id ops) l = l.
Proof.
  induction l as [|x l IH]; simpl; intros Hn; [reflexivity|].
  unfold apply_operations at 1.
  destruct (String.eqb (st_id x) id) eqn:E.
  - apply String.eqb_eq in E. tauto.
  - f_equal. apply IH. tauto.
Qed.

Lemma map_apply_unique (account : string) (t : Z) (ops : StageData)
    (l1 l2 : list IndexStageState) (r : IndexStageState) :
  NoDup (map st_id (l1 ++ r :: l2)) ->
  map (apply_operations account t (st_id r) ops) (l1 ++ r :: l2) =
  l1 ++ mkIndexStageState (st_id r) (st_class r) (st_space r) account t
          (data_stageId ops) (data_attributes ops) :: l2.
Proof.
  intros Hnd. rewrite map_app in Hnd. simpl in Hnd.
  pose proof (NoDup_remove_2 _ _ _ Hnd) as Hnot.
  rewrite map_app. simpl. unfold apply_operations at 2.
  rewrite String.eqb_refl.
  rewrite !map_apply_elsewhere; auto.
  - intros Hin. apply Hnot. apply in_or_app. now right.
  - intros Hin. apply Hnot. apply in_or_app. now left.
Qed.



Lemma stored_after_append (sid sid' : string) (l : list IndexStageState)
    (new : IndexStageState) :
  List.filter (by_stage sid) l = [] -> stageId new = sid ->
  hd_error (List.filter (by_stage sid') (l ++ [new])) =
  if String.eqb sid' sid then Some new
  else hd_error (List.filter (by_stage sid') l).
Proof.
  intros Hnone Hnew.
  assert (Hb : by_stage sid' new = String.eqb sid' sid).
  { unfold by_stage. now rewrite Hnew, String.eqb_sym. }
  rewrite filter_app. cbn [List.filter]. rewrite Hb.
  destruct (String.eqb sid' sid) eqn:E.
  - apply String.eqb_eq in E. subst sid'. rewrite Hnone. reflexivity.
  - now rewrite app_nil_r.
Qed.

Lemma stored_after_update (sid sid' : string) (l1 l2 : list IndexStageState)
    (r r' : IndexStageState) :
  List.filter (by_stage sid) l1 = [] -> stageId r = sid -> stageId r' = sid ->
  hd_error (List.filter (by_stage sid') (l1 ++ r' :: l2)) =
  if String.eqb sid' sid then Some r'
  else hd_error (List.filter (by_stage sid') (l1 ++ r :: l2)).
Proof.
  intros Hnone Hr Hr'.
  assert (Hb : forall x, stageId x = sid -> by_stage sid' x = String.eqb sid sid').
  { intros x Hx. unfold by_stage. now rewrite Hx. }
  rewrite !filter_app. cbn [List.filter]. rewrite (Hb r Hr), (Hb r' Hr').
  rewrite (String.eqb_sym sid sid'). destruct (String.eqb sid' sid) eqn:E.
  - apply String.eqb_eq in E. subst sid'. rewrite Hnone. reflexivity.
  - reflexivity.
Qed.

Lemma cached_cons (sid sid0 : string) (s : IndexStageState) (cache : Cache) :
  cached sid0 ((sid, s) :: cache) =
  if String.eqb sid0 sid then Some s else cached sid0 cache.
Proof. reflexivity. Qed.

(** The state a call of the writer works from is the stored record, or a
    remembered copy of it. *)
Lemma writer_prior (cache : Cache) (st : Store) (c : StageCall) :
  coherent cache st ->
  let prior :=
    prior_state (storage := stage_store) st
      (if use_cached c then cached (call_stage c) cache else None)
      (call_stage c) in
  (prior = None /\ stored (call_stage c) st = None) \/
  (exists p r, prior = Some p /\ stored (call_stage c) st = Some r /\
               st_id r = st_id p /\ attributes r = attributes p).
Proof.
  intros Hco prior. unfold prior, prior_state.
  assert (Hlookup :
    (hd_error (findAll (StageStorage := stage_store) (call_stage c) st) = None /\
     stored (call_stage c) st = None) \/
    (exists p r,
        hd_error (findAll (StageStorage := stage_store) (call_stage c) st) = Some p /\
        stored (call_stage c) st = Some r /\
        st_id r = st_id p /\ attributes r = attributes p)).
  { change (hd_error (findAll (StageStorage := stage_store) (call_stage c) st))
      with (stored (call_stage c) st).
    destruct (stored (call_stage c) st) as [r|]; [right | left; auto].
    exists r, r. auto. }
  destruct (use_cached c); [|exact Hlookup].
  destruct (cached (call_stage c) cache) as [s|] eqn:Ec; [|exact Hlookup].
  right. destruct (Hco _ _ Ec) as (r & Hr & Hid & Hattr). exists s, r. auto.
Qed.

Lemma stored_index_unfold (sid : string) (st : Store) :
  stored_index sid st =
  match hd_error (List.filter (by_stage sid) (records st)) with
  | Some r => index_of (attributes r)
  | None => 0%Z
  end.
Proof. reflexivity. Qed.

(** One call of the writer keeps the store in order and what the writer
    remembers coherent, takes at most one identifier, and leaves the
    attributes found for a stage as they were or replaces them by one field
    and the successor of their version. *)
Lemma writer_step_invariant (cache : Cache) (st : Store) (c : StageCall) :
  store_ok st -> coherent cache st -> id_supply st <> [] ->
  let ws := step (cache, st) c in
  store_ok (snd ws) /\ coherent (fst ws) (snd ws) /\
  (List.length (id_supply st) <= S (List.length (id_supply (snd ws))))%nat /\
  forall sid,
    stored_attributes sid (snd ws) = stored_attributes sid st \/
    exists field v,
      stored_attributes sid (snd ws) =
      Js.set [(field, v)] "index"
        (Js.nullish_zero_plus_one (Js.get (stored_attributes sid st) "index")).
Proof.
  intros Hok Hco Hsupply.
  pose proof (writer_prior cache st c Hco) as Hprior. cbv zeta in Hprior.
  unfold step, writer_step.
  set (state := if use_cached c then cached (call_stage c) cache else None) in *.
  set (sid := call_stage c) in *.
  set (prior := prior_state (storage := stage_store) st state sid) in *.
  destruct (deepEqual (Js.get (prior_attributes prior) (call_field c)) (call_value c))
    eqn:Heq.
  - (* unchanged: nothing is written *)
    pose proof (load_unchanged core_class_IndexStageState
                  plugin_space_DocIndexState core_account_System
                  (storage := stage_store) st state sid (call_field c)
                  (call_value c) Heq) as Hload.
    cbv zeta in Hload. fold prior in Hload. rewrite Hload. cbn [fst snd].
    split; [exact Hok|]. split; [|split; [lia | intros; left; reflexivity]].
    destruct Hprior as [[Hp _] | (p & r & Hp & Hr & Hid & Hattr)]; rewrite Hp.
    + exact Hco.
    + intros sid0 s0. rewrite cached_cons.
      destruct (String.eqb sid0 sid) eqn:E; [|apply Hco].
      apply String.eqb_eq in E. subst sid0. intros H. inversion H; subst.
      exists r. auto.
  - (* changed: one record is created or updated *)
    destruct (load_changed_any core_class_IndexStageState
                plugin_space_DocIndexState core_account_System
                (storage := stage_store) st state sid (call_field c)
                (call_value c) Heq) as (state' & Hload & Hid' & Hsid' & Hattr').
    cbv zeta in Hload, Hid', Hattr'. fold prior in Hload, Hid', Hattr'.
    rewrite Hload. cbn [fst snd]. clear Hload.
    cbn [data_attributes] in Hattr'.
    destruct Hprior as [[Hp Hr] | (p & r & Hp & Hr & Hid & Hattr)];
      rewrite Hp in *; cbn [persisted prior_attributes] in *;
      match type of Hattr' with _ = ?a => set (attrs' := a) in * end.
    + (* created *)
      destruct (id_supply st) as [|id rest] eqn:Hs; [congruence|].
      cbn [generateId stage_store store_generateId] in *.
      unfold store_generateId in *. rewrite Hs in *.
      cbn [fst snd tx stage_now stage_store store_tx store_now records
             id_supply time data_stageId data_attributes] in *.
      assert (Hnone : List.filter (by_stage sid) (records st) = []).
      { unfold stored in Hr. destruct (List.filter (by_stage sid) (records st));
          [reflexivity | discriminate]. }
      split; [|split; [|split]].
      * unfold store_ok in *. cbn [records id_supply]. rewrite Hs in Hok.
        rewrite map_app. simpl. rewrite <- app_assoc. exact Hok.
      * intros sid0 s0. rewrite cached_cons. unfold stored. cbn [records].
        erewrite stored_after_append; [|exact Hnone|reflexivity].
        destruct (String.eqb sid0 sid) eqn:E.
        -- intros H. inversion H; subst. eexists. split; [reflexivity|].
           cbn [st_id attributes]. auto.
        -- apply Hco.
      * simpl. lia.
      * intros sid0. unfold stored_attributes, stored. cbn [records].
        erewrite stored_after_append; [|exact Hnone|reflexivity].
        destruct (String.eqb sid0 sid) eqn:E; [|left; reflexivity].
        apply String.eqb_eq in E. subst sid0. rewrite Hnone.
        cbn [hd_error attributes]. right.
        exists (call_field c), (call_value c). reflexivity.
    + (* updated *)
      cbn [fst snd tx stage_now stage_store store_tx store_now records
             id_supply time data_stageId data_attributes] in *.
      unfold stored in Hr.
      destruct (hd_filter_split _ _ _ Hr) as (l1 & l2 & Hrec & Hl1 & Hstage).
      unfold by_stage in Hstage. apply String.eqb_eq in Hstage.
      assert (Hnd : NoDup (map st_id (l1 ++ r :: l2))).
      { unfold store_ok in Hok. rewrite Hrec in Hok.
        eapply NoDup_app_remove_r. exact Hok. }
      rewrite <- Hid, Hrec, map_apply_unique by exact Hnd.
      cbn [data_stageId data_attributes].
      set (r' := mkIndexStageState (st_id r) (st_class r) (st_space r)
                   core_account_System (time st) sid attrs').
      split; [|split; [|split]].
      * unfold store_ok in *. cbn [records id_supply]. rewrite Hrec in Hok.
        rewrite map_app in *. exact Hok.
      * intros sid0 s0. rewrite cached_cons. unfold stored. cbn [records].
        rewrite (stored_after_update sid sid0 l1 l2 r r' Hl1 Hstage eq_refl).
        destruct (String.eqb sid0 sid) eqn:E.
        -- intros H. inversion H; subst. exists r'. split; [reflexivity|].
           cbn [st_id attributes]. rewrite Hid', Hattr'. auto.
        -- intros H. destruct (Hco _ _ H) as (r0 & Hr0 & Hrest).
           exists r0. split; [|exact Hrest].
           unfold stored in Hr0. now rewrite Hrec in Hr0.
      * simpl. lia.
      * intros sid0. unfold stored_attributes, stored. cbn [records].
        rewrite (stored_after_update sid sid0 l1 l2 r r' Hl1 Hstage eq_refl).
        destruct (String.eqb sid0 sid) eqn:E; [|left; now rewrite Hrec].
        apply String.eqb_eq in E. subst sid0. rewrite Hrec.
        rewrite filter_app, Hl1. cbn [List.filter app].
        assert (Hb : by_stage sid r = true).
        { unfold by_stage. rewrite Hstage. apply String.eqb_refl. }
        rewrite Hb. cbn [hd_error attributes]. right.
        exists (call_field c), (call_value c).
        unfold r', attrs'. cbn [attributes]. now rewrite Hattr.
Qed.





End WriterProperties.



(** ** Full-text contexts *)

Lemma add_In (x y : string) (s : list string) :
  In x (RefSet.add y s) <-> x = y \/ In x s.
Proof.
  unfold RefSet.add. destruct (existsb (String.eqb y) s) eqn:E.
  - split; [tauto|]. intros [-> | H]; [|exact H].
    apply existsb_exists in E. destruct E as (z & Hz & Heq).
    apply String.eqb_eq in Heq. now subst.
  - rewrite in_app_iff. simpl. split; intros H.
    + destruct H as [H | [H | []]]; auto.
    + destruct H as [H | H]; auto.
Qed.

Lemma of_list_from_In (l s : list string) (x : string) :
  In x (fold_left (fun s x => RefSet.add x s) l s) <-> In x l \/ In x s.
Proof.
  revert s. induction l as [|y l IH]; intros s; simpl; [tauto|].
  rewrite IH, add_In. split; intros H.
  - destruct H as [H | [H | H]]; auto.
  - destruct H as [[H | H] | H]; auto.
Qed.

Lemma of_list_In (l : list string) (x : string) :
  In x (RefSet.of_list l) <-> In x l.
Proof. unfold RefSet.of_list. rewrite of_list_from_In. simpl. tauto. Qed.

Section FullTextProperties.

Variable getDescendants : string -> list string.
Variable getAncestors : string -> list string.
Variable isMixin : string -> bool.
Variable getFullTextContext : string -> option FullTextSearchContext.


Lemma add_mixins_In (l s : list string) (x : string) :
  In x (fold_left (fun desc dd => if isMixin dd then RefSet.add dd desc else desc) l s)
  <-> (In x l /\ isMixin x = true) \/ In x s.
Proof.
  revert s. induction l as [|y l IH]; intros s; simpl; [tauto|].
  rewrite IH. destruct (isMixin y) eqn:E.
  - rewrite add_In. intuition (subst; auto).
  - intuition (subst; auto; congruence).
Qed.

Lemma collect_In (ancestors s : list string) (x : string) :
  In x (fold_left
          (fun desc a =>
             fold_left (fun desc dd => if isMixin dd then RefSet.add dd desc else desc)
               (getDescendants a) desc)
          ancestors s)
  <-> (exists a, In a ancestors /\ In x (getDescendants a) /\ isMixin x = true)
      \/ In x s.
Proof.
  revert s. induction ancestors as [|a ancestors IH]; intros s; simpl.
  - split; [tauto|]. intros [(a & [] & _) | H]; exact H.
  - rewrite IH, add_mixins_In. split; intros H.
    + destruct H as [(b & Hb & Hx) | [[H1 H2] | H]].
      * left. exists b. tauto.
      * left. exists a. tauto.
      * now right.
    + destruct H as [(b & [Hb | Hb] & Hx & Hm) | H].
      * subst b. right. left. tauto.
      * left. exists b. tauto.
      * right. now right.
Qed.

Lemma collected_In (objectClass x : string) :
  In x (collected getDescendants getAncestors isMixin objectClass) <->
  (exists a, In a (getAncestors objectClass) /\ In x (getDescendants a) /\
             isMixin x = true)
  \/ In x (getDescendants objectClass).
Proof. unfold collected. now rewrite collect_In, of_list_In. Qed.

Lemma collected_In_intro (objectClass x : string) :
  (exists a, In a (getAncestors objectClass) /\ In x (getDescendants a) /\
             isMixin x = true)
  \/ In x (getDescendants objectClass) ->
  In x (collected getDescendants getAncestors isMixin objectClass).
Proof. apply collected_In. Qed.

Section AnyVisitor.

Variable A : Type.
Variable op : FullTextSearchContext -> A -> A.

Lemma visit_declared (c : string) (acc : A) :
  visit A op (getFullTextContext c) acc =
  apply_all A op (declared getFullTextContext c) acc.
Proof. unfold declared. destruct (getFullTextContext c); reflexivity. Qed.

Lemma ancestors_fold (ancestors desc : list string) (acc : A) :
  fold_left (ancestor_step getDescendants isMixin getFullTextContext A op)
    ancestors (desc, acc) =
  (fold_left
     (fun desc a =>
        fold_left (fun desc dd => if isMixin dd then RefSet.add dd desc else desc)
          (getDescendants a) desc)
     ancestors desc,
   apply_all A op (flat_map (declared getFullTextContext) ancestors) acc).
Proof.
  revert desc acc. induction ancestors as [|a ancestors IH]; intros desc acc.
  - reflexivity.
  - cbn [fold_left flat_map]. unfold ancestor_step at 2.
    rewrite IH, visit_declared. unfold apply_all. now rewrite fold_left_app.
Qed.

Lemma mixins_fold (desc : list string) (acc : A) :
  fold_left (mixin_step isMixin getFullTextContext A op) desc acc =
  apply_all A op
    (flat_map (fun d => if isMixin d then declared getFullTextContext d else [])
       desc) acc.
Proof.
  revert acc. induction desc as [|d desc IH]; intros acc; [reflexivity|].
  cbn [fold_left flat_map]. rewrite IH. unfold mixin_step.
  unfold apply_all. rewrite fold_left_app.
  destruct (isMixin d); [now rewrite visit_declared | reflexivity].
Qed.

(** Any visitor is called on the own context, then on the ancestors'
    contexts, then on the contexts of the mixins collected. *)
Lemma traverse_fold (objectClass : string) (acc : A) :
  traverseFullTextContexts getDescendants getAncestors isMixin
    getFullTextContext A op objectClass acc =
  ([], apply_all A op (declared getFullTextContext objectClass
                    ++ flat_map (declared getFullTextContext) (getAncestors objectClass)
                    ++ flat_map
                         (fun d => if isMixin d
                                   then declared getFullTextContext d else [])
                         (collected getDescendants getAncestors isMixin objectClass)) acc).
Proof.
  unfold traverseFullTextContexts.
  rewrite ancestors_fold, mixins_fold, visit_declared.
  unfold apply_all. now rewrite !fold_left_app.
Qed.

End AnyVisitor.

Lemma apply_snoc (l acc : list FullTextSearchContext) :
  fold_left (fun acc c => acc ++ [c]) l acc = acc ++ l.
Proof.
  revert acc. induction l as [|c l IH]; intros acc; simpl.
  - now rewrite app_nil_r.
  - now rewrite IH, <- app_assoc.
Qed.

Lemma visits_order (objectClass : string) :
  visits getDescendants getAncestors isMixin getFullTextContext objectClass =
  declared getFullTextContext objectClass
    ++ flat_map (declared getFullTextContext) (getAncestors objectClass)
    ++ flat_map (fun d => if isMixin d then declared getFullTextContext d else [])
         (collected getDescendants getAncestors isMixin objectClass).
Proof.
  unfold visits. rewrite traverse_fold.
  cbn [snd]. unfold apply_all. now rewrite apply_snoc.
Qed.

End FullTextProperties.

Section FullTextSpec.

Variable getDescendants : string -> list string.
Variable getAncestors : string -> list string.
Variable isMixin : string -> bool.
Variable getFullTextContext : string -> option FullTextSearchContext.

(** C8.  The visitor is called first on the own declared context of
    [objectClass], when there is one; every later call is on the context of
    an ancestor or of a mixin; and the declared context of every mixin among
    the descendants of [objectClass] or among the descendants of one of its
    ancestors is visited.  The calls listed by [visits] are the calls any
    visitor receives. *)
Theorem traverseFullTextContexts_visits (objectClass : string) :
  exists rest,
    visits getDescendants getAncestors isMixin getFullTextContext objectClass =
    declared getFullTextContext objectClass ++ rest /\
    (forall c, In c rest ->
       (exists a, In a (getAncestors objectClass) /\
                  getFullTextContext a = Some c) \/
       (exists d, isMixin d = true /\ getFullTextContext d = Some c /\
                  (In d (getDescendants objectClass) \/
                   exists a, In a (getAncestors objectClass) /\
                             In d (getDescendants a)))) /\
    (forall d c,
        isMixin d = true ->
        In d (getDescendants objectClass) \/
        (exists a, In a (getAncestors objectClass) /\ In d (getDescendants a)) ->
        getFullTextContext d = Some c ->
        In c rest) /\
    (forall (A : Type) (op : FullTextSearchContext -> A -> A) (acc : A),
        snd (traverseFullTextContexts getDescendants getAncestors isMixin
               getFullTextContext A op objectClass acc) =
        fold_left (fun acc c => op c acc)
          (visits getDescendants getAncestors isMixin getFullTextContext
             objectClass) acc).
Proof.
  exists (flat_map (declared getFullTextContext) (getAncestors objectClass)
            ++ flat_map (fun d => if isMixin d
                                  then declared getFullTextContext d else [])
                 (collected getDescendants getAncestors isMixin objectClass)).
  split; [apply visits_order|]. split; [|split].
  - intros c Hc. apply in_app_or in Hc. destruct Hc as [Hc | Hc].
    + left. apply in_flat_map in Hc. destruct Hc as (a & Ha & Hin).
      exists a. split; [exact Ha|]. unfold declared in Hin.
      destruct (getFullTextContext a); [|contradiction].
      destruct Hin as [-> | []]. reflexivity.
    + right. apply in_flat_map in Hc. destruct Hc as (d & Hd & Hin).
      exists d. destruct (isMixin d) eqn:E; [|contradiction].
      split; [reflexivity|]. unfold declared in Hin.
      destruct (getFullTextContext d); [|contradiction].
      destruct Hin as [-> | []]. split; [reflexivity|].
      apply (collected_In getDescendants getAncestors isMixin
               getFullTextContext) in Hd.
      destruct Hd as [(a & Ha & Hda & _) | Hd]; [right; exists a; auto | now left].
  - intros d c Hmix Hwhere Hctx. apply in_or_app. right.
    apply in_flat_map. exists d. split.
    + apply (collected_In_intro getDescendants getAncestors isMixin
               getFullTextContext).
      destruct Hwhere as [H | (a & Ha & Hd)]; [now right|].
      left. exists a. repeat split; assumption.
    + rewrite Hmix. unfold declared. rewrite Hctx. now left.
  - intros A op acc. rewrite traverse_fold, visits_order. reflexivity.
Qed.

End FullTextSpec.


(** ** The statements at sample inputs *)


(** The example of the specification: three open tasks are matched and
    updated, and each then carries a cleared marker. *)
Example update_three_open_tasks :
  exists w' tr,
    MigrateClientImpl.update (db := Sample.mem) all_keys_dollar "tasks"
      Sample.open_tasks (VObj Sample.close_task) Sample.store =
    Some (Ok (mkMigrationResult 3 3), w', tr) /\
    MemStore.collection "tasks" (MemStore.collections w') =
    [VObj [("_id", VStr "t1"); ("status", VStr "closed"); (HASH, VNull)];
     VObj [("_id", VStr "t2"); ("status", VStr "closed"); (HASH, VNull)];
     Sample.task "t3" "done";
     VObj [("_id", VStr "t4"); ("status", VStr "closed"); (HASH, VNull)]].
Proof. eexists _, _. split; vm_compute; reflexivity. Qed.

Lemma bulk_spec_witness :
  exists ops r w',
    MigrateClientImpl.bulk (db := Sample.mem) "tasks" Sample.bulk_items
      Sample.store =
    Some (counts_of r, w', [EvBulkWrite "tasks" ops r]) /\
    (r, w') = db_bulkWrite (Db := Sample.mem) "tasks" ops Sample.store /\
    Forall2 bulk_write_for Sample.bulk_items ops.
Proof.
  apply (proj1 (bulk_spec (db := Sample.mem)) Sample.store "tasks"
           Sample.bulk_items).
  repeat (apply Forall_cons;
          [split; [simpl; distinct_keys | eexists; reflexivity]|]).
  apply Forall_nil.
Defined.

Lemma next_at_most_size_witness :
  MigrateClientImpl.next_sized (db := ScriptedStore.scripted_db) 5 0
    (Ratio 2 1) Sample.three_documents =
  Some (Ok (Some [Sample.task "t1" "open"; Sample.task "t2" "open"]),
        ScriptedStore.mkScript [Ok true; Ok false]
          [Ok (Sample.task "t4" "open")],
        [EvHasNext 0 (Ok true); EvNext 0 (Ok (Sample.task "t1" "open"));
         EvHasNext 0 (Ok true); EvNext 0 (Ok (Sample.task "t2" "open"))]) /\
  pull_outcome 0 (Ratio 2 1)
    (Ok (Some [Sample.task "t1" "open"; Sample.task "t2" "open"]))
    [EvHasNext 0 (Ok true); EvNext 0 (Ok (Sample.task "t1" "open"));
     EvHasNext 0 (Ok true); EvNext 0 (Ok (Sample.task "t2" "open"))].
Proof.
  split; [reflexivity|].
  apply (proj1 (next_at_most_size (db := ScriptedStore.scripted_db)
                  Sample.three_documents 0%nat)
           5%nat (Ratio 2 1) _ _ _ eq_refl).
Defined.

(** C7, the claim as worded fails at a size that is not an integer: asked
    for 2.5 documents, [next] reads a third one, since two documents are
    still fewer than 2.5, and returns three. *)
Lemma next_exceeds_fractional_size :
  MigrateClientImpl.next_sized (db := ScriptedStore.scripted_db) 5 0
    (Ratio 5 2) Sample.three_documents =
  Some (Ok (Some [Sample.task "t1" "open"; Sample.task "t2" "open";
                  Sample.task "t4" "open"]),
        ScriptedStore.mkScript [Ok false] [],
        [EvHasNext 0 (Ok true); EvNext 0 (Ok (Sample.task "t1" "open"));
         EvHasNext 0 (Ok true); EvNext 0 (Ok (Sample.task "t2" "open"));
         EvHasNext 0 (Ok true); EvNext 0 (Ok (Sample.task "t4" "open"))]).
Proof. reflexivity. Qed.

(** C3, the code at a failing input.  A fault of [cursor.hasNext()], which
    the loop of [next] evaluates outside its [try], leaves [next] as an
    exception, at the first pull or after documents were read; only a fault
    of [cursor.next()] is turned into the [null] result. *)
Theorem next_propagates_hasNext_fault :
  MigrateClientImpl.next (db := ScriptedStore.scripted_db) 0 5
    Sample.broken_at_hasNext =
  Some (Throw ScriptedStore.fault, ScriptedStore.mkScript [] [],
        [EvHasNext 0 (Throw ScriptedStore.fault)]) /\
  MigrateClientImpl.next (db := ScriptedStore.scripted_db) 0 5
    Sample.broken_after_one =
  Some (Throw ScriptedStore.fault, ScriptedStore.mkScript [] [],
        [EvHasNext 0 (Ok true); EvNext 0 (Ok (Sample.task "t1" "open"));
         EvHasNext 0 (Throw ScriptedStore.fault)]) /\
  MigrateClientImpl.next (db := ScriptedStore.scripted_db) 0 5
    Sample.broken_at_next =
  Some (Ok None, ScriptedStore.mkScript [] [],
        [EvHasNext 0 (Ok true); EvNext 0 (Throw ScriptedStore.fault);
         EvConsoleError ScriptedStore.fault]).
Proof. repeat split; reflexivity. Qed.

Lemma move_spec_witness :
  let docs := [Sample.task "t1" "open"; Sample.task "t2" "open";
               Sample.task "t4" "open"] in
  exists w',
    MigrateClientImpl.move (db := Sample.mem) 10 "tasks" Sample.open_tasks
      "archive" Sample.store =
    Some (Ok (mkMigrationResult 3 3), w',
          EvLog "move" (VObj [("sourceDomain", VStr "tasks");
                              ("query", Sample.open_tasks)])
            :: EvFind "tasks" Sample.open_tasks 0
            :: move_events 0 "archive" docs
            ++ [EvNext 0 (Ok VNull);
                EvDeleteMany "tasks" Sample.open_tasks (Ok tt)]) /\
    List.filter (filter_matches Sample.open_tasks)
      (MemStore.collection "tasks" (MemStore.collections w')) = [] /\
    Forall (fun d => Js.in_op HASH (without_marker d) = Ok false) docs /\
    ("tasks" <> "archive" ->
     MemStore.collection "archive" (MemStore.collections w') =
     MemStore.collection "archive" (MemStore.collections Sample.store)
       ++ map without_marker docs).
Proof.
  apply (move_spec filter_matches (fun _ docs => docs) Sample.store
           "tasks" "archive" Sample.open_tasks Sample.open_tasks 10).
  - reflexivity.
  - reflexivity.
  - vm_compute. lia.
Defined.


(** The example of the specification: value 5 for [version] with no prior
    state answers ["1"] and persists [{version: 5, index: 1}]; value 5 again
    answers ["1"] and writes nothing; value 7 answers ["2"] and persists
    [{version: 7, index: 2}]. *)
Example stage_version_example :
  let load := loadIndexStageStage (storage := StageStore.stage_store)
                "core:class:IndexStageState" "space" "core:account:System" in
  let '(r1, s1, st1) := load Sample.stages None "stage-1" "version" (VNum 5) in
  let '(r2, s2, st2) := load st1 s1 "stage-1" "version" (VNum 5) in
  let '(r3, s3, st3) := load st2 s2 "stage-1" "version" (VNum 7) in
  (r1, r2, r3) = (VStr "1", VStr "1", VStr "2") /\
  map attributes (StageStore.records st1) =
    [[("version", VNum 5); ("index", VNum 1)]] /\
  st2 = st1 /\
  map attributes (StageStore.records st3) =
    [[("version", VNum 7); ("index", VNum 2)]].
Proof. vm_compute. repeat split; reflexivity. Qed.

Lemma traverseFullTextContexts_visits_witness :
  exists rest,
    visits Sample.descendants Sample.ancestors Sample.mixin Sample.context
      "Issue" = [Sample.context_of_issue] ++ rest /\
    In Sample.context_of_tagged rest.
Proof.
  destruct (traverseFullTextContexts_visits Sample.descendants Sample.ancestors
              Sample.mixin Sample.context "Issue")
    as (rest & Hvisits & _ & Hmixins & _).
  exists rest. split; [exact Hvisits|].
  apply (Hmixins "Tagged" Sample.context_of_tagged).
  - reflexivity.
  - right. exists "Doc". split; simpl; auto.
  - reflexivity.
Defined.

(** ** The translation of plain patterns is the pattern's meaning *)

Lemma parse_body_like (pattern : string) :
  like_plain pattern = true ->
  Regex.parse_body (percent_to_any pattern ++ "$")%string =
  Some (like_items pattern, true).
Proof.
  induction pattern as [|c rest IH]; intros Hplain; [reflexivity|].
  simpl in Hplain. apply andb_true_iff in Hplain. destruct Hplain as [Hc Hrest].
  specialize (IH Hrest). cbn [percent_to_any like_items].
  destruct (Ascii.eqb c "%") eqn:Epct.
  - cbn [append]. unfold Regex.parse_body; fold Regex.parse_body.
    cbn. rewrite IH. reflexivity.
  - simpl in Hc. unfold plain_char in Hc. apply negb_true_iff in Hc.
    apply orb_false_iff in Hc. destruct Hc as [Hc Hunsup].
    apply orb_false_iff in Hc. destruct Hc as [Hc Hdollar].
    apply orb_false_iff in Hc. destruct Hc as [Hdot Hstar].
    cbn [append]. unfold Regex.parse_body; fold Regex.parse_body.
    rewrite Hdollar, Hstar, Hunsup, Hdot. cbn [orb].
    destruct rest as [|d rest'].
    + reflexivity.
    + cbn [percent_to_any append] in *.
      simpl in Hrest. apply andb_true_iff in Hrest. destruct Hrest as [Hd _].
      destruct (Ascii.eqb d "%") eqn:Edpct.
      * cbn [append] in *. rewrite IH. reflexivity.
      * simpl in Hd. unfold plain_char in Hd. apply negb_true_iff in Hd.
        apply orb_false_iff in Hd. destruct Hd as [Hd _].
        apply orb_false_iff in Hd. destruct Hd as [Hd _].
        apply orb_false_iff in Hd. destruct Hd as [_ Hdstar].
        cbn [append] in *.
        assert (Hne : d <> "*"%char) by (apply Ascii.eqb_neq; exact Hdstar).
        rewrite IH.
        destruct d as [[] [] [] [] [] [] [] []]; try reflexivity.
        congruence.
Qed.

Lemma match_like_items (pattern : string) :
  forall s, no_line_feed s = true ->
    Regex.match_here true (like_items pattern) true s = like_matches pattern s.
Proof.
  induction pattern as [|c rest IH]; intros s Hs.
  - destruct s as [|d [|d' s]]; simpl in *; try reflexivity.
    apply andb_true_iff in Hs. destruct Hs as [Hd _].
    apply negb_true_iff in Hd. exact Hd.
  - cbn [like_items like_matches]. destruct (Ascii.eqb c "%").
    + cbn [Regex.match_here]. induction s as [|d s IHs].
      * rewrite IH by reflexivity. reflexivity.
      * pose proof Hs as Hds.
        simpl in Hs. apply andb_true_iff in Hs. destruct Hs as [Hd Hs'].
        specialize (IHs Hs'). rewrite (IH _ Hds).
        f_equal. cbn [Regex.atom_matches]. rewrite Hd. cbn [andb].
        exact IHs.
    + cbn [Regex.match_here]. destruct s as [|d s]; [reflexivity|].
      simpl in Hs. apply andb_true_iff in Hs. destruct Hs as [_ Hs'].
      rewrite IH by exact Hs'. reflexivity.
Qed.

(** X1.  For a pattern without regular-expression metacharacters and a
    string without line feeds, the regular expression the translator emits
    accepts the string exactly when the pattern does, with [%] read as any
    sequence of characters, case-insensitively and against the whole
    string. *)
Theorem like_regex_meaning (pattern s : string) :
  like_plain pattern = true ->
  no_line_feed s = true ->
  Regex.test (like_regex pattern) "i" s = Some (like_matches pattern s).
Proof.
  intros Hplain Hs. rewrite like_regex_percent_to_any.
  unfold Regex.test, Regex.parse. cbn [append].
  rewrite (parse_body_like pattern Hplain). cbn.
  unfold Regex.matches. cbn. now rewrite match_like_items.
Qed.

Lemma like_regex_meaning_witness :
  Regex.test (like_regex "ab%c") "i" "ABxyzC" = Some (like_matches "ab%c" "ABxyzC").
Proof. apply like_regex_meaning; reflexivity. Defined.

(** X2.  The translator raises exactly on the queries that hold, as the
    first key of a field value, a [$like] whose pattern is not a string. *)
Theorem translateQuery_raises_iff (query : value) :
  (exists e, translateQuery query = Throw e) <-> query_well_typed query = false.
Proof.
  split.
  - intros [e He]. destruct (query_well_typed query) eqn:Hwt; [|reflexivity].
    unfold translateQuery in He.
    assert (Hok : forall entries translated chain,
               forallb (fun kv => like_is_string (snd kv)) entries = true ->
               exists t, translate_loop entries translated chain = Ok t).
    { induction entries as [|[k v] entries IH]; intros translated chain Hall.
      - simpl. eauto.
      - simpl in Hall. apply andb_true_iff in Hall. destruct Hall as [Hv Hall].
        rewrite translate_loop_step, (translate_value_well_typed v Hv).
        apply IH. exact Hall. }
    destruct (Hok (Js.own_enumerable query) [] true Hwt) as [t Ht].
    rewrite Ht in He. discriminate He.
  - intros Hwt. destruct (translateQuery_ill_typed query Hwt) as [msg Hmsg].
    eauto.
Qed.

Lemma fault_not_in (tr : list Event) (ev : Event) :
  existsb is_fault tr = false -> In ev tr -> is_fault ev = false.
Proof.
  intros Hnone Hin. destruct (is_fault ev) eqn:E; [|reflexivity].
  assert (Hex : existsb is_fault tr = true).
  { apply existsb_exists. exists ev. auto. }
  congruence.
Qed.

(** X3.  A fault of [cursor.next()] inside the loop of [next] is caught, at
    whichever turn of the loop it happens and whatever the size asked for:
    when the store answers a [cursor.next()] of a pull with a fault, the
    pull answers [null], the fault is the last call of the pull, it is the
    only one that faulted, and the error is logged right after it; the
    documents read before are not returned. *)
Theorem next_converts_next_fault :
  forall (W : Type) (db : Db W) (w w' : W) (cursor : CursorId) (fuel : nat)
         (size : Size) (r : Result (option (list value))) (tr : list Event)
         (e : Err),
    MigrateClientImpl.next_sized fuel cursor size w = Some (r, w', tr) ->
    In (EvNext cursor (Throw e)) tr ->
    r = Ok None /\
    exists tr0,
      tr = tr0 ++ [EvNext cursor (Throw e); EvConsoleError e] /\
      existsb is_fault tr0 = false.
Proof.
  intros W db w w' cursor fuel size r tr e Hrun Hin.
  apply next_sized_outcome in Hrun. unfold pull_outcome in Hrun.
  destruct r as [[docs|]|e'].
  - destruct Hrun as (_ & Hnone & _).
    pose proof (fault_not_in _ _ Hnone Hin) as H. discriminate H.
  - split; [reflexivity|]. destruct Hrun as (tr0 & e' & -> & Hnone).
    apply in_app_or in Hin. destruct Hin as [Hin | [Heq | [Heq | []]]].
    + pose proof (fault_not_in _ _ Hnone Hin) as H. discriminate H.
    + inversion Heq; subst. exists tr0. auto.
    + discriminate Heq.
  - destruct Hrun as (tr0 & -> & Hnone).
    apply in_app_or in Hin. destruct Hin as [Hin | [Heq | []]].
    + pose proof (fault_not_in _ _ Hnone Hin) as H. discriminate H.
    + discriminate Heq.
Qed.

Lemma next_converts_next_fault_witness :
  MigrateClientImpl.next_sized (db := ScriptedStore.scripted_db) 5 0
    (Ratio 5 1) Sample.broken_at_second_next =
  Some (Ok None,
        ScriptedStore.mkScript [Ok true] [Ok (Sample.task "t2" "open")],
        [EvHasNext 0 (Ok true); EvNext 0 (Ok (Sample.task "t1" "open"));
         EvHasNext 0 (Ok true); EvNext 0 (Throw ScriptedStore.fault);
         EvConsoleError ScriptedStore.fault]) /\
  (@Ok (option (list value)) None = Ok None /\
   exists tr0,
     [EvHasNext 0 (Ok true); EvNext 0 (Ok (Sample.task "t1" "open"));
      EvHasNext 0 (Ok true); EvNext 0 (Throw ScriptedStore.fault);
      EvConsoleError ScriptedStore.fault] =
     tr0 ++ [EvNext 0 (Throw ScriptedStore.fault);
             EvConsoleError ScriptedStore.fault] /\
     existsb is_fault tr0 = false).
Proof.
  split; [reflexivity|].
  apply (next_converts_next_fault ScriptedStore.Script ScriptedStore.scripted_db
           Sample.broken_at_second_next
           (ScriptedStore.mkScript [Ok true] [Ok (Sample.task "t2" "open")])
           0%nat 5%nat (Ratio 5 1) (Ok None)
           [EvHasNext 0 (Ok true); EvNext 0 (Ok (Sample.task "t1" "open"));
            EvHasNext 0 (Ok true); EvNext 0 (Throw ScriptedStore.fault);
            EvConsoleError ScriptedStore.fault]
           ScriptedStore.fault).
  - reflexivity.
  - simpl. auto.
Defined.

(** ** [move] against any store *)

Section MoveAnyStore.

Context {W : Type} {db : Db W}.

Import MigrateClientImpl.

Lemma move_loop_complete (cursor : CursorId) (target : string) (fuel : nat) :
  forall (w w' : W) (result res : MigrationResult) (tr : list Event),
    move_loop fuel cursor target result w = Some (Ok res, w', tr) ->
    exists docs last,
      tr = move_events cursor target docs ++ [EvNext cursor (Ok last)] /\
      loosely_not_null last = false /\
      res = mkMigrationResult (matched result + Z.of_nat (List.length docs))
              (updated result + Z.of_nat (List.length docs)).
Proof.
  induction fuel as [|fuel IH]; intros w w' result res tr Hrun; [discriminate|].
  cbn [move_loop] in Hrun.
  unfold bind at 1, cursor_next, call in Hrun.
  destruct (db_next cursor w) as [[doc|e] w1]; [|discriminate].
  destruct (loosely_not_null doc) eqn:Hdoc.
  - unfold bind at 1, lift at 1 in Hrun.
    destruct (Js.in_op HASH doc) as [marked|e] eqn:Hin; [|discriminate].
    unfold bind at 1, insertOne, call in Hrun.
    match type of Hrun with
    | context [db_insertOne target ?d w1] =>
        assert (Hd : d = without_marker doc)
          by (unfold without_marker; rewrite Hin; destruct marked; reflexivity);
        rewrite Hd in Hrun; clear Hd
    end.
    destruct (db_insertOne target (without_marker doc) w1) as [ri w2].
    destruct ri as [u|e]; [destruct u|discriminate].
    destruct (move_loop fuel cursor target
                (mkMigrationResult (matched result + 1) (updated result + 1)) w2)
      as [[[r w3] tr']|] eqn:Hloop; [|discriminate].
    inversion Hrun; subst. clear Hrun.
    destruct (IH _ _ _ _ _ Hloop) as (docs & last & -> & Hlast & ->).
    exists (doc :: docs), last. split; [reflexivity|]. split; [exact Hlast|].
    cbn [matched updated List.length]. f_equal; lia.
  - unfold ret in Hrun. inversion Hrun; subst.
    exists [], doc. split; [reflexivity|]. split; [exact Hdoc|].
    cbn [List.length]. destruct res as [m u]. cbn. f_equal; lia.
Qed.

(** X5.  Whatever the store answers, a run of [move] that completes has
    made its store calls in this order: the cursor is opened; each document
    the cursor delivers is inserted, without its marker, before the next is
    read; the cursor answers [null]; one [deleteMany] is issued, on the
    query the cursor was opened with.  Both counts are the number of
    documents inserted. *)
Theorem move_completes_in_order (fuel : nat) (source target : string)
    (query : value) (w w' : W) (res : MigrationResult) (tr : list Event) :
  move fuel source query target w = Some (Ok res, w', tr) ->
  exists q cursor docs last,
    translateQuery query = Ok q /\
    List.filter is_store_event tr =
      EvFind source q cursor
        :: move_events cursor target docs
        ++ [EvNext cursor (Ok last); EvDeleteMany source q (Ok tt)] /\
    loosely_not_null last = false /\
    res = mkMigrationResult (Z.of_nat (List.length docs))
            (Z.of_nat (List.length docs)).
Proof.
  intros Hrun. unfold move, bind at 1, logger_log, emit in Hrun.
  unfold bind at 1, lift at 1 in Hrun.
  destruct (translateQuery query) as [q|e]; [|discriminate].
  unfold bind at 1, find_cursor, call_total in Hrun.
  destruct (db_find source q w) as [cursor w1].
  unfold bind at 1 in Hrun.
  destruct (move_loop fuel cursor target (mkMigrationResult 0 0) w1)
    as [[[[r|e] w2] tr1]|] eqn:Hloop; try discriminate.
  unfold bind, deleteMany, call, ret in Hrun.
  destruct (db_deleteMany source q w2) as [rd w3].
  destruct rd as [u|e]; [destruct u|discriminate].
  inversion Hrun; subst. clear Hrun.
  destruct (move_loop_complete _ _ _ _ _ _ _ _ Hloop)
    as (docs & last & -> & Hlast & ->).
  exists q, cursor, docs, last. split; [reflexivity|]. split; [|split; auto].
  cbn [List.filter is_store_event app]. f_equal.
  rewrite <- !app_assoc. cbn [app].
  rewrite filter_app. cbn [List.filter is_store_event].
  f_equal. clear. induction docs as [|d docs IH]; [reflexivity|].
  cbn [move_events flat_map app List.filter is_store_event].
  do 2 f_equal. exact IH.
Qed.

End MoveAnyStore.

Lemma move_completes_in_order_witness :
  exists q cursor docs last,
    translateQuery Sample.open_tasks = Ok q /\
    List.filter is_store_event
      [EvLog "move" (VObj [("sourceDomain", VStr "tasks");
                           ("query", Sample.open_tasks)]);
       EvFind "tasks" Sample.open_tasks 0;
       EvNext 0 (Ok (Sample.task "t1" "open"));
       EvInsertOne "archive"
         (VObj [("_id", VStr "t1"); ("status", VStr "open")]) (Ok tt);
       EvNext 0 (Ok (Sample.task "t2" "open"));
       EvInsertOne "archive"
         (VObj [("_id", VStr "t2"); ("status", VStr "open")]) (Ok tt);
       EvNext 0 (Ok (Sample.task "t4" "open"));
       EvInsertOne "archive"
         (VObj [("_id", VStr "t4"); ("status", VStr "open")]) (Ok tt);
       EvNext 0 (Ok VNull);
       EvDeleteMany "tasks" Sample.open_tasks (Ok tt)] =
      EvFind "tasks" q cursor
        :: move_events cursor "archive" docs
        ++ [EvNext cursor (Ok last); EvDeleteMany "tasks" q (Ok tt)] /\
    MigrateClientImpl.loosely_not_null last = false /\
    mkMigrationResult 3 3 =
    mkMigrationResult (Z.of_nat (List.length docs)) (Z.of_nat (List.length docs)).
Proof.
  apply (move_completes_in_order (db := Sample.mem) 10
           "tasks" "archive" Sample.open_tasks Sample.store
           (MemStore.mkMem
              [("tasks", [Sample.task "t3" "done"]);
               ("archive",
                [VObj [("_id", VStr "t1"); ("status", VStr "open")];
                 VObj [("_id", VStr "t2"); ("status", VStr "open")];
                 VObj [("_id", VStr "t4"); ("status", VStr "open")]])]
              [[]] 1000 1)).
  reflexivity.
Defined.

(** ** The collected propagation sets *)

Section CollectProperties.

Variable getDescendants : string -> list string.
Variable getAncestors : string -> list string.
Variable isMixin : string -> bool.
Variable getFullTextContext : string -> option FullTextSearchContext.

Lemma add_NoDup (x : string) (s : list string) :
  NoDup s -> NoDup (RefSet.add x s).
Proof.
  intros Hnd. unfold RefSet.add. destruct (existsb (String.eqb x) s) eqn:E; [exact Hnd|].
  apply NoDup_rev in Hnd. rewrite <- (rev_involutive (s ++ [x])).
  apply NoDup_rev. rewrite rev_app_distr. simpl. constructor; [|exact Hnd].
  rewrite <- in_rev. intros Hin.
  assert (Hex : existsb (String.eqb x) s = true).
  { apply existsb_exists. exists x. split; [exact Hin | apply String.eqb_refl]. }
  congruence.
Qed.

Lemma add_all_NoDup (l : option (list string)) (s : list string) :
  NoDup s -> NoDup (add_all l s).
Proof.
  destruct l as [items|]; [|auto]. simpl. revert s.
  induction items as [|x items IH]; intros s Hnd; simpl; [exact Hnd|].
  apply IH. now apply add_NoDup.
Qed.

Lemma add_all_In (l : option (list string)) (s : list string) (x : string) :
  In x (add_all l s) <-> (exists items, l = Some items /\ In x items) \/ In x s.
Proof.
  destruct l as [items|]; simpl.
  - rewrite (of_list_from_In items s x). split.
    + intros [H | H]; [left; eauto | now right].
    + intros [(items' & Heq & H) | H]; [inversion Heq; subst; now left | now right].
  - split; [now right|]. intros [(items & Heq & _) | H]; [discriminate | exact H].
Qed.

Lemma collect_fold (f : FullTextSearchContext -> option (list string))
    (cs : list FullTextSearchContext) :
  forall s,
    NoDup s ->
    NoDup (apply_all (list string) (fun c s => add_all (f c) s) cs s) /\
    forall x,
      In x (apply_all (list string) (fun c s => add_all (f c) s) cs s) <->
      (exists c items, In c cs /\ f c = Some items /\ In x items) \/ In x s.
Proof.
  unfold apply_all.
  induction cs as [|c cs IH]; intros s Hnd; simpl.
  - split; [exact Hnd|]. intros x. split; [now right|].
    intros [(c & items & [] & _) | H]; exact H.
  - destruct (IH (add_all (f c) s) (add_all_NoDup (f c) s Hnd)) as [Hnd' Hin'].
    split; [exact Hnd'|]. intros x. rewrite Hin', add_all_In. split.
    + intros [(c' & items & Hc' & Hf & Hx) | [(items & Hf & Hx) | H]].
      * left. exists c', items. auto.
      * left. exists c, items. auto.
      * now right.
    + intros [(c' & items & [Hc' | Hc'] & Hf & Hx) | H].
      * subst c'. right. left. eauto.
      * left. exists c', items. auto.
      * right. now right.
Qed.

(** X6.  [collectPropagate] and [collectPropagateClasses] return, without
    repetition, exactly the classes listed in the [propagate] (respectively
    [propagateClasses]) field of some context that
    [traverseFullTextContexts] visits. *)
Theorem collectPropagate_union (objectClass x : string) :
  let visited :=
    visits getDescendants getAncestors isMixin getFullTextContext objectClass in
  let collected_propagate :=
    collectPropagate getDescendants getAncestors isMixin getFullTextContext
      objectClass in
  let collected_classes :=
    collectPropagateClasses getDescendants getAncestors isMixin
      getFullTextContext objectClass in
  NoDup collected_propagate /\
  NoDup collected_classes /\
  (In x collected_propagate <->
   exists c items, In c visited /\ propagate c = Some items /\ In x items) /\
  (In x collected_classes <->
   exists c items, In c visited /\ propagateClasses c = Some items /\ In x items).
Proof.
  intros visited collected_propagate collected_classes.
  unfold collected_propagate, collected_classes, collectPropagate,
    collectPropagateClasses, visited.
  rewrite !traverse_fold, visits_order. cbn [snd].
  destruct (collect_fold propagate
              (declared getFullTextContext objectClass
                 ++ flat_map (declared getFullTextContext) (getAncestors objectClass)
                 ++ flat_map
                      (fun d => if isMixin d
                                then declared getFullTextContext d else [])
                      (collected getDescendants getAncestors isMixin objectClass))
              [] (NoDup_nil _)) as [Hnd1 Hin1].
  destruct (collect_fold propagateClasses
              (declared getFullTextContext objectClass
                 ++ flat_map (declared getFullTextContext) (getAncestors objectClass)
                 ++ flat_map
                      (fun d => if isMixin d
                                then declared getFullTextContext d else [])
                      (collected getDescendants getAncestors isMixin objectClass))
              [] (NoDup_nil _)) as [Hnd2 Hin2].
  split; [exact Hnd1|]. split; [exact Hnd2|]. split.
  - rewrite Hin1. simpl. tauto.
  - rewrite Hin2. simpl. tauto.
Qed.

End CollectProperties.

(** ** Pulling from a cursor of the in-memory store *)

Section PullProperties.

Import MemStore MigrateClientImpl.

Variable matches : value -> value -> bool.
Variable order : list (string * Z) -> list value -> list value.

Let mem : Db Mem := mem_db matches order.
Existing Instance mem.

Lemma next_loop_mem (cursor : CursorId) (size : Z) (fuel : nat) :
  forall (docs acc : list value) (w : Mem),
    nth_error (cursors w) cursor = Some docs ->
    forallb is_document docs = true ->
    (size - Z.of_nat (List.length acc) <= Z.of_nat fuel)%Z ->
    let n := Z.to_nat (size - Z.of_nat (List.length acc)) in
    exists w' tr,
      next_loop fuel cursor (Ratio size 1) acc w =
      Some (Ok (Some (acc ++ firstn n docs)), w', tr) /\
      nth_error (cursors w') cursor = Some (skipn n docs) /\
      collections w' = collections w.
Proof.
  induction fuel as [|fuel IH]; intros docs acc w Hcur Hdocs Hfuel n.
  - assert (Hn : n = 0%nat) by (unfold n; lia).
    rewrite Hn. cbn [next_loop firstn skipn]. rewrite below_integer.
    destruct (Z.of_nat (List.length acc) <? size)%Z eqn:Hlt;
      [apply Z.ltb_lt in Hlt; lia|].
    exists w. eexists. rewrite app_nil_r. repeat split; auto.
  - destruct (Z.of_nat (List.length acc) <? size)%Z eqn:Hlt.
    + rewrite (next_loop_turn fuel cursor (Ratio size 1) acc w)
        by (now rewrite below_integer).
      apply Z.ltb_lt in Hlt.
      assert (Hn : n = S (Z.to_nat (size - Z.of_nat (List.length (acc ++ [VNull]))))).
      { unfold n. rewrite length_app. simpl. lia. }
      cbn [db_hasNext db_next mem mem_db]. unfold mem_hasNext. rewrite Hcur.
      destruct docs as [|d docs].
      * exists w. eexists. rewrite Hn. cbn [firstn skipn]. rewrite app_nil_r.
        repeat split; auto.
      * unfold mem_next. rewrite Hcur.
        simpl in Hdocs. apply andb_true_iff in Hdocs. destruct Hdocs as [Hd Hdocs].
        destruct d as [| | | | | |o]; try discriminate Hd. cbn [Js.not_null].
        set (w1 := with_cursors w (set_nth cursor docs (cursors w))).
        destruct (IH docs (acc ++ [VObj o]) w1) as (w' & tr & Hrun & Hcur' & Hcoll).
        { simpl. eapply nth_error_set_nth. exact Hcur. }
        { exact Hdocs. }
        { rewrite length_app. simpl. lia. }
        rewrite Hrun. exists w'. eexists.
        rewrite Hn. rewrite !length_app in *. cbn [List.length] in *.
        cbn [firstn skipn]. rewrite <- app_assoc. cbn [app].
        repeat split; auto.
    + apply Z.ltb_ge in Hlt.
      assert (Hn : n = 0%nat) by (unfold n; lia).
      rewrite Hn. cbn [next_loop firstn skipn]. rewrite below_integer.
      destruct (Z.of_nat (List.length acc) <? size)%Z eqn:Hlt';
        [apply Z.ltb_lt in Hlt'; lia|].
      exists w. eexists. rewrite app_nil_r. repeat split; auto.
Qed.

(** X7.  On the in-memory store a pull [next(n)] returns the first [n] of
    the documents the cursor has still to deliver, in order, and leaves the
    others for later pulls: over successive pulls every document of the
    cursor is returned once. *)
Theorem next_streams_in_order (w : Mem) (cursor : CursorId) (size : Z)
    (docs : list value) :
  nth_error (cursors w) cursor = Some docs ->
  forallb is_document docs = true ->
  (0 <= size)%Z ->
  exists w' tr,
    next cursor size w = Some (Ok (Some (firstn (Z.to_nat size) docs)), w', tr) /\
    nth_error (cursors w') cursor = Some (skipn (Z.to_nat size) docs) /\
    collections w' = collections w.
Proof.
  intros Hcur Hdocs Hsize. unfold next, next_sized.
  destruct (next_loop_mem cursor size (Z.to_nat size) docs [] w Hcur Hdocs)
    as (w' & tr & Hrun & Hrest & Hcoll).
  { simpl. lia. }
  simpl in Hrun, Hrest. rewrite Z.sub_0_r in Hrun, Hrest.
  exists w', tr. auto.
Qed.

End PullProperties.

Lemma next_streams_in_order_witness :
  exists w' tr,
    MigrateClientImpl.next (db := Sample.mem) 0 2 Sample.store_with_cursor =
    Some (Ok (Some [Sample.task "t1" "open"; Sample.task "t2" "open"]), w', tr) /\
    nth_error (MemStore.cursors w') 0 = Some [Sample.task "t4" "open"] /\
    MemStore.collections w' = MemStore.collections Sample.store_with_cursor.
Proof.
  apply (next_streams_in_order filter_matches (fun _ docs => docs)
           Sample.store_with_cursor 0%nat 2%Z
           [Sample.task "t1" "open"; Sample.task "t2" "open";
            Sample.task "t4" "open"]).
  - reflexivity.
  - reflexivity.
  - lia.
Defined.

(** * Further properties *)

(** ** The translator's fixed points *)

Lemma set_keys_distinct (o : obj) (k : string) (v : value) :
  NoDup (map fst o) -> NoDup (map fst (Js.set o k v)).
Proof.
  intros Hnd. induction o as [|[k' v'] o IH]; simpl.
  - constructor; [intros []|constructor].
  - destruct (String.eqb k k') eqn:E; simpl; [exact Hnd|].
    inversion Hnd as [|? ? Hnotin Hnd']; subst.
    constructor; [|auto].
    intros Hin. apply Hnotin. clear - Hin E.
    induction o as [|[k0 v0] o IH]; simpl in *.
    + destruct Hin as [Hin|[]]. subst. now rewrite String.eqb_refl in E.
    + destruct (String.eqb k k0) eqn:E0; simpl in *; [exact Hin|].
      destruct Hin as [Hin|Hin]; auto.
Qed.

Lemma set_values (P : value -> Prop) (o : obj) (k : string) (v : value) :
  Forall (fun kv => P (snd kv)) o -> P v ->
  Forall (fun kv => P (snd kv)) (Js.set o k v).
Proof.
  intros Ho Hv. induction o as [|[k' v'] o IH]; simpl.
  - constructor; auto.
  - inversion Ho; subst. destruct (String.eqb k k'); constructor; auto.
Qed.

Lemma translate_value_settled (v v' : value) :
  translate_value v = Ok v' -> translate_value v' = Ok v'.
Proof.
  intros H. unfold translate_value in H.
  destruct (Js.not_null v && Js.typeof_object v) eqn:Hobj.
  - destruct (first_key v) as [k0|] eqn:Hk.
    + destruct (String.eqb k0 "$like") eqn:E.
      * destruct (Js.member v "$like"); inversion H; subst. reflexivity.
      * inversion H; subst. unfold translate_value.
        now rewrite Hobj, Hk, E.
    + inversion H; subst. unfold translate_value. now rewrite Hobj, Hk.
  - inversion H; subst. unfold translate_value. now rewrite Hobj.
Qed.

Lemma set_keys_In (o : obj) (k x : string) (v : value) :
  In x (map fst (Js.set o k v)) -> x = k \/ In x (map fst o).
Proof.
  induction o as [|[k' v'] o IH]; simpl.
  - intros [H | []]. now left.
  - destruct (String.eqb k k') eqn:E; simpl.
    + apply String.eqb_eq in E. subst k'. intros [H | H]; auto.
    + intros [H | H]; [auto|]. destruct (IH H); auto.
Qed.

Lemma translate_loop_settled (entries translated out : obj) (chain : bool) :
  translate_loop entries translated chain = Ok out ->
  ~ In "__proto__" (map fst entries) ->
  NoDup (map fst translated) ->
  ~ In "__proto__" (map fst translated) ->
  Forall (fun kv => translate_value (snd kv) = Ok (snd kv)) translated ->
  NoDup (map fst out) /\ ~ In "__proto__" (map fst out) /\
  Forall (fun kv => translate_value (snd kv) = Ok (snd kv)) out.
Proof.
  revert translated chain.
  induction entries as [|[k v] entries IH];
    intros translated chain Hrun Hfree Hnd Hno Hall.
  - simpl in Hrun. inversion Hrun; subst. auto.
  - rewrite translate_loop_step in Hrun.
    destruct (translate_value v) as [v'|e] eqn:Hv; [|discriminate].
    assert (Hne : k <> "__proto__").
    { intros ->. apply Hfree. now left. }
    rewrite (store_field_other _ _ _ _ Hne) in Hrun. cbn [fst snd] in Hrun.
    apply (IH _ _ Hrun).
    + intros Hin. apply Hfree. now right.
    + now apply set_keys_distinct.
    + intros Hin. apply set_keys_In in Hin.
      destruct Hin as [Heq | Hin]; [congruence | tauto].
    + apply (set_values (fun x => translate_value x = Ok x)); auto.
      now apply translate_value_settled in Hv.
Qed.

Lemma translate_loop_fixed (entries translated : obj) (chain : bool) :
  ~ In "__proto__" (map fst entries) ->
  NoDup (map fst translated ++ map fst entries) ->
  Forall (fun kv => translate_value (snd kv) = Ok (snd kv)) entries ->
  translate_loop entries translated chain = Ok (translated ++ entries).
Proof.
  revert translated.
  induction entries as [|[k v] entries IH]; intros translated Hfree Hnd Hall.
  - simpl. now rewrite app_nil_r.
  - inversion Hall as [|? ? Hv Hall']; subst. simpl in Hv.
    assert (Hne : k <> "__proto__").
    { intros ->. apply Hfree. now left. }
    rewrite translate_loop_step, Hv, (store_field_other _ _ _ _ Hne).
    cbn [fst snd]. simpl in Hnd.
    assert (Hfresh : ~ In k (map fst translated)).
    { apply NoDup_remove_2 in Hnd. intros Hin. apply Hnd.
      apply in_or_app. now left. }
    rewrite (set_fresh translated k _ Hfresh).
    rewrite IH; auto.
    + now rewrite <- app_assoc.
    + intros Hin. apply Hfree. now right.
    + rewrite map_app, <- app_assoc. exact Hnd.
Qed.

Lemma translateQuery_unchanged_iff (o : obj) :
  NoDup (map fst o) ->
  (translateQuery (VObj o) = Ok (VObj o) <->
   ~ In "__proto__" (map fst o) /\
   forall key v, In (key, v) o -> first_key v <> Some "$like").
Proof.
  intros Hnd. split.
  - intros Hq.
    unfold translateQuery in Hq. cbn [Js.own_enumerable] in Hq.
    destruct (translate_loop o [] true) as [out|e] eqn:Hrun; inversion Hq; subst.
    clear Hq.
    assert (Hwt : forallb (fun kv => like_is_string (snd kv)) o = true).
    { destruct (forallb (fun kv => like_is_string (snd kv)) o) eqn:Hwt; auto.
      destruct (translate_loop_ill_typed o [] true Hwt) as [msg Hm]. congruence. }
    rewrite (translate_loop_well_typed o [] true Hwt Hnd) in Hrun
      by discriminate.
    simpl in Hrun. injection Hrun as Hmap.
    assert (Hno : ~ In "__proto__" (map fst o)).
    { apply lookup_None_notin. rewrite <- Hmap at 1.
      apply lookup_translated_proto. }
    split; [exact Hno|]. intros key v Hin Hk.
    assert (Hne : key <> "__proto__").
    { intros ->. apply Hno. apply (in_map fst) in Hin. exact Hin. }
    assert (Hl : Js.lookup key o = Some (translated_value v)).
    { rewrite <- Hmap at 1. now apply lookup_translated. }
    rewrite (lookup_In o key v Hnd Hin) in Hl. inversion Hl as [Hv].
    assert (Hs : like_is_string v = true).
    { rewrite forallb_forall in Hwt. apply (Hwt (key, v) Hin). }
    unfold like_is_string in Hs. rewrite Hk in Hs.
    cbn [String.eqb Ascii.eqb Bool.eqb] in Hs.
    destruct (Js.member v "$like") as [| | | |pattern| |] eqn:Hm;
      try discriminate Hs.
    unfold translated_value in Hv.
    rewrite (translate_value_like v pattern Hk Hm) in Hv.
    rewrite Hv in Hk. discriminate Hk.
  - intros [Hno Hfree]. unfold translateQuery. cbn [Js.own_enumerable].
    rewrite (translate_loop_fixed o [] true); auto.
    apply Forall_forall. intros [k v] Hin. simpl.
    apply translate_value_other. eapply Hfree. exact Hin.
Qed.

(** X8.  Translating is idempotent on a query without a field named
    [__proto__]: the filter the translator returned for it is translated to
    itself.  A query object is translated to itself exactly when it has no
    field named [__proto__] and none of its fields has [$like] as the first
    key of its value. *)
Theorem translateQuery_fixed_points :
  (forall query q,
      ~ In "__proto__" (Js.keys query) ->
      translateQuery query = Ok q -> translateQuery q = Ok q) /\
  (forall o : obj,
      NoDup (map fst o) ->
      (translateQuery (VObj o) = Ok (VObj o) <->
       ~ In "__proto__" (map fst o) /\
       forall key v, In (key, v) o -> first_key v <> Some "$like")).
Proof.
  split.
  - intros query q Hfree Hq. unfold translateQuery in Hq.
    destruct (translate_loop (Js.own_enumerable query) [] true)
      as [out|e] eqn:Hrun; inversion Hq; subst. clear Hq.
    destruct (translate_loop_settled _ _ _ _ Hrun Hfree)
      as (Hnd & Hno & Hall); [constructor|intros []|constructor|].
    unfold translateQuery. cbn [Js.own_enumerable].
    now rewrite (translate_loop_fixed out [] true).
  - apply translateQuery_unchanged_iff.
Qed.

Lemma translateQuery_fixed_points_witness :
  translateQuery
    (VObj [("name", VObj [("$regex", VStr "^ab.*c$"); ("$options", VStr "i")]);
           ("status", VStr "open")]) =
  Ok (VObj [("name", VObj [("$regex", VStr "^ab.*c$"); ("$options", VStr "i")]);
            ("status", VStr "open")]) /\
  (translateQuery Sample.open_tasks = Ok Sample.open_tasks <->
   ~ In "__proto__" (map fst [("status", VStr "open")]) /\
   forall key v, In (key, v) [("status", VStr "open")] ->
                 first_key v <> Some "$like").
Proof.
  split.
  - apply (proj1 translateQuery_fixed_points Sample.query_like_and_equality).
    + simpl. intuition discriminate.
    + reflexivity.
  - apply (proj2 translateQuery_fixed_points [("status", VStr "open")]).
    distinct_keys.
Defined.

(** ** Translation and store traffic *)

Section StoreTraffic.

Context {W : Type} {db : Db W} {coll : DbCollection W}.
Variable isOperator : value -> bool.

Import MigrateClientImpl.

Lemma map_result_raises {A B : Type} (f : A -> Result B) (l : list A) (x : A)
    (e : Err) :
  In x l -> f x = Throw e -> exists e', map_result f l = Throw e'.
Proof.
  intros Hin Hx. induction l as [|y l IH]; [destruct Hin|].
  simpl. destruct Hin as [->|Hin].
  - rewrite Hx. eauto.
  - destruct (f y); [|eauto]. destruct (IH Hin) as [e' ->]. eauto.
Qed.

(** X9.  [traverse], [find], [move], [update] and [bulk] translate the
    query before they call the store: when the translator raises, the
    method raises and no call has reached the store. *)
Theorem translation_precedes_store (w : W) (domain : string) (query : value)
    (e : Err) :
  translateQuery query = Throw e ->
  (forall options,
      traverse domain query options w = Some (Throw e, w, []) /\
      MigrateClientMethods.find domain query options w = (Throw e, w, [])) /\
  (forall fuel target,
      exists tr,
        move fuel domain query target w = Some (Throw e, w, tr) /\
        List.filter is_store_event tr = []) /\
  (forall operations,
      exists e' w' tr,
        update isOperator domain query operations w = Some (Throw e', w', tr) /\
        List.filter is_store_event tr = []) /\
  (forall items it,
      In it items -> filter it = query ->
      exists e', bulk domain items w = Some (Throw e', w, [])).
Proof.
  intros Hq. repeat split.
  - unfold traverse, bind, lift. now rewrite Hq.
  - unfold MigrateClientMethods.find, Method.bind, Method.lift. now rewrite Hq.
  - intros fuel target. unfold move, bind, logger_log, emit, lift. rewrite Hq.
    eexists. split; reflexivity.
  - intros operations. unfold update, bind at 1, now, call_total.
    destruct (date_now w) as [t w0].
    match goal with
    | |- context [try_finally ?b _] =>
        assert (Hbody : exists e', b w0 = Some (Throw e', w0, []))
    end.
    { destruct (isOperator operations).
      - unfold bind, lift. destruct (clear_marker_in_set operations); [|eauto].
        rewrite Hq. eauto.
      - unfold bind, lift. rewrite Hq. eauto. }
    destruct Hbody as [e' Hbody].
    destruct (finally_timing _ t domain query w0 w0 _ _ Hbody)
      as (w' & tr' & Hfin & Hquiet).
    rewrite Hfin. exists e', w'. eexists. split; [reflexivity|].
    simpl. exact Hquiet.
  - intros items it Hin Hit. unfold bulk, bind, lift.
    destruct (map_result_raises bulk_op items it e Hin) as [e' He'].
    { unfold bulk_op. now rewrite Hit, Hq. }
    rewrite He'. eauto.
Qed.

Lemma move_loop_deletes_nothing (cursor : CursorId) (target : string)
    (fuel : nat) :
  forall (w w' : W) (result : MigrationResult) (r : Result MigrationResult)
         (tr : list Event),
    move_loop fuel cursor target result w = Some (r, w', tr) ->
    existsb is_deleteMany tr = false.
Proof.
  induction fuel as [|fuel IH]; intros w w' result r tr Hrun; [discriminate|].
  cbn [move_loop] in Hrun.
  unfold bind at 1, cursor_next, call in Hrun.
  destruct (db_next cursor w) as [[doc|e] w1].
  - destruct (loosely_not_null doc).
    + unfold bind at 1, lift at 1 in Hrun.
      destruct (Js.in_op HASH doc) as [marked|e].
      * unfold bind at 1, insertOne, call in Hrun.
        match type of Hrun with
        | context [db_insertOne target ?d w1] =>
            destruct (db_insertOne target d w1) as [[u|e] w2]
        end.
        -- match type of Hrun with
           | context [move_loop fuel cursor target ?res w2] =>
               destruct (move_loop fuel cursor target res w2)
                 as [[[r' w3] tr']|] eqn:Hloop; [|discriminate]
           end.
           inversion Hrun; subst. simpl. eapply IH. exact Hloop.
        -- inversion Hrun; subst. reflexivity.
      * inversion Hrun; subst. reflexivity.
    + unfold ret in Hrun. inversion Hrun; subst. reflexivity.
  - inversion Hrun; subst. reflexivity.
Qed.

(** X10.  [move] deletes only after it has copied: when a run of [move]
    raises, whether in translating, in reading the cursor or in inserting,
    no [deleteMany] has been issued, unless the exception is the one the
    [deleteMany] call itself answered with. *)
Theorem move_fault_deletes_nothing (fuel : nat) (source target : string)
    (query : value) (w w' : W) (e : Err) (tr : list Event) :
  move fuel source query target w = Some (Throw e, w', tr) ->
  existsb is_deleteMany tr = false \/
  exists q tr0,
    translateQuery query = Ok q /\
    tr = tr0 ++ [EvDeleteMany source q (Throw e)] /\
    existsb is_deleteMany tr0 = false.
Proof.
  intros Hrun. unfold move, bind at 1, logger_log, emit in Hrun.
  unfold bind at 1, lift at 1 in Hrun.
  destruct (translateQuery query) as [q|e0];
    [|inversion Hrun; subst; now left].
  unfold bind at 1, find_cursor, call_total in Hrun.
  destruct (db_find source q w) as [cursor w1].
  unfold bind at 1 in Hrun.
  destruct (move_loop fuel cursor target (mkMigrationResult 0 0) w1)
    as [[[[r|e1] w2] tr1]|] eqn:Hloop; try discriminate.
  - apply move_loop_deletes_nothing in Hloop.
    unfold bind, deleteMany, call, ret in Hrun.
    destruct (db_deleteMany source q w2) as [[u|e2] w3];
      inversion Hrun; subst; clear Hrun.
    right. exists q.
    exists ([EvLog "move"
               (VObj [("sourceDomain", VStr source); ("query", query)]);
             EvFind source q cursor] ++ tr1).
    split; [reflexivity|]. split.
    + reflexivity.
    + rewrite existsb_app. simpl. exact Hloop.
  - apply move_loop_deletes_nothing in Hloop.
    inversion Hrun; subst. left. simpl. exact Hloop.
Qed.

(** X11.  [find] prepares its cursor with the calls [traverse] makes for
    the same arguments (the translated query, then [limit] and [sort] when
    the options have them), asks the store once for the whole result with
    [toArray], and returns what the store answers. *)
Theorem find_prepares_as_traverse (w : W) (domain : string) (query : value)
    (options : option FindOptions) :
  match traverse domain query options w with
  | Some (Ok cursor, w1, tr) =>
      MigrateClientMethods.find domain query options w =
      (fst (db_toArray cursor w1), snd (db_toArray cursor w1),
       map Recorded tr ++ [CallToArray cursor (fst (db_toArray cursor w1))])
  | Some (Throw e, w1, tr) =>
      MigrateClientMethods.find domain query options w =
      (Throw e, w1, map Recorded tr)
  | None => False
  end.
Proof.
  unfold traverse, MigrateClientMethods.find.
  unfold bind at 1, lift at 1, Method.bind at 1, Method.lift at 1.
  destruct (translateQuery query) as [q|e]; [|reflexivity].
  unfold bind at 1, find_cursor, call_total at 1,
    Method.bind at 1, Method.call_total at 1.
  destruct (db_find domain q w) as [c0 w0].
  destruct options as [[[n|] [s|]]|];
    cbn [limit sort]; unfold bind, cursor_limit, cursor_sort, call_total, ret,
      Method.bind, Method.call_total, Method.ret, Method.call, sort_spec.
  - destruct (db_limit c0 n w0) as [c1 w1].
    destruct (db_sort c1 _ w1) as [c2 w2].
    destruct (db_toArray c2 w2) as [r w3]. destruct r; reflexivity.
  - destruct (db_limit c0 n w0) as [c1 w1].
    destruct (db_toArray c1 w1) as [r w3]. destruct r; reflexivity.
  - destruct (db_sort c0 _ w0) as [c2 w2].
    destruct (db_toArray c2 w2) as [r w3]. destruct r; reflexivity.
  - destruct (db_toArray c0 w0) as [r w3]. destruct r; reflexivity.
  - destruct (db_toArray c0 w0) as [r w3]. destruct r; reflexivity.
Qed.

(** X14.  [deleteMany] hands the query to the store as it is, without the
    translation the other methods apply: the store receives the [$like]
    operators of the query, not regular expressions, and a query on which
    the translator raises is sent all the same. *)
Theorem deleteMany_sends_query_untranslated (w : W) (domain : string)
    (query : value) :
  (exists r w',
      db_deleteMany domain query w = (r, w') /\
      MigrateClientMethods.deleteMany domain query w =
      (r, w', [Recorded (EvDeleteMany domain query r)])) /\
  (forall key v,
      NoDup (Js.keys query) ->
      In (key, v) (Js.own_enumerable query) ->
      first_key v = Some "$like" ->
      translateQuery query <> Ok query).
Proof.
  split.
  - unfold MigrateClientMethods.deleteMany, Method.call.
    destruct (db_deleteMany domain query w) as [r w']. eauto.
  - intros key v Hnd Hin Hk Hq.
    destruct query as [| | | |s|items|o].
    1-4: destruct Hin.
    1-2: unfold translateQuery in Hq;
      match type of Hq with
      | context [translate_loop ?en ?acc ?ch] =>
          destruct (translate_loop en acc ch)
      end; discriminate Hq.
    exact (proj2 (proj1 (translateQuery_unchanged_iff o Hnd) Hq) key v Hin Hk).
Qed.

End StoreTraffic.

(** ** Inserting, finding and deleting on the in-memory store *)

Section MemRoundTrips.

Import MemStore MemCollection.

Variable matches : value -> value -> bool.
Variable order : list (string * Z) -> list value -> list value.

Let mem : Db Mem := mem_db matches order.
Let memc : DbCollection Mem := mem_collection matches.
Existing Instance mem.
Existing Instance memc.

Import MigrateClientMethods.

Lemma nth_error_last {A : Type} (l : list A) (x : A) :
  nth_error (l ++ [x]) (List.length l) = Some x.
Proof. induction l as [|a l IH]; simpl; auto. Qed.

Lemma find_mem (w : Mem) (domain : string) (query q : value) :
  translateQuery query = Ok q ->
  fst (fst (find domain query None w)) =
  Ok (List.filter (matches q) (collection domain (collections w))).
Proof.
  intros Hq. unfold find, Method.bind, Method.lift, Method.call_total,
    Method.ret, Method.call. rewrite Hq.
  cbn [db_find mem mem_db db_toArray memc mem_collection].
  unfold mem_find, mem_toArray. cbn [cursors with_cursors collections].
  now rewrite nth_error_last.
Qed.

Lemma create_mem (w : Mem) (domain : string) (doc : value) :
  fst (fst (create domain doc w)) = Ok tt /\
  forall d,
    collection d (collections (snd (fst (create domain doc w)))) =
    if String.eqb d domain
    then collection domain (collections w) ++ created doc
    else collection d (collections w).
Proof.
  assert (Hins : forall docs d,
             collection d
               (set_collection domain (collection domain (collections w) ++ docs)
                  (collections w)) =
             if String.eqb d domain
             then collection domain (collections w) ++ docs
             else collection d (collections w)).
  { intros docs d. destruct (String.eqb d domain) eqn:E.
    - apply String.eqb_eq in E. subst. apply collection_set_same.
    - apply String.eqb_neq in E. now apply collection_set_other. }
  unfold create, created.
  destruct doc as [| | | | |items|]; try (split; [reflexivity|apply Hins]).
  destruct items as [|d0 items].
  - split; [reflexivity|]. intros d. simpl. rewrite app_nil_r.
    destruct (String.eqb d domain) eqn:E; [|reflexivity].
    apply String.eqb_eq in E. now subst.
  - split; [reflexivity|]. apply Hins.
Qed.


Lemma remove_first_last (p : value -> bool) (docs : list value) (d : value) :
  (forall x, In x docs -> p x = false) -> p d = true ->
  remove_first p (docs ++ [d]) = docs.
Proof.
  intros Hnone Hd. induction docs as [|x docs IH]; simpl.
  - now rewrite Hd.
  - rewrite (Hnone x) by now left. f_equal. apply IH.
    intros y Hy. apply Hnone. now right.
Qed.

(** X13.  On the in-memory store [delete] undoes [create]: when no
    document of the domain is selected by [{_id: id}], creating a document
    that is and then deleting [id] leaves every collection with the
    documents it had. *)
Theorem create_then_delete (w : Mem) (domain : string) (doc id : value) :
  is_document doc = true ->
  matches (VObj [("_id", id)]) doc = true ->
  (forall d, In d (collection domain (collections w)) ->
             matches (VObj [("_id", id)]) d = false) ->
  let w1 := snd (fst (create domain doc w)) in
  let w2 := snd (fst (delete domain id w1)) in
  fst (fst (delete domain id w1)) = Ok tt /\
  forall d, collection d (collections w2) = collection d (collections w).
Proof.
  intros Hdoc Hmatch Hnone w1 w2.
  split; [reflexivity|]. intros d.
  destruct (create_mem w domain doc) as [_ Hcoll].
  unfold w2, delete, Method.call.
  cbn [db_deleteOne memc mem_collection]. unfold mem_deleteOne.
  cbn [fst snd collections with_collections].
  fold w1.
  destruct (String.eqb d domain) eqn:E.
  - apply String.eqb_eq in E. subst d. rewrite collection_set_same.
    unfold w1. rewrite Hcoll, String.eqb_refl.
    destruct doc as [| | | | | |o]; try discriminate Hdoc.
    cbn [created]. now apply remove_first_last.
  - apply String.eqb_neq in E. rewrite collection_set_other by exact E.
    unfold w1. rewrite Hcoll. apply String.eqb_neq in E. now rewrite E.
Qed.

Lemma filter_documents (p : value -> bool) (docs : list value) :
  forallb is_document docs = true ->
  forallb is_document (List.filter p docs) = true.
Proof.
  induction docs as [|d docs IH]; simpl; intros H; [reflexivity|].
  apply andb_true_iff in H. destruct H as [Hd Hdocs].
  destruct (p d); simpl; [rewrite Hd|]; auto.
Qed.

(** X24.  On the in-memory store the iterator and [find] agree: for a
    collection of documents, one pull [next(n)] on the iterator that
    [traverse] returns, with [n] at least the number of documents the query
    selects, returns exactly the array [find] returns for the same query. *)
Theorem traverse_pulls_what_find_returns (w : Mem) (domain : string)
    (query q : value) (size : Z) :
  translateQuery query = Ok q ->
  forallb is_document (collection domain (collections w)) = true ->
  (Z.of_nat (List.length
               (List.filter (matches q) (collection domain (collections w))))
   <= size)%Z ->
  exists docs cursor w1 tr1 w2 tr2,
    fst (fst (find domain query None w)) = Ok docs /\
    MigrateClientImpl.traverse domain query None w = Some (Ok cursor, w1, tr1) /\
    MigrateClientImpl.next cursor size w1 = Some (Ok (Some docs), w2, tr2).
Proof.
  intros Hq Hdocs Hsize.
  set (docs := List.filter (matches q) (collection domain (collections w))) in *.
  exists docs. unfold MigrateClientImpl.traverse, bind, lift,
    MigrateClientImpl.find_cursor, call_total, ret.
  rewrite Hq. cbn [db_find mem mem_db]. unfold mem_find. fold docs.
  eexists _, _, _.
  destruct (next_loop_mem matches order (List.length (cursors w)) size
              (Z.to_nat size) docs []
              (with_cursors w (cursors w ++ [docs])))
    as (w2 & tr2 & Hrun & _).
  { cbn [cursors with_cursors]. apply nth_error_last. }
  { now apply filter_documents. }
  { simpl. lia. }
  exists w2, tr2. split; [now apply find_mem|]. split; [reflexivity|].
  unfold MigrateClientImpl.next, MigrateClientImpl.next_sized, mem.
  rewrite Hrun. cbn [app List.length].
  rewrite Z.sub_0_r, firstn_all2; [reflexivity|]. lia.
Qed.

End MemRoundTrips.

(** ** Indexed content *)

Section ContentProperties.

Import FullTextContent.

Variable isMixin : string -> bool.

Lemma entry_put_same (attrs : Entries) (key : string) (e : Entry) :
  entry key (put attrs key e) = Some e.
Proof.
  induction attrs as [|[k e'] attrs IH]; simpl.
  - now rewrite String.eqb_refl.
  - destruct (String.eqb key k) eqn:E; simpl; rewrite E; auto.
Qed.

Lemma entry_put_other (attrs : Entries) (key key' : string) (e : Entry) :
  key' <> key -> entry key' (put attrs key e) = entry key' attrs.
Proof.
  intros Hne. induction attrs as [|[k e'] attrs IH]; simpl.
  - apply String.eqb_neq in Hne. now rewrite Hne.
  - destruct (String.eqb key k) eqn:E; simpl.
    + apply String.eqb_eq in E. subst k.
      apply String.eqb_neq in Hne. now rewrite Hne.
    + now rewrite IH.
Qed.

Lemma put_keys (attrs : Entries) (key : string) (e : Entry) :
  forall k, In k (map fst (put attrs key e)) -> k = key \/ In k (map fst attrs).
Proof.
  induction attrs as [|[k0 e0] attrs IH]; simpl; intros k Hin.
  - destruct Hin as [<-|[]]. now left.
  - destruct (String.eqb key k0) eqn:E; simpl in Hin.
    + right. exact Hin.
    + destruct Hin as [<-|Hin]; [right; now left|].
      destruct (IH k Hin); auto.
Qed.

Lemma put_distinct (attrs : Entries) (key : string) (e : Entry) :
  NoDup (map fst attrs) -> NoDup (map fst (put attrs key e)).
Proof.
  intros Hnd. induction attrs as [|[k0 e0] attrs IH]; simpl.
  - constructor; [intros []|constructor].
  - inversion Hnd as [|? ? Hnotin Hnd']; subst.
    destruct (String.eqb key k0) eqn:E; simpl; [now constructor|].
    constructor; [|auto]. intros Hin.
    destruct (put_keys _ _ _ _ Hin) as [->|Hin']; [|auto].
    now rewrite String.eqb_refl in E.
Qed.

Lemma entry_assign_same (attrs : Entries) (key : string) (e : Entry) :
  key <> "__proto__" -> entry key (assign_entry attrs key e) = Some e.
Proof.
  intros Hne. unfold assign_entry. apply String.eqb_neq in Hne. rewrite Hne.
  apply entry_put_same.
Qed.

Lemma entry_assign_other (attrs : Entries) (key key' : string) (e : Entry) :
  key' <> key -> entry key' (assign_entry attrs key e) = entry key' attrs.
Proof.
  intros Hne. unfold assign_entry.
  destruct (String.eqb key "__proto__"); [reflexivity|].
  now apply entry_put_other.
Qed.

Lemma entry_assign_proto (attrs : Entries) (key : string) (e : Entry) :
  entry "__proto__" attrs = None ->
  entry "__proto__" (assign_entry attrs key e) = None.
Proof.
  intros Hnone. unfold assign_entry.
  destruct (String.eqb key "__proto__") eqn:E; [exact Hnone|].
  rewrite entry_put_other; [exact Hnone|].
  intros Heq. rewrite <- Heq in E. discriminate E.
Qed.

Lemma assign_distinct (attrs : Entries) (key : string) (e : Entry) :
  NoDup (map fst attrs) -> NoDup (map fst (assign_entry attrs key e)).
Proof.
  intros Hnd. unfold assign_entry.
  destruct (String.eqb key "__proto__"); [exact Hnd|].
  now apply put_distinct.
Qed.

(** One turn of the loop files the attribute with the text of its field
    under its key. *)
Lemma content_step_files (doc : obj) (attrs : Entries) (attr : AnyAttribute) :
  content_step isMixin doc attrs attr =
  match content_text isMixin doc attr with
  | Some text =>
      Some (assign_entry attrs (content_key isMixin attr)
              (mkEntry (VStr text) attr))
  | None => None
  end.
Proof.
  unfold content_step, content_text, content_key, content_field.
  destruct (isMixin (attributeOf attr)).
  - destruct (JsChain.member doc (attributeOf attr)) as [part|]; [|reflexivity].
    destruct (JsChain.optional_read part (name attr)) as [field|];
      [|reflexivity].
    unfold JsChain.optional_toString.
    destruct field; try reflexivity;
      match goal with
      | |- context [JsChain.builtin_toString ?v] =>
          destruct (JsChain.builtin_toString v); reflexivity
      end.
  - destruct (JsChain.member doc (name attr)) as [field|]; [|reflexivity].
    unfold JsChain.optional_toString.
    destruct field; try reflexivity;
      match goal with
      | |- context [JsChain.builtin_toString ?v] =>
          destruct (JsChain.builtin_toString v); reflexivity
      end.
Qed.

Lemma content_fold_none (doc : obj) (attributes : list AnyAttribute) :
  fold_left
    (fun attrs attr =>
       match attrs with
       | Some attrs => content_step isMixin doc attrs attr
       | None => None
       end) attributes None = None.
Proof. induction attributes as [|a attributes IH]; [reflexivity | exact IH]. Qed.

Lemma content_fold_defined (doc : obj) (attributes : list AnyAttribute) :
  forall acc : Entries,
    fold_left
      (fun attrs attr =>
         match attrs with
         | Some attrs => content_step isMixin doc attrs attr
         | None => None
         end) attributes (Some acc) <> None <->
    (forall attr, In attr attributes -> content_text isMixin doc attr <> None).
Proof.
  induction attributes as [|a attributes IH]; intros acc; cbn [fold_left].
  - split; [intros _ attr [] | discriminate].
  - rewrite content_step_files.
    destruct (content_text isMixin doc a) as [text|] eqn:Ha.
    + rewrite IH. split.
      * intros H attr [<-|Hin]; [congruence | auto].
      * intros H attr Hin. apply H. now right.
    + rewrite content_fold_none. split; [congruence|].
      intros H. exfalso. apply (H a); [now left | exact Ha].
Qed.

Lemma content_fold (doc : obj) (attributes : list AnyAttribute) :
  forall acc result : Entries,
    fold_left
      (fun attrs attr =>
         match attrs with
         | Some attrs => content_step isMixin doc attrs attr
         | None => None
         end) attributes (Some acc) = Some result ->
    NoDup (map fst acc) ->
    entry "__proto__" acc = None ->
    NoDup (map fst result) /\
    entry "__proto__" result = None /\
    (forall key e, entry key result = Some e ->
                   entry key acc = Some e \/
                   (In (entry_attr e) attributes /\
                    content_key isMixin (entry_attr e) = key /\
                    content_text isMixin doc (entry_attr e) =
                    Some (Js.to_string (entry_value e)) /\
                    entry_value e = VStr (Js.to_string (entry_value e)))) /\
    (forall key, entry key acc <> None -> entry key result <> None) /\
    (forall attr, In attr attributes ->
                  content_key isMixin attr <> "__proto__" ->
                  entry (content_key isMixin attr) result <> None) /\
    (forall key,
        (forall a, In a attributes -> content_key isMixin a <> key) ->
        entry key result = entry key acc).
Proof.
  induction attributes as [|a attributes IH]; intros acc result Hrun Hnd Hno;
    cbn [fold_left] in Hrun.
  - inversion Hrun; subst. split; [exact Hnd|]. split; [exact Hno|].
    split; [intros key e He; now left|].
    split; [auto|]. split; [intros attr []|reflexivity].
  - rewrite content_step_files in Hrun.
    destruct (content_text isMixin doc a) as [text|] eqn:Ha;
      [|rewrite content_fold_none in Hrun; discriminate Hrun].
    set (e0 := mkEntry (VStr text) a) in *.
    destruct (IH _ _ Hrun) as (Hnd' & Hno' & Hfrom & Hkeep & Hall & Hsame).
    { now apply assign_distinct. }
    { now apply entry_assign_proto. }
    split; [exact Hnd'|]. split; [exact Hno'|]. split; [|split; [|split]].
    + intros key e He. destruct (Hfrom key e He) as [Hacc|(Hin & Hk & Hv)].
      * destruct (string_dec key (content_key isMixin a)) as [->|Hne].
        -- assert (Hkey : content_key isMixin a <> "__proto__").
           { intros Heq. rewrite Heq in Hacc.
             rewrite entry_assign_proto in Hacc by exact Hno.
             discriminate Hacc. }
           rewrite entry_assign_same in Hacc by exact Hkey.
           inversion Hacc; subst e. right. unfold e0. cbn [entry_attr entry_value].
           split; [now left|]. split; [reflexivity|]. split; [exact Ha|reflexivity].
        -- rewrite entry_assign_other in Hacc by exact Hne. now left.
      * right. split; [now right|]. split; [exact Hk | exact Hv].
    + intros key Hkey. apply Hkeep.
      destruct (string_dec key (content_key isMixin a)) as [->|Hne].
      * rewrite entry_assign_same; [discriminate|].
        intros Heq. rewrite Heq in Hkey. congruence.
      * now rewrite entry_assign_other.
    + intros attr [<-|Hin] Hkey; [|now apply Hall].
      apply Hkeep. rewrite entry_assign_same by exact Hkey. discriminate.
    + intros key Hfree. rewrite Hsame.
      * apply entry_assign_other. intros Heq. apply (Hfree a); [now left|auto].
      * intros a' Hin. apply Hfree. now right.
Qed.

(** X15.  [getContent] on a document whose fields can be read and printed:
    every attribute names an own field of the document, or of the mixin's
    part of it, or nothing at all (not a member the object inherits, such
    as [constructor]), the mixin's part is an object when it is there, and
    no value has a [toString] property of its own.  [getContent] then files
    every attribute under its key, the attribute name, or [mixin.name] for
    an attribute of a mixin, with the text of the document's field; keys
    are pairwise distinct, and of several attributes with the same key the
    last one stands.  An attribute named [__proto__] is not filed: no
    property of the result has that name.  The text is empty for a field
    that is absent or [null], in particular when the document does not
    carry the mixin at all, and is the printed value otherwise. *)
Theorem getContent_entries (attributes : list AnyAttribute) (doc : obj) :
  (getContent isMixin attributes doc <> None <->
   forall attr, In attr attributes -> content_text isMixin doc attr <> None) /\
  (forall result,
      getContent isMixin attributes doc = Some result ->
      NoDup (map fst result) /\
      entry "__proto__" result = None /\
      (forall attr, In attr attributes ->
          content_key isMixin attr <> "__proto__" ->
          exists e, entry (content_key isMixin attr) result = Some e) /\
      (forall key e, entry key result = Some e ->
          In (entry_attr e) attributes /\
          content_key isMixin (entry_attr e) = key /\
          exists text,
            content_text isMixin doc (entry_attr e) = Some text /\
            entry_value e = VStr text) /\
      (forall front attr back,
          attributes = front ++ attr :: back ->
          (forall a, In a back ->
                     content_key isMixin a <> content_key isMixin attr) ->
          content_key isMixin attr <> "__proto__" ->
          exists text,
            content_text isMixin doc attr = Some text /\
            entry (content_key isMixin attr) result =
            Some (mkEntry (VStr text) attr))) /\
  (forall attr v,
      isMixin (attributeOf attr) = false ->
      Js.lookup (name attr) doc = Some v ->
      JsChain.builtin_toString v = true ->
      content_text isMixin doc attr = Some (printed v)) /\
  (forall attr part v,
      isMixin (attributeOf attr) = true ->
      Js.lookup (attributeOf attr) doc = Some (VObj part) ->
      Js.lookup (name attr) part = Some v ->
      JsChain.builtin_toString v = true ->
      content_text isMixin doc attr = Some (printed v)) /\
  (forall attr,
      isMixin (attributeOf attr) = false ->
      Js.lookup (name attr) doc = None ->
      JsChain.inherited (name attr) = false ->
      content_text isMixin doc attr = Some EmptyString) /\
  (forall attr,
      isMixin (attributeOf attr) = true ->
      Js.lookup (attributeOf attr) doc = None ->
      JsChain.inherited (attributeOf attr) = false ->
      content_text isMixin doc attr = Some EmptyString) /\
  (forall attr,
      isMixin (attributeOf attr) = false ->
      Js.lookup (name attr) doc = None ->
      JsChain.inherited (name attr) = true ->
      content_text isMixin doc attr = None).
Proof.
  split; [apply content_fold_defined|]. split; [|split; [|split; [|split; [|split]]]].
  - intros result Hrun. unfold getContent in Hrun.
    destruct (content_fold doc attributes [] result Hrun (NoDup_nil _) eq_refl)
      as (Hnd & Hno & Hfrom & _ & Hall & _).
    split; [exact Hnd|]. split; [exact Hno|]. split; [|split].
    + intros attr Hin Hkey. specialize (Hall attr Hin Hkey).
      destruct (entry (content_key isMixin attr) result) as [e|];
        [eauto|congruence].
    + intros key e He.
      destruct (Hfrom key e He) as [Hacc|(Hin & Hk & Ht & Hv)];
        [discriminate Hacc|].
      split; [exact Hin|]. split; [exact Hk|]. eauto.
    + intros front attr back -> Hback Hkey.
      rewrite fold_left_app in Hrun. cbn [fold_left] in Hrun.
      match type of Hrun with
      | context [fold_left ?f front (Some [])] =>
          destruct (fold_left f front (Some [])) as [mid|] eqn:Hfront
      end; [|rewrite content_fold_none in Hrun; discriminate Hrun].
      rewrite content_step_files in Hrun.
      destruct (content_text isMixin doc attr) as [text|];
        [|rewrite content_fold_none in Hrun; discriminate Hrun].
      exists text. split; [reflexivity|].
      destruct (content_fold doc front [] mid Hfront (NoDup_nil _) eq_refl)
        as (Hndm & Hnom & _).
      destruct (content_fold doc back _ result Hrun) as (_ & _ & _ & _ & _ & Hsame).
      { now apply assign_distinct. }
      { now apply entry_assign_proto. }
      rewrite Hsame by exact Hback. now apply entry_assign_same.
  - intros attr v Hm Hv Hb. unfold content_text, content_field, JsChain.member.
    now rewrite Hm, Hv, Hb.
  - intros attr part v Hm Hp Hv Hb.
    unfold content_text, content_field, JsChain.member.
    rewrite Hm, Hp. cbn [JsChain.optional_read]. unfold JsChain.member.
    now rewrite Hv, Hb.
  - intros attr Hm Hnone Hi. unfold content_text, content_field, JsChain.member.
    now rewrite Hm, Hnone, Hi.
  - intros attr Hm Hnone Hi. unfold content_text, content_field, JsChain.member.
    now rewrite Hm, Hnone, Hi.
  - intros attr Hm Hnone Hi. unfold content_text, content_field, JsChain.member.
    now rewrite Hm, Hnone, Hi.
Qed.

End ContentProperties.

Lemma getContent_entries_witness :
  FullTextContent.getContent Sample.mixin
    [FullTextContent.mkAnyAttribute "Issue" "title";
     FullTextContent.mkAnyAttribute "Tagged" "label";
     FullTextContent.mkAnyAttribute "Issue" "votes"]
    [("title", VStr "Crash"); ("votes", VNum 3)] =
  Some [("title", FullTextContent.mkEntry (VStr "Crash")
                    (FullTextContent.mkAnyAttribute "Issue" "title"));
        ("Tagged.label", FullTextContent.mkEntry (VStr EmptyString)
                           (FullTextContent.mkAnyAttribute "Tagged" "label"));
        ("votes", FullTextContent.mkEntry (VStr "3")
                    (FullTextContent.mkAnyAttribute "Issue" "votes"))] /\
  exists text,
    FullTextContent.content_text Sample.mixin
      [("title", VStr "Crash"); ("votes", VNum 3)]
      (FullTextContent.mkAnyAttribute "Tagged" "label") = Some text /\
    FullTextContent.entry "Tagged.label"
      [("title", FullTextContent.mkEntry (VStr "Crash")
                   (FullTextContent.mkAnyAttribute "Issue" "title"));
       ("Tagged.label", FullTextContent.mkEntry (VStr EmptyString)
                          (FullTextContent.mkAnyAttribute "Tagged" "label"));
       ("votes", FullTextContent.mkEntry (VStr "3")
                   (FullTextContent.mkAnyAttribute "Issue" "votes"))] =
    Some (FullTextContent.mkEntry (VStr text)
            (FullTextContent.mkAnyAttribute "Tagged" "label")).
Proof.
  split; [reflexivity|].
  apply (proj2 (proj2 (proj2 (proj2
           (proj1 (proj2
              (getContent_entries Sample.mixin
                 [FullTextContent.mkAnyAttribute "Issue" "title";
                  FullTextContent.mkAnyAttribute "Tagged" "label";
                  FullTextContent.mkAnyAttribute "Issue" "votes"]
                 [("title", VStr "Crash"); ("votes", VNum 3)]))
              _ eq_refl))))
           [FullTextContent.mkAnyAttribute "Issue" "title"]
           (FullTextContent.mkAnyAttribute "Tagged" "label")
           [FullTextContent.mkAnyAttribute "Issue" "votes"] eq_refl).
  - intros a [<-|[]]. discriminate.
  - discriminate.
Defined.

(** ** New index state documents *)

Lemma assign_lookup (b : obj) :
  forall (a : obj) (k : string),
    NoDup (map fst b) ->
    Js.lookup k (Js.assign a b) =
    match Js.lookup k b with
    | Some v => Some v
    | None => Js.lookup k a
    end.
Proof.
  unfold Js.assign.
  induction b as [|[k0 v0] b IH]; intros a k Hnd; [reflexivity|].
  inversion Hnd as [|? ? Hnotin Hnd']; subst.
  cbn [fold_left fst snd Js.lookup]. rewrite IH by exact Hnd'.
  destruct (String.eqb k k0) eqn:E.
  - apply String.eqb_eq in E. subst k0.
    apply lookup_None_notin in Hnotin. rewrite Hnotin.
    apply lookup_set_same.
  - destruct (Js.lookup k b); [reflexivity|].
    apply lookup_set_other. intros ->. now rewrite String.eqb_refl in E.
Qed.

(** X16.  In the document [createStateDoc] builds, every property of
    [data] stands with the value [data] gives it, the properties the
    function computes ([_class], [_id], [space], [objectClass],
    [modifiedBy], [modifiedOn]) included; a computed value, the default
    space among them, stands only under a key [data] does not own.  So
    [data] with a [space] property that is [undefined] or [null] gives a
    document without the default space. *)
Theorem createStateDoc_fields (cl space account : string) (now : Z)
    (id objectClass : string) (data : obj) :
  NoDup (map fst data) ->
  let doc := createStateDoc cl space account now id objectClass data in
  (forall k v, Js.lookup k data = Some v -> Js.lookup k doc = Some v) /\
  (forall k,
      Js.lookup k data = None ->
      Js.lookup k doc =
      Js.lookup k [("_class", VStr cl); ("_id", VStr id); ("space", VStr space);
                   ("objectClass", VStr objectClass);
                   ("modifiedBy", VStr account); ("modifiedOn", VNum now)]) /\
  (forall v, Js.lookup "space" data = Some v -> Js.get doc "space" = v).
Proof.
  intros Hnd doc. unfold doc, createStateDoc. repeat split.
  - intros k v Hk. now rewrite assign_lookup, Hk.
  - intros k Hk. rewrite assign_lookup, Hk by exact Hnd.
    destruct (String.eqb k "space") eqn:E.
    + apply String.eqb_eq in E. subst k. unfold Js.get. rewrite Hk. reflexivity.
    + cbn [Js.lookup]. rewrite E. reflexivity.
  - intros v Hk. unfold Js.get at 1. now rewrite assign_lookup, Hk.
Qed.

Lemma createStateDoc_fields_witness :
  let doc := createStateDoc "core:class:DocIndexState" "space:DocIndexState"
               "core:account:System" 42 "doc-1" "tracker:class:Issue"
               [("stages", VObj []); ("space", VNull)] in
  Js.lookup "stages" doc = Some (VObj []) /\
  Js.lookup "_id" doc = Some (VStr "doc-1") /\
  Js.get doc "space" = VNull.
Proof.
  intros doc.
  pose proof (createStateDoc_fields "core:class:DocIndexState"
                "space:DocIndexState" "core:account:System" 42 "doc-1"
                "tracker:class:Issue" [("stages", VObj []); ("space", VNull)])
    as H.
  destruct H as (Hdata & Hcomputed & Hspace); [distinct_keys|].
  split; [apply Hdata; reflexivity|].
  split; [apply (Hcomputed "_id"); reflexivity|].
  apply Hspace. reflexivity.
Defined.

(** ** Repeated calls of [loadIndexStageStage] *)

Lemma value_deep_ind (P : value -> Prop) :
  P VUndefined -> P VNull -> (forall b, P (VBool b)) ->
  (forall n, P (VNum n)) -> (forall s, P (VStr s)) ->
  (forall items, Forall P items -> P (VArr items)) ->
  (forall props, Forall (fun kv => P (snd kv)) props -> P (VObj props)) ->
  forall v, P v.
Proof.
  intros Hu Hn Hb Hz Hs Ha Ho.
  fix IH 1. intros [| | b | n | s | items | props].
  - exact Hu.
  - exact Hn.
  - apply Hb.
  - apply Hz.
  - apply Hs.
  - apply Ha.
    exact ((fix all (l : list value) : Forall P l :=
              match l with
              | [] => Forall_nil P
              | x :: l' => Forall_cons x (IH x) (all l')
              end) items).
  - apply Ho.
    exact ((fix all (l : list (string * value))
              : Forall (fun kv => P (snd kv)) l :=
              match l with
              | [] => Forall_nil _
              | kv :: l' => Forall_cons kv (IH (snd kv)) (all l')
              end) props).
Qed.

Lemma distinct_NoDup (l : list string) : distinct l = true -> NoDup l.
Proof.
  induction l as [|k l IH]; simpl; intros H; [constructor|].
  apply andb_true_iff in H. destruct H as [Hk Hl].
  constructor; [|auto]. intros Hin.
  apply negb_true_iff in Hk.
  assert (Hex : existsb (String.eqb k) l = true).
  { apply existsb_exists. exists k. split; [exact Hin|apply String.eqb_refl]. }
  congruence.
Qed.

(** A well-formed value is deeply equal to itself. *)
Lemma deepEqual_refl (v : value) : well_formed v = true -> deepEqual v v = true.
Proof.
  induction v as [| | b | n | s | items IH | props IH] using value_deep_ind;
    intros Hwf; cbn [deepEqual].
  - reflexivity.
  - reflexivity.
  - apply Bool.eqb_reflx.
  - apply Z.eqb_refl.
  - apply String.eqb_refl.
  - cbn [well_formed] in Hwf.
    induction items as [|x items IHl]; [reflexivity|].
    simpl in Hwf. apply andb_true_iff in Hwf. destruct Hwf as [Hx Hl].
    inversion IH; subst. apply andb_true_iff. split; auto.
  - cbn [well_formed] in Hwf. apply andb_true_iff in Hwf.
    destruct Hwf as [Hd Hl]. apply distinct_NoDup in Hd.
    rewrite Nat.eqb_refl. cbn [andb].
    match goal with
    | |- ?F props = true =>
        assert (Hgen : forall xs, incl xs props ->
                                  Forall (fun kv => deepEqual (snd kv) (snd kv) = true) xs ->
                                  F xs = true)
    end.
    { induction xs as [|[k x] xs IHxs]; intros Hincl Hall; [reflexivity|].
      rewrite (lookup_In props k x Hd) by (apply Hincl; now left).
      inversion Hall; subst. simpl in *. apply andb_true_iff. split; [assumption|].
      apply IHxs; [|assumption]. intros y Hy. apply Hincl. now right. }
    apply Hgen; [apply incl_refl|].
    rewrite forallb_forall in Hl. rewrite Forall_forall in IH.
    apply Forall_forall. intros kv Hin. apply IH; auto.
Qed.

Section RepeatedCalls.

Variable core_class_IndexStageState : string.
Variable plugin_space_DocIndexState : string.
Variable core_account_System : string.

Context {S : Type} {storage : StageStorage S}.

Let load := loadIndexStageStage (storage := storage) core_class_IndexStageState
              plugin_space_DocIndexState core_account_System.

Lemma prior_state_again (st : S) (state : option IndexStageState) (sid : string) :
  prior_state st (prior_state st state sid) sid = prior_state st state sid.
Proof.
  unfold prior_state. destruct state as [s|]; [reflexivity|].
  destruct (hd_error (findAll sid st)); reflexivity.
Qed.

Lemma successor_defined (v : value) :
  Js.not_undefined (Js.nullish_zero_plus_one v) = true.
Proof. destruct v as [| |[|]| | | |]; reflexivity. Qed.

(** X17.  A call of [loadIndexStageStage] settles its field: calling again
    with the state it returned, on the storage it left, for the same field
    and value, writes nothing and returns the same index and the same
    state. *)
Theorem loadIndexStageStage_settles (st st' : S)
    (state state' : option IndexStageState) (sid field : string)
    (newValue r : value) :
  field <> "index" ->
  well_formed newValue = true ->
  load st state sid field newValue = (r, state', st') ->
  load st' state' sid field newValue = (r, state', st').
Proof.
  intros Hfield Hwf Hrun. unfold load in *.
  destruct (deepEqual
              (Js.get (prior_attributes (prior_state st state sid)) field)
              newValue) eqn:Heq.
  - rewrite (load_unchanged _ _ _ st state sid field newValue Heq) in Hrun.
    inversion Hrun; subst. clear Hrun.
    rewrite (load_unchanged _ _ _ st' (prior_state st' state sid) sid field
               newValue);
      rewrite prior_state_again; auto.
  - destruct (load_changed_any core_class_IndexStageState
                plugin_space_DocIndexState core_account_System
                st state sid field newValue Heq)
      as (s1 & Hcall & _ & _ & Hattrs).
    rewrite Hcall in Hrun. inversion Hrun; subst. clear Hrun.
    cbn [data_attributes] in Hattrs.
    assert (Hget : Js.get (attributes s1) field = newValue).
    { rewrite Hattrs. unfold Js.get.
      rewrite lookup_set_other by exact Hfield. simpl.
      now rewrite String.eqb_refl. }
    assert (Hidx : Js.get (attributes s1) "index" =
                   Js.nullish_zero_plus_one
                     (Js.get (prior_attributes (prior_state st state sid)) "index")).
    { rewrite Hattrs. unfold Js.get. now rewrite lookup_set_same. }
    rewrite (load_unchanged _ _ _ _ (Some s1) sid field newValue);
      cbn [prior_state prior_attributes].
    + now rewrite Hidx, successor_defined.
    + rewrite Hget. now apply deepEqual_refl.
Qed.


End RepeatedCalls.

(** ** The account service *)

Section AccountProperties.

Import AccountService.

Lemma slice_app (p t : string) : slice (String.length p) (p ++ t) = t.
Proof. induction p as [|c p IH]; simpl; auto. Qed.

Lemma slice_short (n : nat) (s : string) :
  (String.length s <= n)%nat -> slice n s = EmptyString.
Proof.
  revert s. induction n as [|n IH]; intros [|c s] Hlen; simpl in *;
    try reflexivity; try lia.
  apply IH. lia.
Qed.

(** X19.  [extractToken] answers with the [authorization] header less its
    first seven characters, whatever they are: [Bearer ] followed by a
    token gives the token, and so does any other seven-character prefix.
    A header of at most seven characters gives the empty string, not
    [undefined]; only a request without the header gives [undefined]. *)
Theorem extractToken_drops_seven :
  (forall token, extractToken (Some ("Bearer " ++ token)%string) = Some token) /\
  (forall prefix token,
      String.length prefix = 7%nat ->
      extractToken (Some (prefix ++ token)%string) = Some token) /\
  (forall header,
      (String.length header <= 7)%nat ->
      extractToken (Some header) = Some EmptyString) /\
  (forall authorization,
      extractToken authorization = None <-> authorization = None).
Proof.
  split; [|split; [|split]].
  - intros token. reflexivity.
  - intros prefix token Hlen. unfold extractToken.
    now rewrite <- Hlen, slice_app.
  - intros header Hlen. unfold extractToken. now rewrite slice_short.
  - intros authorization. split.
    + destruct authorization; [discriminate|reflexivity].
    + intros ->. reflexivity.
Qed.

Lemma extractToken_drops_seven_witness :
  extractToken (Some "Basic: abc") = Some "abc" /\
  extractToken (Some "Bearer") = Some EmptyString.
Proof.
  split.
  - apply (proj1 (proj2 extractToken_drops_seven) "Basic: " "abc"). reflexivity.
  - apply (proj1 (proj2 (proj2 extractToken_drops_seven)) "Bearer").
    simpl. lia.
Defined.

Section RpcProperties.

Variable Client : Type.
Variable Database : Type.
Variable db_of : Client -> Database.
Variable W : Type.
Variable UnknownMethod : string.

(** X20.  The handler of [POST /] does not stop at a method it does not
    know: it assigns the serialized [UnknownMethod] response to [ctx.body]
    and goes on, awaits the database client and calls the missing method,
    so that the request ends with an exception (the rejection of the
    client, or the [TypeError] of calling [undefined]) while [ctx.body]
    holds the error response; the state of the account methods is
    untouched.  For a method it knows, [ctx.body] is the method's result
    when the method completes and is left as it was when the method
    raises; the method is called with the header less its first seven
    characters as the token. *)
Theorem rpc_outcome (methods : string -> option (AccountMethod Database W))
    (authorization : option string) (request : value) (s : Server Client W) :
  request <> VUndefined -> request <> VNull ->
  let key := Js.to_string (JsChain.read request "method") in
  (methods key = None ->
   exists e s',
     rpc db_of UnknownMethod methods authorization request s =
     (Throw e, s') /\
     ctx_body s' =
     Some (Stringified (JsChain.read request "id")
             (mkStatus ERROR UnknownMethod
                [("method", JsChain.read request "method")])) /\
     world s' = world s /\
     (forall c, client s = Connected c \/
                client s = Connecting (Ok c) ->
                e = TypeError "method is not a function" /\
                client s' = Connected c)) /\
  (forall m c,
      methods key = Some m ->
      client s = Connected c \/
      client s = Connecting (Ok c) ->
      rpc db_of UnknownMethod methods authorization request s =
      match m (db_of c) request (extractToken authorization) (world s) with
      | (Ok result, w) =>
          (Ok tt, mkServer (Some (Returned result)) (Connected c) w)
      | (Throw e, w) =>
          (Throw e, mkServer (ctx_body s) (Connected c) w)
      end).
Proof.
  intros Hu Hn key. split.
  - intros Hnone. unfold rpc. fold key. rewrite Hnone.
    destruct request; try congruence;
      cbn [client ctx_body world];
      (destruct (client s) as [[c|e]|c]; cbn [client ctx_body world];
       eexists _, _; (split; [reflexivity|]);
       (split; [reflexivity|]); (split; [reflexivity|]);
       intros c' [H|H]; inversion H; subst; split; reflexivity || idtac).
  - intros m c Hm Hc. unfold rpc. fold key. rewrite Hm.
    destruct request; try congruence;
      (destruct Hc as [-> | ->]; cbn [client ctx_body world];
       destruct (m (db_of c) _ _ _) as [[result|e] w]; reflexivity).
Qed.

End RpcProperties.

Section StartupProperties.

Variable Port : Type.
Variable parseInt : string -> Port.

(** X21.  [serveAccount] exits with code 1 exactly when [MONGO_URL],
    [TRANSACTOR_URL] or [SERVER_SECRET] is not set, naming on the console
    the first of them, in this order, that is missing: it exits when one of
    them is missing, and only then; an empty value counts as set.
    Otherwise the endpoint is [ENDPOINT_URL], or the transactor URL when
    that is not set, the locale is [LANGUAGE] or [en], and the workspace to
    initialize is set only when [INIT_WORKSPACE] is. *)
Theorem serveAccount_settings (env : string -> option string) :
  (env "MONGO_URL" = None ->
   serveAccount parseInt env = Exit "Please provide mongodb url" 1) /\
  (env "MONGO_URL" <> None -> env "TRANSACTOR_URL" = None ->
   serveAccount parseInt env = Exit "Please provide transactor url" 1) /\
  (env "MONGO_URL" <> None -> env "TRANSACTOR_URL" <> None ->
   env "SERVER_SECRET" = None ->
   serveAccount parseInt env = Exit "Please provide server secret" 1) /\
  (forall console code,
      serveAccount parseInt env = Exit console code ->
      code = 1%Z /\
      ((env "MONGO_URL" = None /\ console = "Please provide mongodb url") \/
       (env "MONGO_URL" <> None /\ env "TRANSACTOR_URL" = None /\
        console = "Please provide transactor url") \/
       (env "MONGO_URL" <> None /\ env "TRANSACTOR_URL" <> None /\
        env "SERVER_SECRET" = None /\
        console = "Please provide server secret"))) /\
  (forall dbUri transactorUri serverSecret,
      env "MONGO_URL" = Some dbUri ->
      env "TRANSACTOR_URL" = Some transactorUri ->
      env "SERVER_SECRET" = Some serverSecret ->
      exists metadata,
        serveAccount parseInt env =
        Serving (parseInt (env_or (env "ACCOUNT_PORT") "3000")) dbUri metadata /\
        getMetadata toolPlugin_metadata_Endpoint metadata =
        Some (env_or (env "ENDPOINT_URL") transactorUri) /\
        getMetadata toolPlugin_metadata_Transactor metadata = Some transactorUri /\
        getMetadata serverToken_metadata_Secret metadata = Some serverSecret /\
        getMetadata platform_metadata_locale metadata =
        Some (env_or (env "LANGUAGE") "en") /\
        getMetadata toolPlugin_metadata_InitWorkspace metadata =
        env "INIT_WORKSPACE" /\
        getMetadata account_metadata_FrontURL metadata = env "FRONT_URL" /\
        getMetadata toolPlugin_metadata_UserAgent metadata =
        Some "AccountService").
Proof.
  split; [|split; [|split; [|split]]].
  - intros Hdb. unfold serveAccount. now rewrite Hdb.
  - intros Hdb Htr. unfold serveAccount.
    destruct (env "MONGO_URL"); [|congruence]. now rewrite Htr.
  - intros Hdb Htr Hsec. unfold serveAccount.
    destruct (env "MONGO_URL"); [|congruence].
    destruct (env "TRANSACTOR_URL"); [|congruence]. now rewrite Hsec.
  - intros console code Hexit. unfold serveAccount in Hexit.
    destruct (env "MONGO_URL") as [dbUri|];
      [|inversion Hexit; split; [reflexivity|left; auto]].
    destruct (env "TRANSACTOR_URL") as [transactorUri|];
      [|inversion Hexit; split; [reflexivity|right; left; repeat split; congruence]].
    destruct (env "SERVER_SECRET") as [serverSecret|];
      [discriminate Hexit|].
    inversion Hexit. split; [reflexivity|].
    right. right. repeat split; congruence.
  - intros dbUri transactorUri serverSecret Hdb Htr Hsec.
    unfold serveAccount. rewrite Hdb, Htr, Hsec.
    eexists. split; [reflexivity|].
    destruct (env "INIT_WORKSPACE"); repeat split; reflexivity.
Qed.

End StartupProperties.

End AccountProperties.

(** ** ProseMirror nodes from collaborative documents *)

Section YDocProperties.

Import YDocNodes.

Variable YDoc : Type.
Variable Json : Type.
Variable Node : Type.
Variable Schema : Type.
Variable Extensions : Type.
Variable Content : Type.
Variable applyUpdate : Content -> Result YDoc.
Variable share_keys : YDoc -> list string.
Variable yDocToProsemirrorJSON : YDoc -> option string -> Result Json.
Variable getSchema : Extensions -> Result Schema.
Variable defaultExtensions : Extensions.
Variable nodeFromJSON : Schema -> Json -> Result Node.
Variable top_node : Schema -> Result Node.

Let convert := convert YDoc Json Node Schema yDocToProsemirrorJSON nodeFromJSON.
Let yDocToNode :=
  yDocToNode YDoc Json Node Schema Extensions yDocToProsemirrorJSON getSchema
    defaultExtensions nodeFromJSON top_node.
Let yDocContentToNode :=
  yDocContentToNode YDoc Json Node Schema Extensions Content applyUpdate
    yDocToProsemirrorJSON getSchema defaultExtensions nodeFromJSON top_node.
Let yDocContentToNodes :=
  yDocContentToNodes YDoc Json Node Schema Extensions Content applyUpdate
    share_keys yDocToProsemirrorJSON getSchema defaultExtensions nodeFromJSON.

(** The nodes of one field: one when the field converts, none otherwise. *)
Let node_of (schema : Schema) (ydoc : YDoc) (field : string) : list Node :=
  match convert schema ydoc (Some field) with
  | Ok node => [node]
  | Throw _ => []
  end.

Lemma push_nodes (schema : Schema) (ydoc : YDoc) (fields : list string) :
  forall nodes,
    fold_left (push_node YDoc Json Node Schema yDocToProsemirrorJSON
                 nodeFromJSON schema ydoc) fields nodes =
    nodes ++ flat_map (node_of schema ydoc) fields.
Proof.
  induction fields as [|f fields IH]; intros nodes; cbn [fold_left flat_map].
  - now rewrite app_nil_r.
  - rewrite IH. unfold push_node, node_of, convert.
    destruct (YDocNodes.convert _ _ _ _ _ _ schema ydoc (Some f));
      [now rewrite <- app_assoc | reflexivity].
Qed.

Lemma flat_map_short {A B : Type} (f : A -> list B) (l : list A) :
  (forall x, List.length (f x) <= 1)%nat ->
  (List.length (flat_map f l) <= List.length l)%nat.
Proof.
  intros Hf. induction l as [|x l IH]; simpl; [lia|].
  rewrite length_app. specialize (Hf x). lia.
Qed.

(** X22.  For a content that decodes, [yDocContentToNodes] returns, in
    the order of the document's shared types, the node of every field
    whose JSON and node can both be built, and nothing for the others:
    the fields that fail are skipped without a trace.  There are at most
    as many nodes as fields, and the node [yDocContentToNode] returns for
    a field of the document, when it did not have to fall back, is among
    them. *)
Theorem yDocContentToNodes_collects (content : Content) (ydoc : YDoc)
    (schema : Schema) (extensions : option Extensions) :
  applyUpdate content = Ok ydoc ->
  exists nodes,
    yDocContentToNodes content (Some schema) extensions = (Ok nodes, []) /\
    nodes = flat_map (node_of schema ydoc) (share_keys ydoc) /\
    (List.length nodes <= List.length (share_keys ydoc))%nat /\
    (forall node,
        In node nodes <->
        exists field, In field (share_keys ydoc) /\
                      convert schema ydoc (Some field) = Ok node) /\
    (forall field node,
        In field (share_keys ydoc) ->
        yDocContentToNode content (Some field) (Some schema) extensions =
        (Ok node, []) ->
        In node nodes).
Proof.
  intros Hdoc.
  assert (Hin : forall node,
             In node (flat_map (node_of schema ydoc) (share_keys ydoc)) <->
             exists field, In field (share_keys ydoc) /\
                           convert schema ydoc (Some field) = Ok node).
  { intros node. rewrite in_flat_map. split.
    - intros (field & Hf & Hn). exists field. split; [exact Hf|].
      unfold node_of in Hn. destruct (convert schema ydoc (Some field));
        [destruct Hn as [->|[]]; reflexivity | destruct Hn].
    - intros (field & Hf & Hc). exists field. split; [exact Hf|].
      unfold node_of. rewrite Hc. now left. }
  eexists. split.
  - unfold yDocContentToNodes, YDocNodes.yDocContentToNodes. cbn [resolve].
    rewrite Hdoc, push_nodes. reflexivity.
  - cbn [app]. split; [reflexivity|]. split; [|split; [exact Hin|]].
    + apply flat_map_short. intros f. unfold node_of.
      destruct (convert schema ydoc (Some f)); simpl; lia.
    + intros field node Hf Hnode. apply Hin. exists field. split; [exact Hf|].
      unfold yDocContentToNode, YDocNodes.yDocContentToNode in Hnode.
      rewrite Hdoc in Hnode. unfold YDocNodes.yDocToNode in Hnode.
      cbn [resolve] in Hnode. fold convert in Hnode.
      destruct (convert schema ydoc (Some field)); inversion Hnode; reflexivity.
Qed.

(** X23.  How the three conversions fail.  [yDocToNode] catches a
    failing conversion, writes the error to the console and answers with
    the empty top node of the schema, so it raises only when that node
    cannot be built (or no schema can be had).  [yDocContentToNode]
    decodes the content outside that [try]: an update that cannot be
    applied raises from it, nothing being logged.  [yDocContentToNodes]
    catches the same failure, logs it and returns no nodes; given a schema
    it never raises and logs at most one error. *)
Theorem yDoc_conversion_failures (schema : Schema)
    (extensions : option Extensions) :
  (forall ydoc field,
      match convert schema ydoc field with
      | Ok node =>
          yDocToNode ydoc field (Some schema) extensions = (Ok node, [])
      | Throw err =>
          yDocToNode ydoc field (Some schema) extensions =
          (top_node schema, [err])
      end) /\
  (forall content field e,
      applyUpdate content = Throw e ->
      yDocContentToNode content field (Some schema) extensions = (Throw e, []) /\
      yDocContentToNodes content (Some schema) extensions = (Ok [], [e])) /\
  (forall content,
      exists nodes log,
        yDocContentToNodes content (Some schema) extensions = (Ok nodes, log) /\
        (List.length log <= 1)%nat).
Proof.
  split; [|split].
  - intros ydoc field. unfold yDocToNode, YDocNodes.yDocToNode. cbn [resolve].
    fold convert. destruct (convert schema ydoc field); reflexivity.
  - intros content field e He.
    unfold yDocContentToNode, YDocNodes.yDocContentToNode,
      yDocContentToNodes, YDocNodes.yDocContentToNodes.
    cbn [resolve]. rewrite He. split; reflexivity.
  - intros content.
    unfold yDocContentToNodes, YDocNodes.yDocContentToNodes. cbn [resolve].
    destruct (applyUpdate content); eexists _, _; split;
      try reflexivity; simpl; lia.
Qed.

End YDocProperties.

(** ** The state argument of [loadIndexStageStage] *)

Section StateArgument.

Import StageStore.

Variable core_class_IndexStageState : string.
Variable plugin_space_DocIndexState : string.
Variable core_account_System : string.

Let load := loadIndexStageStage (storage := stage_store)
              core_class_IndexStageState plugin_space_DocIndexState
              core_account_System.
Let step := writer_step core_class_IndexStageState plugin_space_DocIndexState
              core_account_System.
Let run := writer_run core_class_IndexStageState plugin_space_DocIndexState
             core_account_System.

Lemma load_from_prior (st : Store) (state : option IndexStageState)
    (sid field : string) (v : value) :
  load st state sid field v =
  load st (prior_state (storage := stage_store) st state sid) sid field v.
Proof.
  unfold load, loadIndexStageStage, prior_state.
  destruct state as [s|]; [reflexivity|].
  destruct (hd_error (findAll sid st)); reflexivity.
Qed.

Lemma load_by_id_and_attributes (st : Store) (p1 p2 : IndexStageState)
    (sid field : string) (v : value) :
  st_id p1 = st_id p2 -> attributes p1 = attributes p2 ->
  fst (fst (load st (Some p1) sid field v)) =
  fst (fst (load st (Some p2) sid field v)) /\
  snd (load st (Some p1) sid field v) = snd (load st (Some p2) sid field v).
Proof.
  intros Hid Hattr. unfold load, loadIndexStageStage.
  rewrite Hid, Hattr.
  destruct (negb (deepEqual (Js.get (attributes p2) field) v));
    [|split; reflexivity].
  destruct (stage_now _) as [t st']. split; reflexivity.
Qed.

Lemma step_store (cache1 cache2 : Cache) (st : Store) (c1 c2 : StageCall) :
  coherent cache1 st -> coherent cache2 st ->
  call_stage c1 = call_stage c2 -> call_field c1 = call_field c2 ->
  call_value c1 = call_value c2 ->
  snd (step (cache1, st) c1) = snd (step (cache2, st) c2).
Proof.
  intros Hco1 Hco2 Hs Hf Hv.
  pose proof (writer_prior cache1 st c1 Hco1) as H1.
  pose proof (writer_prior cache2 st c2 Hco2) as H2.
  cbv zeta in H1, H2.
  unfold step, writer_step.
  fold (load st (if use_cached c1 then cached (call_stage c1) cache1 else None)
          (call_stage c1) (call_field c1) (call_value c1)).
  fold (load st (if use_cached c2 then cached (call_stage c2) cache2 else None)
          (call_stage c2) (call_field c2) (call_value c2)).
  rewrite (load_from_prior st (if use_cached c1 then _ else _)).
  rewrite (load_from_prior st (if use_cached c2 then _ else _)).
  rewrite <- Hs, <- Hf, <- Hv in *.
  destruct H1 as [[-> Hn1]|(p1 & r1 & -> & Hr1 & Hid1 & Hat1)];
    destruct H2 as [[-> Hn2]|(p2 & r2 & -> & Hr2 & Hid2 & Hat2)];
    try congruence.
  - destruct (load st None _ _ _) as [[res s'] st']. destruct s'; reflexivity.
  - assert (r1 = r2) by congruence. subst r2.
    destruct (load_by_id_and_attributes st p1 p2 (call_stage c1)
                (call_field c1) (call_value c1)) as [_ Hst]; [congruence..|].
    destruct (load st (Some p1) _ _ _) as [[res1 s1] st1].
    destruct (load st (Some p2) _ _ _) as [[res2 s2] st2].
    cbn [snd] in Hst. subst st2. destruct s1, s2; reflexivity.
Qed.

Lemma run_store (calls : list StageCall) :
  forall (cache1 cache2 : Cache) (st : Store),
    store_ok st -> coherent cache1 st -> coherent cache2 st ->
    (List.length calls <= List.length (id_supply st))%nat ->
    snd (run calls (cache1, st)) =
    snd (run (map without_state calls) (cache2, st)).
Proof.
  induction calls as [|c calls IH]; intros cache1 cache2 st Hok Hco1 Hco2 Hlen;
    [reflexivity|].
  assert (Hsupply : id_supply st <> []).
  { destruct (id_supply st); [simpl in Hlen; lia | discriminate]. }
  destruct (writer_step_invariant core_class_IndexStageState
              plugin_space_DocIndexState core_account_System
              cache1 st c Hok Hco1 Hsupply) as (Hok1 & Hco1' & Hlen1 & _).
  destruct (writer_step_invariant core_class_IndexStageState
              plugin_space_DocIndexState core_account_System
              cache2 st (without_state c) Hok Hco2 Hsupply)
    as (_ & Hco2' & _ & _).
  pose proof (step_store cache1 cache2 st c (without_state c) Hco1 Hco2
                eq_refl eq_refl eq_refl) as Hsame.
  unfold run, writer_run. cbn [fold_left map]. fold step.
  fold step in Hok1, Hco1', Hlen1, Hco2'.
  destruct (step (cache1, st) c) as [c1' st1].
  destruct (step (cache2, st) (without_state c)) as [c2' st2].
  cbn [fst snd] in *. subst st2.
  apply IH; auto. simpl in Hlen. lia.
Qed.

(** X25.  For a single writer the state argument is a cache and no more:
    whether each call passes the state the last call on the stage
    returned or passes [undefined] and lets the record be looked up, the
    records stored after any sequence of calls are the same. *)
Theorem state_argument_is_a_cache (calls : list StageCall) (st : Store) :
  store_ok st ->
  (List.length calls <= List.length (id_supply st))%nat ->
  snd (run calls ([], st)) = snd (run (map without_state calls) ([], st)).
Proof.
  intros Hok Hlen. apply run_store; auto; intros sid s H; discriminate H.
Qed.

End StateArgument.

(** ** What [update] does to the documents of the in-memory store *)

Section MemUpdate.

Import MemStore MigrateClientImpl.

Variable matches : value -> value -> bool.
Variable order : list (string * Z) -> list value -> list value.
Variable isOperator : value -> bool.

Let mem : Db Mem := mem_db matches order.
Existing Instance mem.

Lemma update_all_set (q : value) (s : obj) (docs : list value) :
  exists n,
    update_all matches q (VObj [("$set", VObj s)]) docs =
    Some (map (fun d => if matches q d
                        then VObj (Js.assign (Js.own_enumerable d) s)
                        else d) docs,
          Z.of_nat (List.length (List.filter (matches q) docs)), n).
Proof.
  induction docs as [|d docs [n IH]]; cbn [update_all map List.filter].
  - exists 0%Z. reflexivity.
  - rewrite IH. destruct (matches q d).
    + eexists. cbn [apply_update_value apply_update Js.own_enumerable
                    String.eqb Ascii.eqb Bool.eqb List.length].
      f_equal. f_equal. f_equal. lia.
    + exists n. reflexivity.
Qed.

(** X26.  On the in-memory store, [update] with a plain map of fields
    rewrites exactly the documents the translated query selects: each of
    them receives the fields of the map and a [null] freshness marker and
    keeps its other fields, every other document is left as it is, and
    [matched] is the number of documents selected. *)
Theorem update_stamps_selected (w : Mem) (domain : string) (query q : value)
    (o : obj) :
  translateQuery query = Ok q ->
  NoDup (map fst o) ->
  isOperator (VObj o) = false ->
  (exists w' tr res,
      update isOperator domain query (VObj o) w = Some (Ok res, w', tr) /\
      matched res =
      Z.of_nat (List.length
                  (List.filter (matches q) (collection domain (collections w)))) /\
      collection domain (collections w') =
      map (fun d => if matches q d then stamped o d else d)
        (collection domain (collections w))) /\
  (forall d,
      Js.member (stamped o d) HASH = VNull /\
      (forall k v, k <> HASH -> Js.lookup k o = Some v ->
                   Js.member (stamped o d) k = v) /\
      (forall k, k <> HASH -> Js.lookup k o = None ->
                 Js.member (stamped o d) k = Js.get (Js.own_enumerable d) k)).
Proof.
  intros Hq Hnd Hop. split.
  - unfold update, bind at 1, now, call_total.
    cbn [date_now mem mem_db]. unfold mem_now at 1.
    rewrite Hop.
    set (w0 := mkMem (collections w) (cursors w) (clock w + tick w) (tick w)).
    destruct (update_all_set q (Js.set (Js.spread (VObj o)) HASH VNull)
                (collection domain (collections w))) as [n Hall].
    match goal with
    | |- context [try_finally ?b _] =>
        assert (Hbody : exists w1,
                   b w0 = Some (Ok (mkMigrationResult
                                      (Z.of_nat (List.length
                                         (List.filter (matches q)
                                            (collection domain (collections w)))))
                                      n), w1,
                                [EvUpdateMany domain q
                                   (VObj [("$set",
                                           VObj (Js.set (Js.spread (VObj o))
                                                   HASH VNull))])
                                   (Ok (mkUpdateResult
                                          (Z.of_nat (List.length
                                             (List.filter (matches q)
                                                (collection domain (collections w)))))
                                          n))]) /\
                   collection domain (collections w1) =
                   map (fun d => if matches q d then stamped o d else d)
                     (collection domain (collections w)))
    end.
    { unfold bind, lift, updateMany, call, ret. rewrite Hq.
      cbn [db_updateMany mem mem_db]. unfold mem_updateMany.
      cbn [collections w0]. rewrite Hall.
      eexists. split; [reflexivity|].
      cbn [collections with_collections]. rewrite collection_set_same.
      unfold stamped. now rewrite (spread_object o Hnd). }
    destruct Hbody as (w1 & Hbody & Hcoll).
    unfold try_finally. rewrite Hbody.
    unfold update_timing, bind, now, call_total, logger_log, emit, ret.
    cbn [date_now mem mem_db]. unfold mem_now.
    destruct (_ >? 1000)%Z; eexists _, _, _;
      (split; [reflexivity|]); (split; [reflexivity|]);
      cbn [collections]; exact Hcoll.
  - intros d. unfold stamped, Js.member, Js.get.
    assert (Hs : NoDup (map fst (Js.set o HASH VNull)))
      by now apply set_keys_distinct.
    split; [|split].
    + rewrite (assign_lookup _ _ _ Hs). now rewrite lookup_set_same.
    + intros k v Hk Hv. rewrite (assign_lookup _ _ _ Hs).
      now rewrite (lookup_set_other o HASH k VNull Hk), Hv.
    + intros k Hk Hnone. rewrite (assign_lookup _ _ _ Hs).
      now rewrite (lookup_set_other o HASH k VNull Hk), Hnone.
Qed.

End MemUpdate.

(** ** The properties on sample data *)

Lemma translation_precedes_store_witness :
  MigrateClientImpl.traverse (db := Sample.mem) "tasks"
    Examples.query_like_number None Sample.store =
  Some (Throw (TypeError "pattern.split is not a function"), Sample.store, []) /\
  MigrateClientMethods.find (db := Sample.mem) (coll := Examples.mem_collection)
    "tasks" Examples.query_like_number None Sample.store =
  (Throw (TypeError "pattern.split is not a function"), Sample.store, []).
Proof.
  apply (translation_precedes_store (db := Sample.mem)
           (coll := Examples.mem_collection) all_keys_dollar Sample.store
           "tasks" Examples.query_like_number
           (TypeError "pattern.split is not a function")).
  reflexivity.
Defined.

Lemma move_fault_deletes_nothing_witness :
  let tr := [EvLog "move" (VObj [("sourceDomain", VStr "tasks");
                                 ("query", Sample.open_tasks)]);
             EvFind "tasks" Sample.open_tasks 0;
             EvNext 0 (Throw ScriptedStore.fault)] in
  existsb is_deleteMany tr = false \/
  exists q tr0,
    translateQuery Sample.open_tasks = Ok q /\
    tr = tr0 ++ [EvDeleteMany "tasks" q (Throw ScriptedStore.fault)] /\
    existsb is_deleteMany tr0 = false.
Proof.
  apply (move_fault_deletes_nothing (db := ScriptedStore.scripted_db) 3
           "tasks" "archive" Sample.open_tasks Examples.reading_fails
           (ScriptedStore.mkScript [] [])).
  reflexivity.
Defined.

Lemma deleteMany_sends_query_untranslated_witness :
  translateQuery Sample.query_like_and_equality <>
  Ok Sample.query_like_and_equality.
Proof.
  apply (proj2 (deleteMany_sends_query_untranslated (db := Sample.mem)
                  Sample.store "tasks" Sample.query_like_and_equality)
           "name" (VObj [("$like", VStr "ab%c")])).
  - distinct_keys.
  - now left.
  - reflexivity.
Defined.


Lemma create_then_delete_witness :
  let w1 :=
    snd (fst (MigrateClientMethods.create (db := Sample.mem)
                (coll := Examples.mem_collection) "tasks"
                (Sample.task "t9" "open") Sample.store)) in
  let deleted :=
    MigrateClientMethods.delete (coll := Examples.mem_collection)
      "tasks" (VStr "t9") w1 in
  fst (fst deleted) = Ok tt /\
  forall d,
    MemStore.collection d (MemStore.collections (snd (fst deleted))) =
    MemStore.collection d (MemStore.collections Sample.store).
Proof.
  apply (create_then_delete filter_matches (fun _ docs => docs) Sample.store
           "tasks" (Sample.task "t9" "open") (VStr "t9")).
  - reflexivity.
  - reflexivity.
  - intros d [<-|[<-|[<-|[<-|[]]]]]; reflexivity.
Defined.

Lemma loadIndexStageStage_settles_witness :
  let load :=
    loadIndexStageStage (storage := StageStore.stage_store)
      "core:class:IndexStageState" "space" "core:account:System" in
  let first := load Sample.stages None "stage-1" "version" (VNum 5) in
  load (snd first) (snd (fst first)) "stage-1" "version" (VNum 5) = first.
Proof.
  intros load first.
  apply (loadIndexStageStage_settles "core:class:IndexStageState" "space"
           "core:account:System" (storage := StageStore.stage_store)
           Sample.stages (snd first) None (snd (fst first)) "stage-1" "version"
           (VNum 5) (fst (fst first))).
  - discriminate.
  - reflexivity.
  - reflexivity.
Defined.


Lemma rpc_outcome_witness :
  exists e s',
    AccountService.rpc (fun c : unit => c) "platform:status:UnknownMethod"
      Examples.methods (Some "Bearer abc")
      (VObj [("id", VNum 7); ("method", VStr "logout")]) Examples.server =
    (Throw e, s') /\
    AccountService.ctx_body s' =
    Some (AccountService.Stringified (VNum 7)
            (AccountService.mkStatus AccountService.ERROR
               "platform:status:UnknownMethod" [("method", VStr "logout")])) /\
    AccountService.world s' = 0%nat /\
    (forall c,
        AccountService.client Examples.server = AccountService.Connected c \/
        AccountService.client Examples.server =
        AccountService.Connecting (Ok c) ->
        e = TypeError "method is not a function" /\
        AccountService.client s' = AccountService.Connected c).
Proof.
  apply (proj1 (rpc_outcome unit unit (fun c => c) nat
                  "platform:status:UnknownMethod" Examples.methods
                  (Some "Bearer abc")
                  (VObj [("id", VNum 7); ("method", VStr "logout")])
                  Examples.server ltac:(discriminate) ltac:(discriminate))).
  reflexivity.
Defined.

Lemma serveAccount_settings_witness :
  (exists metadata,
      AccountService.serveAccount (fun s : string => s) Examples.environment =
      AccountService.Serving "3000" "mongodb://localhost:27017" metadata /\
      AccountService.getMetadata AccountService.toolPlugin_metadata_Endpoint
        metadata = Some EmptyString /\
      AccountService.getMetadata AccountService.toolPlugin_metadata_InitWorkspace
        metadata = None) /\
  AccountService.serveAccount (fun s : string => s)
    (fun name => if String.eqb name "MONGO_URL"
                 then Some "mongodb://localhost:27017" else None) =
  AccountService.Exit "Please provide transactor url" 1.
Proof.
  split.
  - destruct (proj2 (proj2 (proj2 (proj2
                (serveAccount_settings string (fun s => s)
                   Examples.environment))))
                "mongodb://localhost:27017" "ws://localhost:3333" "secret"
                eq_refl eq_refl eq_refl)
      as (metadata & Hrun & Hendpoint & _ & _ & _ & Hinit & _).
    exists metadata. split; [exact Hrun|]. split; [exact Hendpoint|exact Hinit].
  - apply (proj1 (proj2 (serveAccount_settings string (fun s => s)
                           (fun name => if String.eqb name "MONGO_URL"
                                        then Some "mongodb://localhost:27017"
                                        else None)))).
    + discriminate.
    + reflexivity.
Defined.

Lemma yDocContentToNodes_collects_witness :
  exists nodes,
    YDocNodes.yDocContentToNodes (list (string * string)) string string unit
      unit (option (list (string * string))) Examples.decode
      Examples.field_names Examples.json_of Examples.schema_of tt
      Examples.node_from Examples.two_fields (Some tt) None =
    (Ok nodes, []) /\
    nodes = ["Crash on start"].
Proof.
  destruct (yDocContentToNodes_collects (list (string * string)) string string
              unit unit (option (list (string * string))) Examples.decode
              Examples.field_names Examples.json_of Examples.schema_of tt
              Examples.node_from Examples.empty_doc Examples.two_fields
              [("description", "Crash on start"); ("comment", EmptyString)]
              tt None eq_refl)
    as (nodes & Hrun & Hnodes & _).
  exists nodes. split; [exact Hrun|]. rewrite Hnodes. reflexivity.
Defined.

Lemma yDoc_conversion_failures_witness :
  YDocNodes.yDocContentToNode (list (string * string)) string string unit unit
    (option (list (string * string))) Examples.decode Examples.json_of
    Examples.schema_of tt Examples.node_from Examples.empty_doc
    None (Some "description") (Some tt) None =
  (Throw (TypeError "Unexpected end of array"), []) /\
  YDocNodes.yDocContentToNodes (list (string * string)) string string unit unit
    (option (list (string * string))) Examples.decode Examples.field_names
    Examples.json_of Examples.schema_of tt Examples.node_from
    None (Some tt) None =
  (Ok [], [TypeError "Unexpected end of array"]).
Proof.
  apply (proj1 (proj2 (yDoc_conversion_failures (list (string * string)) string
                         string unit unit (option (list (string * string)))
                         Examples.decode Examples.field_names Examples.json_of
                         Examples.schema_of tt Examples.node_from
                         Examples.empty_doc tt None))
           None (Some "description") (TypeError "Unexpected end of array")).
  reflexivity.
Defined.

Lemma traverse_pulls_what_find_returns_witness :
  exists docs cursor w1 tr1 w2 tr2,
    fst (fst (MigrateClientMethods.find (db := Sample.mem)
                (coll := Examples.mem_collection) "tasks" Sample.open_tasks
                None Sample.store)) = Ok docs /\
    MigrateClientImpl.traverse (db := Sample.mem) "tasks" Sample.open_tasks
      None Sample.store = Some (Ok cursor, w1, tr1) /\
    MigrateClientImpl.next (db := Sample.mem) cursor 10 w1 =
    Some (Ok (Some docs), w2, tr2).
Proof.
  apply (traverse_pulls_what_find_returns filter_matches (fun _ docs => docs)
           Sample.store "tasks" Sample.open_tasks Sample.open_tasks 10%Z).
  - reflexivity.
  - reflexivity.
  - simpl. lia.
Defined.

Lemma state_argument_is_a_cache_witness :
  snd (writer_run "core:class:IndexStageState" "space" "core:account:System"
         Sample.version_calls ([], Sample.stages)) =
  snd (writer_run "core:class:IndexStageState" "space" "core:account:System"
         (map without_state Sample.version_calls) ([], Sample.stages)).
Proof.
  apply (state_argument_is_a_cache "core:class:IndexStageState" "space"
           "core:account:System" Sample.version_calls Sample.stages).
  - unfold store_ok. simpl. distinct_keys.
  - simpl. lia.
Defined.

Lemma update_stamps_selected_witness :
  exists w' tr res,
    MigrateClientImpl.update (db := Sample.mem) all_keys_dollar "tasks"
      Sample.open_tasks (VObj Sample.close_task) Sample.store =
    Some (Ok res, w', tr) /\
    matched res = 3%Z /\
    MemStore.collection "tasks" (MemStore.collections w') =
    [stamped Sample.close_task (Sample.task "t1" "open");
     stamped Sample.close_task (Sample.task "t2" "open");
     Sample.task "t3" "done";
     stamped Sample.close_task (Sample.task "t4" "open")].
Proof.
  apply (proj1 (update_stamps_selected filter_matches (fun _ docs => docs)
                  all_keys_dollar Sample.store "tasks" Sample.open_tasks
                  Sample.open_tasks Sample.close_task eq_refl
                  ltac:(distinct_keys) eq_refl)).
Defined.
